(** * HSF training agent: content parsers and analysis orchestration

    A shallow embedding of the structural parsers
    ([processors/markdown_parser.py], [processors/notebook_parser.py]),
    of the response normaliser ([ai/gemini_client.py]) and of the
    orchestration loops ([analyzer.py]), followed by the properties
    established for them.

    Text is modelled as a list of code points below 256 (the Latin-1
    range of Python's [str]); the character classes below are the ones
    Python uses on that range. *)

From Stdlib Require Import String.
From Stdlib Require Import List Ascii ZArith Lia Bool Arith PeanoNat Sorted.
From Stdlib Require Import DecimalString.
Import ListNotations.
Set Warnings "-register-all".
Local Open Scope list_scope.
Local Open Scope nat_scope.

(* ================================================================= *)
(** ** Python strings *)

Module Py.

Definition str := list ascii.

(** A literal. *)
Definition lit (s : String.string) : str := String.list_ascii_of_string s.
Arguments lit s%_string.

Definition nl : ascii := "010"%char.
Definition tab : ascii := "009"%char.
Definition space : ascii := " "%char.

Definition code (c : ascii) : nat := nat_of_ascii c.

(** [str.isspace] on one character; also the class [\s]. *)
Definition is_space (c : ascii) : bool :=
  let n := code c in
  ((9 <=? n) && (n <=? 13)) || ((28 <=? n) && (n <=? 32))
  || (n =? 133) || (n =? 160).

(** The class [\w]: alphanumeric characters and the underscore. *)
Definition is_word (c : ascii) : bool :=
  let n := code c in
  ((48 <=? n) && (n <=? 57)) || ((65 <=? n) && (n <=? 90)) || (n =? 95)
  || ((97 <=? n) && (n <=? 122))
  || (n =? 170) || (n =? 178) || (n =? 179) || (n =? 181) || (n =? 185)
  || (n =? 186) || ((188 <=? n) && (n <=? 190))
  || ((192 <=? n) && (n <=? 255) && negb (n =? 215) && negb (n =? 247)).

(** [str.lower] on one character. *)
Definition lower_char (c : ascii) : ascii :=
  let n := code c in
  if ((65 <=? n) && (n <=? 90))
     || ((192 <=? n) && (n <=? 222) && negb (n =? 215))
  then ascii_of_nat (n + 32) else c.

Definition lower (s : str) : str := map lower_char s.

Definition str_eqb (a b : str) : bool :=
  if list_eq_dec ascii_dec a b then true else false.

(** [s.startswith(p)]. *)
Fixpoint startswith (p s : str) : bool :=
  match p, s with
  | [], _ => true
  | _ :: _, [] => false
  | a :: p', b :: s' => Ascii.eqb a b && startswith p' s'
  end.

(** [needle in hay]. *)
Fixpoint contains (needle hay : str) : bool :=
  startswith needle hay
  || match hay with
     | [] => false
     | _ :: t => contains needle t
     end.

(** [s.find(needle)]: position of the first occurrence. *)
Fixpoint index_of (needle s : str) : option nat :=
  if startswith needle s then Some 0
  else match s with
       | [] => None
       | _ :: t => option_map S (index_of needle t)
       end.

(** [c in s] for one character. *)
Definition has_char (c : ascii) (s : str) : bool := existsb (Ascii.eqb c) s.

Fixpoint lstrip_by (p : ascii -> bool) (s : str) : str :=
  match s with
  | [] => []
  | c :: t => if p c then lstrip_by p t else s
  end.

Definition rstrip_by (p : ascii -> bool) (s : str) : str :=
  rev (lstrip_by p (rev s)).

Definition strip_by (p : ascii -> bool) (s : str) : str :=
  rstrip_by p (lstrip_by p s).

(** [s.strip()]. *)
Definition strip (s : str) : str := strip_by is_space s.

(** [s.strip(chars)]. *)
Definition strip_chars (chars : str) (s : str) : str :=
  strip_by (fun c => has_char c chars) s.

(** [s.split(sep)] for a one-character separator. *)
Fixpoint split (sep : ascii) (s : str) : list str :=
  match s with
  | [] => [[]]
  | c :: t =>
      if Ascii.eqb c sep then [] :: split sep t
      else match split sep t with
           | [] => [[c]]
           | l :: ls => (c :: l) :: ls
           end
  end.

(** [s.split(sep, 1)]: at most one cut, at the first separator. *)
Fixpoint split1 (sep : ascii) (s : str) : str * option str :=
  match s with
  | [] => ([], None)
  | c :: t =>
      if Ascii.eqb c sep then ([], Some t)
      else let (a, b) := split1 sep t in (c :: a, b)
  end.

(** [len(s.split())]: the number of maximal runs of non-blank
    characters. *)
Fixpoint count_words_from (in_word : bool) (s : str) : nat :=
  match s with
  | [] => 0
  | c :: t =>
      if is_space c then count_words_from false t
      else (if in_word then 0 else 1) + count_words_from true t
  end.

Definition count_words (s : str) : nat := count_words_from false s.

(** [sep.join(parts)]. *)
Fixpoint join (sep : str) (parts : list str) : str :=
  match parts with
  | [] => []
  | [x] => x
  | x :: rest => x ++ sep ++ join sep rest
  end.

(** [s.count('\n')]. *)
Definition count_nl (s : str) : nat :=
  length (filter (Ascii.eqb nl) s).

(** [l[a:b]] for [0 <= a]. *)
Definition slice {A} (l : list A) (a b : nat) : list A :=
  firstn (b - a) (skipn a l).

Definition is_nonempty {A} (l : list A) : bool :=
  match l with [] => false | _ => true end.

(** [enumerate(l)], counting from [i]. *)
Fixpoint enumerate_from {A} (i : nat) (l : list A) : list (nat * A) :=
  match l with
  | [] => []
  | x :: t => (i, x) :: enumerate_from (S i) t
  end.

Definition enumerate {A} (l : list A) : list (nat * A) := enumerate_from 0 l.

(** A [dict] with string keys: keys are unique and keep the order in
    which they were first inserted. *)
Definition dict (V : Type) := list (str * V).

Fixpoint dict_get {V} (d : dict V) (k : str) : option V :=
  match d with
  | [] => None
  | (k', v) :: t => if str_eqb k' k then Some v else dict_get t k
  end.

(** [d[k] = v]. *)
Fixpoint dict_set {V} (d : dict V) (k : str) (v : V) : dict V :=
  match d with
  | [] => [(k, v)]
  | (k', v') :: t =>
      if str_eqb k' k then (k', v) :: t else (k', v') :: dict_set t k v
  end.

Definition dict_has {V} (d : dict V) (k : str) : bool :=
  match dict_get d k with Some _ => true | None => false end.

Definition keys {V} (d : dict V) : list str := map fst d.

(** Outcome of a call: a value, or a raised exception. *)
Inductive exn : Type :=
| JSONDecodeError
| ValidationError
| AttributeError
| TypeError
| KeyError
| OtherError (what : str).

Inductive result (A : Type) : Type :=
| Ret (a : A)
| Raise (e : exn).
Arguments Ret {A} a.
Arguments Raise {A} e.

Definition bind {A B} (m : result A) (f : A -> result B) : result B :=
  match m with
  | Ret a => f a
  | Raise e => Raise e
  end.

End Py.

Import Py.

Notation "x <- m ;; k" := (Py.bind m (fun x => k))
  (at level 61, m at next level, right associativity).

(* ================================================================= *)
(** ** Regular expressions, with the matching order of Python's [re] *)

Module Regex.

(** The fragment of the pattern language the parsers use.  Repetition
    applies to a character class, as in every pattern of the
    program. *)
Inductive re : Type :=
| Eps
| Lit (s : str)
| Chr (p : ascii -> bool)
| Rep (p : ascii -> bool) (lo : nat) (hi : option nat) (greedy : bool)
| Seq (a b : re)
| Alt (a b : re)
| Grp (n : nat) (a : re)
| Bos
| Eos.

Record mstate : Type := MState {
  ms_pos : nat;
  ms_rest : str;
  ms_groups : list (nat * str)
}.

Fixpoint strip_prefix (p s : str) : option str :=
  match p, s with
  | [], _ => Some s
  | _ :: _, [] => None
  | a :: p', b :: s' => if Ascii.eqb a b then strip_prefix p' s' else None
  end.

Definition allows_more (hi : option nat) : bool :=
  match hi with
  | Some 0 => false
  | _ => true
  end.

(** [p{lo,hi}] followed by the continuation [k]: a greedy repetition
    tries the longest run first and gives characters back one at a
    time, a lazy one tries the shortest first. *)
Fixpoint rep {R} (p : ascii -> bool) (greedy : bool) (lo : nat)
         (hi : option nat) (pos : nat) (s : str)
         (k : nat -> str -> option R) {struct s} : option R :=
  match s with
  | [] => if lo =? 0 then k pos [] else None
  | c :: t =>
      if p c && allows_more hi then
        if greedy then
          match rep p greedy (pred lo) (option_map pred hi) (S pos) t k with
          | Some r => Some r
          | None => if lo =? 0 then k pos s else None
          end
        else
          match (if lo =? 0 then k pos s else None) with
          | Some r => Some r
          | None => rep p greedy (pred lo) (option_map pred hi) (S pos) t k
          end
      else if lo =? 0 then k pos s else None
  end.

(** Backtracking matcher in continuation-passing style: the first
    alternative that lets the rest of the pattern succeed wins. *)
Fixpoint run (r : re) (st : mstate) (k : mstate -> option mstate)
  : option mstate :=
  match r with
  | Eps => k st
  | Lit l =>
      match strip_prefix l (ms_rest st) with
      | Some t => k (MState (ms_pos st + length l) t (ms_groups st))
      | None => None
      end
  | Chr p =>
      match ms_rest st with
      | c :: t => if p c then k (MState (S (ms_pos st)) t (ms_groups st))
                  else None
      | [] => None
      end
  | Rep p lo hi greedy =>
      rep p greedy lo hi (ms_pos st) (ms_rest st)
          (fun pos' rest' => k (MState pos' rest' (ms_groups st)))
  | Seq a b => run a st (fun st' => run b st' k)
  | Alt a b =>
      match run a st k with
      | Some r => Some r
      | None => run b st k
      end
  | Grp n a =>
      run a st (fun st' =>
        k (MState (ms_pos st') (ms_rest st')
             ((n, firstn (ms_pos st' - ms_pos st) (ms_rest st))
                :: ms_groups st')))
  | Bos => if ms_pos st =? 0 then k st else None
  | Eos =>
      match ms_rest st with
      | [] => k st
      | [c] => if Ascii.eqb c nl then k st else None
      | _ => None
      end
  end.

Record match_obj : Type := Match {
  m_start : nat;
  m_end : nat;
  m_groups : list (nat * str)
}.

(** Try the pattern at position [pos], where [s] is the text from
    [pos] on. *)
Definition match_at (r : re) (pos : nat) (s : str) : option match_obj :=
  match run r (MState pos s []) Some with
  | Some st => Some (Match pos (ms_pos st) (ms_groups st))
  | None => None
  end.

(** [re.match(r, s)]. *)
Definition re_match (r : re) (s : str) : option match_obj := match_at r 0 s.

(** [m.group(n)]; [None] when the group took no part in the match. *)
Fixpoint lookup_group (n : nat) (gs : list (nat * str)) : option str :=
  match gs with
  | [] => None
  | (i, t) :: rest => if i =? n then Some t else lookup_group n rest
  end.

Definition group (n : nat) (m : match_obj) : option str :=
  lookup_group n (m_groups m).

(** [re.finditer(r, s)]: leftmost matches that do not overlap.  While
    [skip] is positive the scan is inside the previous match.  (No
    pattern of the program matches the empty string.) *)
Fixpoint finditer_from (r : re) (pos skip : nat) (s : str)
  : list match_obj :=
  match skip with
  | S skip' =>
      match s with
      | [] => []
      | _ :: t => finditer_from r (S pos) skip' t
      end
  | 0 =>
      match match_at r pos s with
      | Some m =>
          m :: match s with
               | [] => []
               | _ :: t => finditer_from r (S pos) (m_end m - pos - 1) t
               end
      | None =>
          match s with
          | [] => []
          | _ :: t => finditer_from r (S pos) 0 t
          end
      end
  end.

Definition finditer (r : re) (s : str) : list match_obj :=
  finditer_from r 0 0 s.

(** Classes and shorthands. *)
Definition chr (c : ascii) : re := Chr (Ascii.eqb c).
Definition any_char : ascii -> bool := fun _ => true.
Definition dot : ascii -> bool := fun c => negb (Ascii.eqb c nl).
Definition none_of (cs : str) : ascii -> bool := fun c => negb (has_char c cs).
Definition plus (p : ascii -> bool) : re := Rep p 1 None true.
Definition opt (a : re) : re := Alt a Eps.

Fixpoint seq (rs : list re) : re :=
  match rs with
  | [] => Eps
  | [r] => r
  | r :: rest => Seq r (seq rest)
  end.

(** *** Search order of a repetition

    The notions below state in which order a repetition tries its
    candidates. *)

(** Length of the leading run of characters of class [p]. *)
Fixpoint run_len (p : ascii -> bool) (s : str) : nat :=
  match s with
  | c :: t => if p c then S (run_len p t) else 0
  | [] => 0
  end.

Definition cap (hi : option nat) (n : nat) : nat :=
  match hi with
  | Some h => Nat.min h n
  | None => n
  end.

(** Candidates [lo + cnt - 1], ..., [lo], in this order. *)
Fixpoint descend {R} (f : nat -> option R) (lo cnt : nat) : option R :=
  match cnt with
  | 0 => None
  | S m => match f (lo + m) with
           | Some r => Some r
           | None => descend f lo m
           end
  end.

(** Candidates [lo], ..., [lo + cnt - 1], in this order. *)
Fixpoint ascend {R} (f : nat -> option R) (lo cnt : nat) : option R :=
  match cnt with
  | 0 => None
  | S m => match f lo with
           | Some r => Some r
           | None => ascend f (S lo) m
           end
  end.

End Regex.

Import Regex.

(* ================================================================= *)
(** ** [processors/markdown_parser.py] *)

Module MarkdownParser.

Record header : Type := Header {
  h_level : nat;
  h_text : str;
  h_line : nat
}.

Inductive block_type : Type := fenced | indented.

Record code_block : Type := CodeBlock {
  cb_language : str;
  cb_code : str;
  cb_line : nat;
  cb_type : block_type
}.

Record section : Type := Section_ {
  s_title : str;
  s_level : nat;
  s_content : str;
  s_start_line : nat;
  s_end_line : nat
}.

(** [^(#{1,6})\s+(.+)$] *)
Definition atx_pattern : re :=
  seq [Bos;
       Grp 1 (Rep (Ascii.eqb "#") 1 (Some 6) true);
       plus is_space;
       Grp 2 (plus dot);
       Eos].

(** The shape the specification gives to a header line: [level]
    hash characters, between one and six, followed by a body that is
    one blank and then at least one more character. *)
Definition atx_line (line : str) (level : nat) (body : str) : Prop :=
  line = repeat "#"%char level ++ body /\
  1 <= level <= 6 /\
  exists w tail, body = w :: tail /\ is_space w = true /\ tail <> [].

Definition group_or_empty (n : nat) (m : match_obj) : str :=
  match group n m with
  | Some t => t
  | None => []
  end.

Definition header_of_line (i : nat) (line : str) : option header :=
  match re_match atx_pattern line with
  | Some atx_match =>
      let level := length (group_or_empty 1 atx_match) in
      let text := strip (group_or_empty 2 atx_match) in
      Some (Header level text (i + 1))
  | None => None
  end.

Fixpoint headers_of (numbered : list (nat * str)) : list header :=
  match numbered with
  | [] => []
  | (i, line) :: rest =>
      match header_of_line i line with
      | Some h => h :: headers_of rest
      | None => headers_of rest
      end
  end.

Definition extract_headers (content : str) : list header :=
  let lines := split nl content in
  headers_of (enumerate lines).

(** The inner loop of [extract_sections]: the first later header of
    the same or a higher rank closes the section. *)
Fixpoint find_end (level : nat) (later : list header) (end_line : nat)
  : nat :=
  match later with
  | [] => end_line
  | hj :: rest =>
      if h_level hj <=? level then h_line hj - 1
      else find_end level rest end_line
  end.

Fixpoint sections_of (lines : list str) (headers : list header)
  : list section :=
  match headers with
  | [] => []
  | header :: later =>
      let start_line := h_line header - 1 in
      let end_line := find_end (h_level header) later (length lines) in
      let section_content := join [nl] (slice lines start_line end_line) in
      Section_ (h_text header) (h_level header) section_content
               (start_line + 1) end_line
        :: sections_of lines later
  end.

(** Where the specification closes the section of the [i]-th header
    [h]: on the line before the next header whose level is at most
    that of [h], or on the last line when no such header follows. *)
Definition section_ends (headers : list header) (n_lines i : nat)
           (h : header) (end_line : nat) : Prop :=
  (exists j hj,
      i < j /\ nth_error headers j = Some hj /\
      h_level hj <= h_level h /\
      (forall k hk, i < k < j -> nth_error headers k = Some hk ->
                    h_level h < h_level hk) /\
      end_line = h_line hj - 1)
  \/
  ((forall k hk, i < k -> nth_error headers k = Some hk ->
                 h_level h < h_level hk) /\
   end_line = n_lines).

Definition extract_sections (content : str) : list section :=
  let headers := extract_headers content in
  let lines := split nl content in
  sections_of lines headers.

Definition fence : str := lit "```".

(** [```(\w+)?\n(.*?)```] with [re.DOTALL] *)
Definition fenced_pattern : re :=
  seq [Lit fence;
       opt (Grp 1 (plus is_word));
       chr nl;
       Grp 2 (Rep any_char 0 None false);
       Lit fence].

Definition fenced_block (content : str) (m : match_obj) : code_block :=
  let language := match group 1 m with
                  | Some l => l
                  | None => lit "text"
                  end in
  let code := strip (group_or_empty 2 m) in
  let line_num := count_nl (firstn (m_start m) content) + 1 in
  CodeBlock language code line_num fenced.

Definition fenced_blocks (content : str) : list code_block :=
  map (fenced_block content) (finditer fenced_pattern content).

(** State of the scan for indented blocks. *)
Record indent_state : Type := IndentState {
  code_blocks : list code_block;
  in_code_block : bool;
  current_block : list str;
  block_start : nat
}.

Definition indented_block (st : indent_state) : code_block :=
  CodeBlock (lit "text") (join [nl] (current_block st)) (block_start st)
            indented.

Definition indent_step (st : indent_state) (il : nat * str) : indent_state :=
  let (i, line) := il in
  if startswith (lit "    ") line || startswith [tab] line then
    let start := if in_code_block st then block_start st else i + 1 in
    let body := if startswith (lit "    ") line then skipn 4 line
                else skipn 1 line in
    IndentState (code_blocks st) true (current_block st ++ [body]) start
  else if in_code_block st && is_nonempty (current_block st) then
    IndentState (code_blocks st ++ [indented_block st]) false []
                (block_start st)
  else
    IndentState (code_blocks st) false (current_block st) (block_start st).

(** The text has no occurrence of the fence. *)
Definition fence_free (s : str) : Prop :=
  forall j, startswith fence (skipn j s) = false.

Definition is_fenced (b : code_block) : bool :=
  match cb_type b with fenced => true | indented => false end.

(** The extracted code put back between fence lines, under the
    opening tag [tag]. *)
Definition rewrap (tag code : str) : str :=
  fence ++ tag ++ [nl] ++ code ++ [nl] ++ fence.

(** Is the line of 0-based index [i] strictly inside the span of a
    fenced block of [content]? *)
Definition inside_fence (content : str) (i : nat) : bool :=
  existsb (fun m => (count_nl (firstn (m_start m) content) <? i)
                    && (i <? count_nl (firstn (m_end m) content)))
          (finditer fenced_pattern content).

(** What the scan for indented blocks has established once the
    lines before index [n] are processed: the blocks found so far
    follow the initial ones, are all indented, start on increasing
    lines, and precede the run in progress. *)
Definition indent_inv (fs : list code_block) (n : nat) (st : indent_state)
  : Prop :=
  exists ind,
    code_blocks st = fs ++ ind /\
    Forall (fun b => cb_type b = indented) ind /\
    StronglySorted (fun a b => cb_line a < cb_line b) ind /\
    Forall (fun b => cb_line b <
                     if in_code_block st then block_start st else n + 1)
           ind /\
    (in_code_block st = true -> block_start st <= n).

Definition extract_code_blocks (content : str) : list code_block :=
  let st0 := IndentState (fenced_blocks content) false [] 0 in
  let lines := split nl content in
  let st := fold_left indent_step (enumerate lines) st0 in
  if in_code_block st && is_nonempty (current_block st)
  then code_blocks st ++ [indented_block st]
  else code_blocks st.

(** [^---\n(.*?)\n---\n] with [re.DOTALL] *)
Definition frontmatter_pattern : re :=
  seq [Bos;
       Lit (lit "---" ++ [nl]);
       Grp 1 (Rep any_char 0 None false);
       Lit ([nl] ++ lit "---" ++ [nl])].

Definition quote_chars : str := ["034"%char; "'"%char].

Definition metadata_step (metadata : dict str) (line : str) : dict str :=
  if has_char ":" line then
    match split1 ":" line with
    | (key, Some value) =>
        dict_set metadata (strip key) (strip_chars quote_chars (strip value))
    | (_, None) => metadata
    end
  else metadata.

Definition extract_metadata (content : str) : dict str :=
  match re_match frontmatter_pattern content with
  | Some frontmatter_match =>
      let frontmatter := group_or_empty 1 frontmatter_match in
      fold_left metadata_step (split nl frontmatter) []
  | None => []
  end.

Inductive link_type : Type := markdown | reference | plain.

Record link : Type := Link {
  l_text : str;
  l_url : str;
  l_line : nat;
  l_type : link_type
}.

(** [\[([^\]]+)\]\(([^)]+)\)] *)
Definition link_pattern : re :=
  seq [chr "["; Grp 1 (plus (none_of (lit "]"))); chr "]";
       chr "("; Grp 2 (plus (none_of (lit ")"))); chr ")"].

(** [\[([^\]]+)\]\[([^\]]+)\]] *)
Definition ref_pattern : re :=
  seq [chr "["; Grp 1 (plus (none_of (lit "]"))); chr "]";
       chr "["; Grp 2 (plus (none_of (lit "]"))); chr "]"].

(** The characters a bare URL stops at: blanks, the double quote and
    [< > { } | \ ^ ` [ ]]. *)
Definition url_stop : str := "034"%char :: lit "<>{}|\^`[]".

Definition url_char (c : ascii) : bool :=
  negb (is_space c) && negb (has_char c url_stop).

Definition url_last_char (c : ascii) : bool :=
  url_char c && negb (has_char c (lit ".,;:!?")).

(** [https?://] followed by one or more characters that do not stop
    a URL, the last of which is none of [. , ; : ! ?]. *)
Definition url_pattern : re :=
  seq [Lit (lit "http"); Rep (Ascii.eqb "s") 0 (Some 1) true;
       Lit (lit "://"); plus url_char; Chr url_last_char].

Definition line_of (content : str) (m : match_obj) : nat :=
  count_nl (firstn (m_start m) content) + 1.

Definition whole_match (content : str) (m : match_obj) : str :=
  slice content (m_start m) (m_end m).

Definition extract_links (content : str) : list link :=
  map (fun m => Link (group_or_empty 1 m) (group_or_empty 2 m)
                     (line_of content m) markdown)
      (finditer link_pattern content)
  ++ map (fun m => Link (group_or_empty 1 m)
                        (lit "[ref:" ++ group_or_empty 2 m ++ lit "]")
                        (line_of content m) reference)
         (finditer ref_pattern content)
  ++ map (fun m => Link (whole_match content m) (whole_match content m)
                        (line_of content m) plain)
         (finditer url_pattern content).

Definition mentions (keyword : string) (h : header) : bool :=
  contains (lit keyword) (lower (h_text h)).

Definition _determine_content_type (metadata : dict str)
           (headers : list header) (code_blocks : list code_block) : str :=
  match dict_get metadata (lit "type") with
  | Some t => t
  | None =>
      let has_code := 0 <? length code_blocks in
      let has_exercises :=
        existsb (fun h => mentions "exercise" h || mentions "challenge" h)
                headers in
      let has_solutions :=
        existsb (fun h => mentions "solution" h || mentions "answer" h)
                headers in
      if has_exercises && has_solutions then lit "tutorial_with_exercises"
      else if has_exercises then lit "tutorial"
      else if has_code then lit "code_example"
      else if existsb (mentions "introduction") headers
      then lit "introduction"
      else lit "documentation"
  end.

(** The classification rule as the specification words it.  A
    keyword counts whatever the case of its letters in the header
    text. *)
Definition says (keyword : string) (h : header) : Prop :=
  exists pre mid post,
    h_text h = pre ++ mid ++ post /\ lower mid = lit keyword.

Definition about_exercises (headers : list header) : Prop :=
  exists h, In h headers /\ (says "exercise" h \/ says "challenge" h).

Definition about_solutions (headers : list header) : Prop :=
  exists h, In h headers /\ (says "solution" h \/ says "answer" h).

Definition about_introduction (headers : list header) : Prop :=
  exists h, In h headers /\ says "introduction" h.

(** Priority order, first match wins. *)
Inductive classified (metadata : dict str) (headers : list header)
          (code_blocks : list code_block) : str -> Prop :=
| by_metadata (t : str) :
    dict_get metadata (lit "type") = Some t ->
    classified metadata headers code_blocks t
| by_exercises_and_solutions :
    dict_get metadata (lit "type") = None ->
    about_exercises headers -> about_solutions headers ->
    classified metadata headers code_blocks (lit "tutorial_with_exercises")
| by_exercises :
    dict_get metadata (lit "type") = None ->
    about_exercises headers -> ~ about_solutions headers ->
    classified metadata headers code_blocks (lit "tutorial")
| by_code :
    dict_get metadata (lit "type") = None ->
    ~ about_exercises headers -> code_blocks <> [] ->
    classified metadata headers code_blocks (lit "code_example")
| by_introduction :
    dict_get metadata (lit "type") = None ->
    ~ about_exercises headers -> code_blocks = [] ->
    about_introduction headers ->
    classified metadata headers code_blocks (lit "introduction")
| by_default :
    dict_get metadata (lit "type") = None ->
    ~ about_exercises headers -> code_blocks = [] ->
    ~ about_introduction headers ->
    classified metadata headers code_blocks (lit "documentation").

Record statistics : Type := Statistics {
  st_lines : nat;
  st_words : nat;
  st_headers : nat;
  st_code_blocks : nat;
  st_links : nat;
  st_sections : nat
}.

Record structure : Type := Structure {
  sr_headers : list header;
  sr_sections : list section;
  sr_code_blocks : list code_block;
  sr_links : list link
}.

Record analysis : Type := Analysis {
  a_file_path : str;
  a_metadata : dict str;
  a_statistics : statistics;
  a_structure : structure;
  a_content_type : str
}.

Definition analyze_content_structure (content file_path : str) : analysis :=
  let metadata := extract_metadata content in
  let headers := extract_headers content in
  let code_blocks := extract_code_blocks content in
  let links := extract_links content in
  let sections := extract_sections content in
  let lines := split nl content in
  let word_count := count_words content in
  Analysis file_path metadata
    (Statistics (length lines) word_count (length headers)
                (length code_blocks) (length links) (length sections))
    (Structure headers sections code_blocks links)
    (_determine_content_type metadata headers code_blocks).

(** *** Further entry points *)

(** A line the scan for indented blocks takes as code, and the line
    without its indentation. *)
Definition indented_line (line : str) : bool :=
  startswith (lit "    ") line || startswith [tab] line.

Definition unindent (line : str) : str :=
  if startswith (lit "    ") line then skipn 4 line else skipn 1 line.

(** What the scan for indented blocks has collected once the lines
    [done] are processed: the code lines of the blocks found so
    far, followed by the run in progress, are the indented lines
    among [done], without their indentation. *)
Definition collected_inv (fs : list code_block) (done : list str)
           (st : indent_state) : Prop :=
  exists ind,
    code_blocks st = fs ++ ind /\
    Forall (fun b => cb_type b = indented) ind /\
    concat (map (fun b => split nl (cb_code b)) ind) ++ current_block st
    = map unindent (filter indented_line done) /\
    (current_block st <> [] -> in_code_block st = true) /\
    Forall (fun l => ~ In nl l) (current_block st).

(** The loop of [get_chapter_summary]: blank lines are passed over,
    a line starting with a hash marks that text may follow, and the
    loop ends at the third collected line. *)
Fixpoint summary_scan (lines : list str) (summary_lines : list str)
         (found_content : bool) : list str :=
  match lines with
  | [] => summary_lines
  | line :: rest =>
      let line := strip line in
      if negb (is_nonempty line) then
        summary_scan rest summary_lines found_content
      else if startswith (lit "#") line then
        summary_scan rest summary_lines true
      else if found_content && negb (startswith (lit "#") line) then
        let summary_lines := summary_lines ++ [line] in
        if 3 <=? length summary_lines then summary_lines
        else summary_scan rest summary_lines found_content
      else summary_scan rest summary_lines found_content
  end.

Definition no_summary : str := lit "No summary available".

Definition get_chapter_summary (content : str) : str :=
  let summary_lines := summary_scan (split nl content) [] false in
  if is_nonempty summary_lines
  then firstn 200 (join (lit " ") summary_lines) ++ lit "..."
  else no_summary.

End MarkdownParser.

Import MarkdownParser.

(* ================================================================= *)
(** ** Python values read from JSON

    The decoder of the standard [json] module, as far as the program
    relies on it.  Text stays in the modelled range: an escape that
    denotes a code point above 255 is outside the model and reported
    as such. *)

Module Json.

Local Open Scope Z_scope.

(** A [float] is kept as the decimal literal it was read from. *)
Inductive pyfloat : Type :=
| FNaN
| FInf (negative : bool)
| FDec (negative : bool) (digits : Z) (exp10 : Z).

Inductive json : Type :=
| JNull
| JBool (b : bool)
| JInt (z : Z)
| JFloat (f : pyfloat)
| JStr (s : str)
| JArr (items : list json)
| JObj (members : list (str * json)).

(** Does the literal read as [0.0]?  It does when every digit is
    zero or when the value is at most half the least positive
    double, [2^-1075]. *)
Definition float_is_zero (f : pyfloat) : bool :=
  match f with
  | FNaN | FInf _ => false
  | FDec _ digits exp10 =>
      (digits =? 0)
      || ((exp10 <? 0) && (digits * 2 ^ 1075 <=? 10 ^ (- exp10)))
  end.

(** [bool(v)]. *)
Definition truthy (v : json) : bool :=
  match v with
  | JNull => false
  | JBool b => b
  | JInt z => negb (z =? 0)
  | JFloat f => negb (float_is_zero f)
  | JStr s => is_nonempty s
  | JArr items => is_nonempty items
  | JObj members => is_nonempty members
  end.

Definition dquote : ascii := "034"%char.
Definition backslash : ascii := "092"%char.

Definition is_json_ws (c : ascii) : bool :=
  Ascii.eqb c " " || Ascii.eqb c tab || Ascii.eqb c nl
  || Ascii.eqb c "013".

Definition skip_ws (s : str) : str := lstrip_by is_json_ws s.

Definition is_digit (c : ascii) : bool :=
  (48 <=? code c)%nat && (code c <=? 57)%nat.

Definition digit_val (c : ascii) : Z := Z.of_nat (code c - 48).

Definition digits_val (ds : str) : Z :=
  fold_left (fun acc d => acc * 10 + digit_val d) ds 0.

Fixpoint span_digits (s : str) : str * str :=
  match s with
  | c :: t => if is_digit c
              then let (ds, rest) := span_digits t in (c :: ds, rest)
              else ([], s)
  | [] => ([], [])
  end.

Definition hex_val (c : ascii) : option nat :=
  let n := code c in
  if is_digit c then Some (n - 48)%nat
  else if (97 <=? n)%nat && (n <=? 102)%nat then Some (n - 87)%nat
  else if (65 <=? n)%nat && (n <=? 70)%nat then Some (n - 55)%nat
  else None.

Definition hex4 (a b c d : ascii) : option nat :=
  match hex_val a, hex_val b, hex_val c, hex_val d with
  | Some x, Some y, Some z, Some w =>
      Some (((x * 16 + y) * 16 + z) * 16 + w)%nat
  | _, _, _, _ => None
  end.

Definition outside_model : exn :=
  OtherError (lit "code point above 255").

(** The body of a string, after the opening quote (strict mode:
    control characters must be escaped). *)
Fixpoint scanstring (s : str) (acc : str) : result (str * str) :=
  match s with
  | [] => Raise JSONDecodeError
  | c :: t =>
      if Ascii.eqb c dquote then Ret (rev acc, t)
      else if Ascii.eqb c backslash then
        match t with
        | e :: t' =>
            if Ascii.eqb e dquote then scanstring t' (dquote :: acc)
            else if Ascii.eqb e backslash
            then scanstring t' (backslash :: acc)
            else if Ascii.eqb e "/" then scanstring t' ("/"%char :: acc)
            else if Ascii.eqb e "b" then scanstring t' ("008"%char :: acc)
            else if Ascii.eqb e "f" then scanstring t' ("012"%char :: acc)
            else if Ascii.eqb e "n" then scanstring t' (nl :: acc)
            else if Ascii.eqb e "r" then scanstring t' ("013"%char :: acc)
            else if Ascii.eqb e "t" then scanstring t' (tab :: acc)
            else if Ascii.eqb e "u" then
              match t' with
              | h1 :: h2 :: h3 :: h4 :: t'' =>
                  match hex4 h1 h2 h3 h4 with
                  | Some n =>
                      if (n <? 256)%nat
                      then scanstring t'' (ascii_of_nat n :: acc)
                      else Raise outside_model
                  | None => Raise JSONDecodeError
                  end
              | _ => Raise JSONDecodeError
              end
            else Raise JSONDecodeError
        | [] => Raise JSONDecodeError
        end
      else if (code c <? 32)%nat then Raise JSONDecodeError
      else scanstring t (c :: acc)
  end.

(** A number: an optional minus sign and an integer part without
    leading zeros, then optionally a point with digits, then
    optionally an exponent. *)
Definition parse_number (s : str) : option (json * str) :=
  let (negative, s1) :=
    match s with
    | c :: t => if Ascii.eqb c "-" then (true, t) else (false, s)
    | [] => (false, s)
    end in
  let integer :=
    match s1 with
    | c :: t =>
        if Ascii.eqb c "0" then Some ([c], t)
        else if is_digit c then Some (span_digits s1)
        else None
    | [] => None
    end in
  match integer with
  | None => None
  | Some (ds, s2) =>
      let (frac, s3) :=
        match s2 with
        | c :: t =>
            if Ascii.eqb c "." then
              match span_digits t with
              | ([], _) => ([], s2)
              | (fs, rest) => (fs, rest)
              end
            else ([], s2)
        | [] => ([], s2)
        end in
      let '(has_exp, exp, s4) :=
        match s3 with
        | c :: t =>
            if Ascii.eqb c "e" || Ascii.eqb c "E" then
              let (exp_negative, t') :=
                match t with
                | sg :: u =>
                    if Ascii.eqb sg "-" then (true, u)
                    else if Ascii.eqb sg "+" then (false, u)
                    else (false, t)
                | [] => (false, t)
                end in
              match span_digits t' with
              | ([], _) => (false, 0, s3)
              | (es, rest) =>
                  (true,
                   if exp_negative then - digits_val es else digits_val es,
                   rest)
              end
            else (false, 0, s3)
        | [] => (false, 0, s3)
        end in
      if is_nonempty frac || has_exp then
        Some (JFloat (FDec negative (digits_val (ds ++ frac))
                           (exp - Z.of_nat (length frac))),
              s4)
      else
        Some (JInt (if negative then - digits_val ds else digits_val ds),
              s4)
  end.

Definition word (w : string) (v : json) (s : str) : option (json * str) :=
  match strip_prefix (lit w) s with
  | Some rest => Some (v, rest)
  | None => None
  end.

Definition first_of {A} (a b : option A) : option A :=
  match a with Some _ => a | None => b end.

(** Numbers and the bare words, in the order the scanner tries
    them. *)
Definition parse_atom (s : str) : result (json * str) :=
  match first_of (word "null" JNull s)
        (first_of (word "true" (JBool true) s)
        (first_of (word "false" (JBool false) s)
        (first_of (parse_number s)
        (first_of (word "NaN" (JFloat FNaN) s)
        (first_of (word "Infinity" (JFloat (FInf false)) s)
                  (word "-Infinity" (JFloat (FInf true)) s)))))) with
  | Some r => Ret r
  | None => Raise JSONDecodeError
  end.

Definition out_of_fuel : exn := OtherError (lit "out of fuel").

(** One value at the head of [s], and the text after it.  A value
    and the items in it take one unit of fuel each, so fuel above
    twice the length of the text is never used up. *)
Fixpoint parse_value (fuel : nat) (s : str) {struct fuel}
  : result (json * str) :=
  match fuel with
  | O => Raise out_of_fuel
  | S fuel' =>
      match s with
      | [] => Raise JSONDecodeError
      | c :: t =>
          if Ascii.eqb c dquote then
            p <- scanstring t [];; Ret (JStr (fst p), snd p)
          else if Ascii.eqb c "{" then
            match skip_ws t with
            | c' :: t' =>
                if Ascii.eqb c' "}" then Ret (JObj [], t')
                else if Ascii.eqb c' dquote
                then p <- parse_members fuel' t' [];;
                     Ret (JObj (fst p), snd p)
                else Raise JSONDecodeError
            | [] => Raise JSONDecodeError
            end
          else if Ascii.eqb c "[" then
            match skip_ws t with
            | c' :: t' =>
                if Ascii.eqb c' "]" then Ret (JArr [], t')
                else p <- parse_items fuel' (skip_ws t) [];;
                     Ret (JArr (fst p), snd p)
            | [] => Raise JSONDecodeError
            end
          else parse_atom s
      end
  end

(** The members of an object, from just after the opening quote of
    a key. *)
with parse_members (fuel : nat) (s : str) (acc : list (str * json))
     {struct fuel} : result (list (str * json) * str) :=
  match fuel with
  | O => Raise out_of_fuel
  | S fuel' =>
      k <- scanstring s [];;
      match skip_ws (snd k) with
      | c :: t =>
          if Ascii.eqb c ":" then
            v <- parse_value fuel' (skip_ws t);;
            let acc' := dict_set acc (fst k) (fst v) in
            match skip_ws (snd v) with
            | c' :: t' =>
                if Ascii.eqb c' "}" then Ret (acc', t')
                else if Ascii.eqb c' "," then
                  match skip_ws t' with
                  | q :: t'' =>
                      if Ascii.eqb q dquote
                      then parse_members fuel' t'' acc'
                      else Raise JSONDecodeError
                  | [] => Raise JSONDecodeError
                  end
                else Raise JSONDecodeError
            | [] => Raise JSONDecodeError
            end
          else Raise JSONDecodeError
      | [] => Raise JSONDecodeError
      end
  end

(** The items of an array, from the start of an item. *)
with parse_items (fuel : nat) (s : str) (acc : list json)
     {struct fuel} : result (list json * str) :=
  match fuel with
  | O => Raise out_of_fuel
  | S fuel' =>
      v <- parse_value fuel' s;;
      let acc' := acc ++ [fst v] in
      match skip_ws (snd v) with
      | c :: t =>
          if Ascii.eqb c "]" then Ret (acc', t)
          else if Ascii.eqb c "," then parse_items fuel' (skip_ws t) acc'
          else Raise JSONDecodeError
      | [] => Raise JSONDecodeError
      end
  end.

(** [json.loads(s)]. *)
Definition json_loads (s : str) : result json :=
  v <- parse_value (S (2 * length s)) (skip_ws s);;
  match skip_ws (snd v) with
  | [] => Ret (fst v)
  | _ :: _ => Raise JSONDecodeError
  end.

End Json.

Import Json.

(* ================================================================= *)
(** ** [ai/gemini_client.py] *)

Module GeminiClient.

(** The scan of [_parse_json_response] for a fenced payload; the
    closing fence ends it. *)
Fixpoint collect_json_lines (lines : list str) (in_json_block : bool)
         (json_lines : list str) : list str :=
  match lines with
  | [] => json_lines
  | line :: rest =>
      if startswith (lit "```json") (strip line)
         || startswith (lit "```{") (strip line)
      then collect_json_lines rest true json_lines
      else if str_eqb (strip line) (lit "```") && in_json_block
      then json_lines
      else if in_json_block
      then collect_json_lines rest in_json_block (json_lines ++ [line])
      else collect_json_lines rest in_json_block json_lines
  end.

(** [None] is [JNull]. *)
Definition _parse_json_response (response_text : str) : result json :=
  match json_loads response_text with
  | Ret v => Ret v
  | Raise JSONDecodeError =>
      let lines := split nl (strip response_text) in
      let json_lines := collect_json_lines lines false [] in
      if is_nonempty json_lines then
        match json_loads (join [nl] json_lines) with
        | Ret v => Ret v
        | Raise JSONDecodeError => Ret JNull
        | Raise e => Raise e
        end
      else Ret JNull
  | Raise e => Raise e
  end.

(** Does the line open a fenced payload? *)
Definition opens_json_block (line : str) : bool :=
  startswith (lit "```json") (strip line)
  || startswith (lit "```{") (strip line).

(** Does the line close it? *)
Definition closes_json_block (line : str) : bool :=
  str_eqb (strip line) (lit "```").

(** A request sent to the generative backend, with the file it was
    sent for. *)
Record call : Type := Call {
  call_file : str;
  call_prompt : str
}.

Section Client.

(** The backend is an outside service: it has a state of its own,
    and a request is answered by a text, by nothing, or by an
    error. *)
Variable backend : Type.
Variable generate_content :
  backend -> str -> result (option str) * backend.

(** The prompt template ([ai/prompt_templates.py]), a fixed text
    around the content, the title and the path. *)
Variable get_primary_analysis_prompt : str -> json -> str -> str.

Record world : Type := World {
  w_backend : backend;
  w_calls : list call
}.

Definition analyze_content (content file_path : str)
           (chapter_title : json) (w : world) : json * world :=
  let chapter_title :=
    if truthy chapter_title then chapter_title
    else JStr (last (split "/" file_path) []) in
  let prompt :=
    get_primary_analysis_prompt content chapter_title file_path in
  let (response, b) := generate_content (w_backend w) prompt in
  let w' := World b (w_calls w ++ [Call file_path prompt]) in
  match response with
  | Ret (Some text) =>
      if is_nonempty text then
        match _parse_json_response text with
        | Ret parsed_response =>
            if truthy parsed_response then (parsed_response, w')
            else (JNull, w')
        | Raise _ => (JNull, w')
        end
      else (JNull, w')
  | Ret None => (JNull, w')
  | Raise _ => (JNull, w')
  end.

(** The loop of [batch_analyze_content].  The client reports
    every failure as [None], so the handler around the call is
    never entered. *)
Fixpoint batch_items (items : list (str * str)) (results : dict json)
         (w : world) : dict json * world :=
  match items with
  | [] => (results, w)
  | (file_path, content) :: rest =>
      let (analysis_result, w') :=
        analyze_content content file_path
                        (JStr (last (split "/" file_path) [])) w in
      batch_items rest (dict_set results file_path analysis_result) w'
  end.

Definition batch_analyze_content (content_map : dict str) (w : world)
  : dict json * world :=
  batch_items content_map [] w.

End Client.

Arguments World {backend} _ _.
Arguments w_backend {backend} _.
Arguments w_calls {backend} _.
Arguments analyze_content {backend} _ _ _ _ _ _.
Arguments batch_items {backend} _ _ _ _ _.
Arguments batch_analyze_content {backend} _ _ _ _.

End GeminiClient.

Import GeminiClient.

(* ================================================================= *)
(** ** [processors/notebook_parser.py]

    A loaded notebook is the decoded JSON value; the parser reads it
    through attribute access, [get], [in], [len] and iteration, each
    of which fails on a value of the wrong kind. *)

Module NotebookParser.

Definition is_str (v : json) (s : string) : bool :=
  match v with
  | JStr t => str_eqb t (lit s)
  | _ => false
  end.

(** [node.name] on a notebook node. *)
Definition getattr (v : json) (name : string) : result json :=
  match v with
  | JObj d =>
      match dict_get d (lit name) with
      | Some x => Ret x
      | None => Raise AttributeError
      end
  | _ => Raise AttributeError
  end.

Definition hasattr (v : json) (name : string) : bool :=
  match getattr v name with
  | Ret _ => true
  | Raise _ => false
  end.

(** [v.get(key, default)]. *)
Definition get (v : json) (key : string) (default : json) : result json :=
  match v with
  | JObj d =>
      Ret match dict_get d (lit key) with
          | Some x => x
          | None => default
          end
  | _ => Raise AttributeError
  end.

(** [key in v]. *)
Definition has_key (key : string) (v : json) : result bool :=
  match v with
  | JObj d => Ret (dict_has d (lit key))
  | JArr items => Ret (existsb (fun x => is_str x key) items)
  | JStr s => Ret (contains (lit key) s)
  | _ => Raise TypeError
  end.

(** [v[key]]. *)
Definition getitem (v : json) (key : string) : result json :=
  match v with
  | JObj d =>
      match dict_get d (lit key) with
      | Some x => Ret x
      | None => Raise KeyError
      end
  | _ => Raise TypeError
  end.

(** The values a [for] loop over [v] goes through. *)
Definition iterate (v : json) : result (list json) :=
  match v with
  | JArr items => Ret items
  | JObj d => Ret (map (fun kv => JStr (fst kv)) d)
  | JStr s => Ret (map (fun c => JStr [c]) s)
  | _ => Raise TypeError
  end.

(** [len(v)]. *)
Definition len (v : json) : result nat :=
  match v with
  | JArr items => Ret (length items)
  | JObj d => Ret (length d)
  | JStr s => Ret (length s)
  | _ => Raise TypeError
  end.

(** The receiver of a string method. *)
Definition as_str (v : json) : result str :=
  match v with
  | JStr s => Ret s
  | _ => Raise AttributeError
  end.

Fixpoint for_each {A S} (f : S -> A -> result S) (l : list A) (st : S)
  : result S :=
  match l with
  | [] => Ret st
  | x :: rest => st' <- f st x;; for_each f rest st'
  end.

(** [nbformat.from_dict] (third party): turns the dictionaries of
    the value into notebook nodes and, by its documentation, does
    not check that they make a valid notebook. *)
Definition from_dict (v : json) : result json := Ret v.

(** [None] is [JNull]. *)
Definition load_notebook (content : str) : result json :=
  match (notebook_dict <- json_loads content;; from_dict notebook_dict) with
  | Ret notebook => Ret notebook
  | Raise JSONDecodeError => Ret JNull
  | Raise ValidationError => Ret JNull
  | Raise e => Raise e
  end.

Definition copy_field (nb_meta : json) (metadata : dict json)
           (field : string) : result (dict json) :=
  present <- has_key field nb_meta;;
  if present then
    v <- getitem nb_meta field;; Ret (dict_set metadata (lit field) v)
  else Ret metadata.

Definition extract_metadata (notebook : json) : result (dict json) :=
  let metadata := [] in
  if hasattr notebook "metadata" then
    nb_meta <- getattr notebook "metadata";;
    if truthy nb_meta then
      metadata <- for_each (copy_field nb_meta)
                    ["title"; "authors"; "description"; "keywords";
                     "language"]%string metadata;;
      has_kernel <- has_key "kernelspec" nb_meta;;
      if has_kernel then
        kernel <- getitem nb_meta "kernelspec";;
        name <- get kernel "name" (JStr (lit "unknown"));;
        let metadata := dict_set metadata (lit "kernel_name") name in
        display <- get kernel "display_name" (JStr (lit "unknown"));;
        let metadata :=
          dict_set metadata (lit "kernel_display_name") display in
        language <- get kernel "language" (JStr (lit "unknown"));;
        Ret (dict_set metadata (lit "language") language)
      else Ret metadata
    else Ret metadata
  else Ret metadata.

Record cell_info : Type := CellInfo {
  ci_index : nat;
  ci_source : json;
  ci_metadata : json;
  ci_execution_count : option json;
  ci_outputs : option json
}.

Record cells_by_type : Type := Cells {
  markdown_cells : list cell_info;
  code_cells : list cell_info;
  raw_cells : list cell_info
}.

Definition cells_step (cells : cells_by_type) (ic : nat * json)
  : result cells_by_type :=
  let (i, cell) := ic in
  source <- get cell "source" (JStr []);;
  meta <- get cell "metadata" (JObj []);;
  cell_type <- getattr cell "cell_type";;
  if is_str cell_type "code" then
    execution_count <- get cell "execution_count" JNull;;
    outputs <- get cell "outputs" (JArr []);;
    Ret (Cells (markdown_cells cells)
               (code_cells cells
                  ++ [CellInfo i source meta (Some execution_count)
                               (Some outputs)])
               (raw_cells cells))
  else if is_str cell_type "markdown" then
    Ret (Cells (markdown_cells cells ++ [CellInfo i source meta None None])
               (code_cells cells) (raw_cells cells))
  else if is_str cell_type "raw" then
    Ret (Cells (markdown_cells cells) (code_cells cells)
               (raw_cells cells ++ [CellInfo i source meta None None]))
  else Ret cells.

Definition extract_cells_by_type (notebook : json) : result cells_by_type :=
  cells <- getattr notebook "cells";;
  items <- iterate cells;;
  for_each cells_step (enumerate items) (Cells [] [] []).

Definition _extract_imports (code : str) : list str :=
  filter (fun line => startswith (lit "import ") line
                      || startswith (lit "from ") line)
         (map strip (split nl code)).

(** [term in text]. *)
Definition occurs (term : string) (text : str) : bool :=
  contains (lit term) text.

Definition any_in (terms : list string) (text : str) : bool :=
  existsb (fun term => occurs term text) terms.

Definition _analyze_code_patterns (code : str) : list (str * bool) :=
  [(lit "matplotlib", occurs "matplotlib" code || occurs "plt." code);
   (lit "pandas", occurs "pandas" code || occurs "pd." code);
   (lit "numpy", occurs "numpy" code || occurs "np." code);
   (lit "scipy", occurs "scipy" code);
   (lit "sklearn", occurs "sklearn" code);
   (lit "tensorflow", occurs "tensorflow" code || occurs "tf." code);
   (lit "pytorch", occurs "torch" code);
   (lit "root_analysis", occurs "ROOT" code || occurs "uproot" code);
   (lit "statistical_analysis",
    any_in ["histogram"; "fit"; "chi2"; "p-value"; "distribution"]%string
           (lower code));
   (lit "file_io",
    any_in ["open("; "read("; "write("; "with open"; "json."; "csv"]%string
           code);
   (lit "loops", any_in ["for "; "while "]%string code);
   (lit "functions", occurs "def " code);
   (lit "classes", occurs "class " code)].

Record nb_code_block : Type := NbCodeBlock {
  cb_cell_index : nat;
  cb_source : str;
  cb_execution_count : json;
  cb_has_output : bool;
  cb_imports : list str;
  cb_patterns : list (str * bool);
  cb_lines : nat
}.

Definition code_blocks_step (code_blocks : list nb_code_block)
           (ic : nat * json) : result (list nb_code_block) :=
  let (i, cell) := ic in
  cell_type <- getattr cell "cell_type";;
  if is_str cell_type "code" then
    source <- get cell "source" (JStr []);;
    source <- as_str source;;
    if is_nonempty (strip source) then
      let imports := _extract_imports source in
      let patterns := _analyze_code_patterns source in
      execution_count <- get cell "execution_count" JNull;;
      outputs <- get cell "outputs" (JArr []);;
      Ret (code_blocks
             ++ [NbCodeBlock i source execution_count (truthy outputs)
                             imports patterns
                             (length (split nl source))])
    else Ret code_blocks
  else Ret code_blocks.

Definition extract_code_blocks (notebook : json)
  : result (list nb_code_block) :=
  cells <- getattr notebook "cells";;
  items <- iterate cells;;
  for_each code_blocks_step (enumerate items) [].

Definition markdown_step (markdown_parts : list str) (cell : json)
  : result (list str) :=
  cell_type <- getattr cell "cell_type";;
  if is_str cell_type "markdown" then
    source <- get cell "source" (JStr []);;
    source <- as_str source;;
    let source := strip source in
    if is_nonempty source then Ret (markdown_parts ++ [source; []])
    else Ret markdown_parts
  else Ret markdown_parts.

Definition extract_markdown_content (notebook : json) : result str :=
  cells <- getattr notebook "cells";;
  items <- iterate cells;;
  markdown_parts <- for_each markdown_step items [];;
  Ret (join [nl] markdown_parts).

Definition _estimate_code_complexity (code : str) : str :=
  let lines :=
    filter (fun l => is_nonempty l) (map strip (split nl code)) in
  if length lines =? 0 then lit "empty"
  else if length lines <=? 3 then lit "simple"
  else if length lines <=? 10 then
    if any_in ["def "; "class "; "for "; "while "; "if "]%string code
    then lit "intermediate" else lit "simple"
  else lit "complex".

(** [code_cells / markdown_cells], or the initial [0]. *)
Inductive ratio : Type :=
| Zero
| Quotient (code_cells markdown_cells : nat).

Record progression : Type := Progression {
  total_cells : nat;
  code_to_markdown_ratio : ratio;
  has_introduction : bool;
  has_exercises : bool;
  has_conclusions : bool;
  complexity_progression : list (nat * str)
}.

Definition count_type (kind : string) (n : nat) (cell : json) : result nat :=
  cell_type <- getattr cell "cell_type";;
  Ret (if is_str cell_type kind then S n else n).

Definition complexity_step (acc : list (nat * str)) (ic : nat * json)
  : result (list (nat * str)) :=
  let (i, cell) := ic in
  cell_type <- getattr cell "cell_type";;
  if is_str cell_type "code" then
    source <- get cell "source" (JStr []);;
    source <- as_str source;;
    Ret (acc ++ [(i, _estimate_code_complexity source)])
  else Ret acc.

Definition analyze_learning_progression (notebook : json)
  : result progression :=
  cells <- getattr notebook "cells";;
  total <- len cells;;
  items <- iterate cells;;
  code_count <- for_each (count_type "code") items 0;;
  markdown_count <- for_each (count_type "markdown") items 0;;
  let ratio := if 0 <? markdown_count
               then Quotient code_count markdown_count else Zero in
  markdown <- extract_markdown_content notebook;;
  let all_text := lower markdown in
  complexity <- for_each complexity_step (enumerate items) [];;
  Ret (Progression total ratio
         (any_in ["introduction"; "overview"; "getting started"]%string
                 all_text)
         (any_in ["exercise"; "challenge"; "try"; "practice"]%string
                 all_text)
         (any_in ["conclusion"; "summary"; "wrap up"]%string all_text)
         complexity).

Inductive output_detail : Type :=
| DisplayData (has_plot has_html : bool)
| Stream (stream_name : json) (text_length : nat)
| ExecuteResult (has_data : bool)
| OtherOutput.

Record output_info : Type := OutputInfo {
  o_cell_index : nat;
  o_output_index : nat;
  o_output_type : json;
  o_detail : output_detail
}.

Definition output_step (i : nat) (outputs : list output_info)
           (jo : nat * json) : result (list output_info) :=
  let (j, output) := jo in
  output_type <- get output "output_type" (JStr (lit "unknown"));;
  detail <-
    (if is_str output_type "display_data" then
       data <- get output "data" (JObj []);;
       has_plot <- has_key "image/png" data;;
       data <- get output "data" (JObj []);;
       has_html <- has_key "text/html" data;;
       Ret (DisplayData has_plot has_html)
     else if is_str output_type "stream" then
       name <- get output "name" (JStr (lit "unknown"));;
       text <- get output "text" (JArr []);;
       n <- len text;;
       Ret (Stream name n)
     else if is_str output_type "execute_result" then
       data <- get output "data" JNull;;
       Ret (ExecuteResult (truthy data))
     else Ret OtherOutput);;
  Ret (outputs ++ [OutputInfo i j output_type detail]).

Definition outputs_step (outputs : list output_info) (ic : nat * json)
  : result (list output_info) :=
  let (i, cell) := ic in
  cell_type <- getattr cell "cell_type";;
  if is_str cell_type "code" then
    present <- get cell "outputs" JNull;;
    if truthy present then
      cell_outputs <- getattr cell "outputs";;
      items <- iterate cell_outputs;;
      for_each (output_step i) (enumerate items) outputs
    else Ret outputs
  else Ret outputs.

Definition extract_outputs (notebook : json) : result (list output_info) :=
  cells <- getattr notebook "cells";;
  items <- iterate cells;;
  for_each outputs_step (enumerate items) [].

Definition _determine_notebook_type (p : progression)
           (code_blocks : list nb_code_block) : str :=
  if has_exercises p then lit "tutorial_with_exercises"
  else if has_introduction p && has_conclusions p
  then lit "complete_tutorial"
  else if 5 <? length code_blocks then lit "code_heavy_tutorial"
  else if has_introduction p then lit "introduction"
  else lit "notebook".

Record nb_statistics : Type := NbStatistics {
  ns_total_cells : nat;
  ns_code_cells : nat;
  ns_markdown_cells : nat;
  ns_raw_cells : nat;
  ns_total_code_lines : nat;
  ns_unique_libraries : nat;
  ns_cells_with_output : nat
}.

Record nb_analysis : Type := NbAnalysis {
  na_file_path : str;
  na_metadata : dict json;
  na_statistics : nb_statistics;
  na_cells : cells_by_type;
  na_code_blocks : list nb_code_block;
  na_learning_progression : progression;
  na_outputs : list output_info;
  na_libraries : list str;
  na_content_type : str
}.

(** What [analyze_notebook_structure] returns: the marker
    [{'error': ...}] or the analysis. *)
Inductive nb_structure : Type :=
| Failed (error : str)
| Analysed (a : nb_analysis).

(** [list(set(l))]; Python fixes no order for it, the model keeps
    the order of first occurrence. *)
Definition unique (l : list str) : list str :=
  nodup (list_eq_dec ascii_dec) l.

Definition analyze_notebook_structure (content file_path : str)
  : result nb_structure :=
  notebook <- load_notebook content;;
  if negb (truthy notebook) then
    Ret (Failed (lit "Failed to load notebook"))
  else
    metadata <- extract_metadata notebook;;
    cells <- extract_cells_by_type notebook;;
    code_blocks <- extract_code_blocks notebook;;
    learning_progression <- analyze_learning_progression notebook;;
    outputs <- extract_outputs notebook;;
    let total_code_lines := list_sum (map cb_lines code_blocks) in
    let all_imports := concat (map cb_imports code_blocks) in
    let unique_libraries := unique all_imports in
    all_cells <- getattr notebook "cells";;
    total <- len all_cells;;
    Ret (Analysed
           (NbAnalysis file_path metadata
              (NbStatistics total (length (code_cells cells))
                 (length (markdown_cells cells))
                 (length (raw_cells cells)) total_code_lines
                 (length unique_libraries) (length outputs))
              cells code_blocks learning_progression outputs
              unique_libraries
              (_determine_notebook_type learning_progression code_blocks))).

(** Does the loop over the cells take [cell] as a code cell? *)
Definition is_code_cell (cell : json) : bool :=
  match getattr cell "cell_type" with
  | Ret cell_type => is_str cell_type "code"
  | Raise _ => false
  end.

(** A cell the parser can read: an object with a [cell_type] whose
    source, when the cell is a code or a Markdown cell, is absent
    or one string. *)
Definition readable_cell (cell : json) : Prop :=
  exists d t,
    cell = JObj d /\ dict_get d (lit "cell_type") = Some t /\
    (is_str t "code" = true \/ is_str t "markdown" = true ->
     dict_get d (lit "source") = None \/
     exists s, dict_get d (lit "source") = Some (JStr s)).

Definition default_summary : str :=
  lit "Jupyter notebook with code and analysis".

Definition get_notebook_summary (notebook : json) : result str :=
  markdown_content <- extract_markdown_content notebook;;
  let sentences := firstn 3 (split "." markdown_content) in
  let summary := strip (join (lit ". ") sentences) in
  let summary := if 200 <? length summary
                 then firstn 200 summary ++ lit "..."
                 else summary in
  Ret (if is_nonempty summary then summary else default_summary).

End NotebookParser.

(* ================================================================= *)
(** ** [analyzer.py] *)

Module Analyzer.

(** [s.rfind(c)]. *)
Definition rfind (c : ascii) (s : str) : option nat :=
  match index_of [c] (rev s) with
  | Some j => Some (length s - 1 - j)
  | None => None
  end.

(** [Path(file_path).name] for a POSIX path: the last component,
    empty components and [.] left out. *)
Definition path_name (file_path : str) : str :=
  last (filter (fun part => negb (str_eqb part [] || str_eqb part (lit ".")))
               (split "/" file_path))
       [].

(** [Path(file_path).suffix]. *)
Definition suffix (file_path : str) : str :=
  let name := path_name file_path in
  match rfind "." name with
  | Some i => if (0 <? i) && (i <? length name - 1) then skipn i name else []
  | None => []
  end.

(** [str(n)]. *)
Definition str_of_nat (n : nat) : str :=
  lit (NilEmpty.string_of_uint (Nat.to_uint n)).

Inductive structure : Type :=
| NotebookStructure (s : NotebookParser.nb_structure)
| MarkdownStructure (a : MarkdownParser.analysis)
| TextStructure (file_path : str) (lines words : nat).

(** [structure.get('metadata', {})]. *)
Definition structure_metadata (s : structure) : dict json :=
  match s with
  | NotebookStructure (NotebookParser.Analysed a) =>
      NotebookParser.na_metadata a
  | NotebookStructure (NotebookParser.Failed _) => []
  | MarkdownStructure a => map (fun kv => (fst kv, JStr (snd kv)))
                               (MarkdownParser.a_metadata a)
  | TextStructure _ _ _ => []
  end.

(** [structure.get('content_type', 'unknown')]. *)
Definition structure_content_type (s : structure) : str :=
  match s with
  | NotebookStructure (NotebookParser.Analysed a) =>
      NotebookParser.na_content_type a
  | NotebookStructure (NotebookParser.Failed _) => lit "unknown"
  | MarkdownStructure a => MarkdownParser.a_content_type a
  | TextStructure _ _ _ => lit "text"
  end.

Record processed : Type := Processed {
  p_structure : structure;
  p_processed_content : str;
  p_metadata : dict json;
  p_content_type : str
}.

(** The comment added to the payload for one code cell. *)
Definition code_cell_comment (block : NotebookParser.nb_code_block) : str :=
  [nl] ++ lit "<!-- Code Cell "
  ++ str_of_nat (NotebookParser.cb_cell_index block) ++ lit ": "
  ++ lit "Lines: " ++ str_of_nat (NotebookParser.cb_lines block) ++ lit ", "
  ++ lit "Imports: "
  ++ join (lit ", ") (firstn 3 (NotebookParser.cb_imports block))
  ++ lit " -->" ++ [nl].

Definition _process_single_content (file_path content : str)
  : result processed :=
  let file_ext := lower (suffix file_path) in
  sp <-
    (if str_eqb file_ext (lit ".ipynb") then
       structure <- NotebookParser.analyze_notebook_structure
                      content file_path;;
       notebook <- NotebookParser.load_notebook content;;
       if truthy notebook then
         processed_content <-
           NotebookParser.extract_markdown_content notebook;;
         code_blocks <- NotebookParser.extract_code_blocks notebook;;
         if is_nonempty code_blocks then
           Ret (NotebookStructure structure,
                processed_content
                  ++ [nl; nl] ++ lit "<!-- Code Analysis -->" ++ [nl]
                  ++ concat (map code_cell_comment code_blocks))
         else Ret (NotebookStructure structure, processed_content)
       else Ret (NotebookStructure structure, content)
     else if str_eqb file_ext (lit ".md") || str_eqb file_ext (lit ".rst")
     then
       Ret (MarkdownStructure
              (MarkdownParser.analyze_content_structure content file_path),
            content)
     else
       Ret (TextStructure file_path (length (split nl content))
                          (count_words content),
            content));;
  let (structure, processed_content) := sp in
  Ret (Processed structure processed_content
                 (structure_metadata structure)
                 (structure_content_type structure)).

(** An entry of the processed map: the fallback
    [{'error': ..., 'processed_content': content}] or the result of
    [_process_single_content]. *)
Inductive entry : Type :=
| ErrorEntry (error : exn) (processed_content : str)
| Entry (p : processed).

Definition payload (content_data : entry) : str :=
  match content_data with
  | ErrorEntry _ processed_content => processed_content
  | Entry p => p_processed_content p
  end.

(** Does the loop of [_analyze_with_ai] send the entry to the
    backend?  It does unless the entry is the fallback left by a
    processing error or its payload, once trimmed, has fewer than
    100 characters. *)
Definition needs_request (content_data : entry) : bool :=
  match content_data with
  | ErrorEntry _ _ => false
  | Entry p => negb (length (strip (p_processed_content p)) <? 100)
  end.

(** The body of the loop of [_process_all_content]: the entry
    stored for one file. *)
Definition process_entry (file_path content : str) : entry :=
  match _process_single_content file_path content with
  | Ret p => Entry p
  | Raise e => ErrorEntry e content
  end.

Definition process_item (processed : dict entry) (item : str * str)
  : dict entry :=
  let (file_path, content) := item in
  dict_set processed file_path (process_entry file_path content).

Definition _process_all_content (content_map : dict str) : dict entry :=
  fold_left process_item content_map [].

Section Orchestrator.

Variable backend : Type.
Variable generate_content :
  backend -> str -> result (option str) * backend.
Variable get_primary_analysis_prompt : str -> json -> str -> str.

(** The body of the loop of [_analyze_with_ai]: the entry
    recorded for one file.  The client reports every failure as
    [None], so the handler around the call is never entered. *)
Definition analyze_item (file_path : str) (content_data : entry)
           (w : world backend) : json * world backend :=
  match content_data with
  | ErrorEntry _ _ => (JNull, w)
  | Entry p =>
      let processed_text := p_processed_content p in
      let title := match dict_get (p_metadata p) (lit "title") with
                   | Some t => t
                   | None => JStr file_path
                   end in
      if length (strip processed_text) <? 100 then (JNull, w)
      else analyze_content generate_content get_primary_analysis_prompt
                           processed_text file_path title w
  end.

Fixpoint analyze_items (items : list (str * entry))
         (analysis_results : dict json) (w : world backend)
  : dict json * world backend :=
  match items with
  | [] => (analysis_results, w)
  | (file_path, content_data) :: rest =>
      let (result, w') := analyze_item file_path content_data w in
      analyze_items rest (dict_set analysis_results file_path result) w'
  end.

Definition _analyze_with_ai (processed_content : dict entry)
           (w : world backend) : dict json * world backend :=
  analyze_items processed_content [] w.

(** Steps 2 and 3 of [analyze_repository]. *)
Definition analyze_batch (content_map : dict str) (w : world backend)
  : dict json * world backend :=
  _analyze_with_ai (_process_all_content content_map) w.

End Orchestrator.

Arguments analyze_item {backend} _ _ _ _ _.
Arguments analyze_items {backend} _ _ _ _ _.
Arguments _analyze_with_ai {backend} _ _ _ _.
Arguments analyze_batch {backend} _ _ _ _.

(** What [analyze_single_file] returns: [{'error': ...}] when the
    file has no content, the record with status [completed], or the
    record with status [failed]. *)
Inductive single_result : Type :=
| NoContent (error : str)
| Completed (file_path : str) (content_structure : processed)
            (ai_analysis : json)
| SingleFailed (file_path : str) (error : exn).

Section SingleFile.

Variable backend : Type.
Variable generate_content :
  backend -> str -> result (option str) * backend.
Variable get_primary_analysis_prompt : str -> json -> str -> str.

(** The two requests to the hosting service
    ([github_client/client.py]). *)
Variable repository : Type.
Variable get_repository : str -> result repository.
Variable get_file_content : repository -> str -> result (option str).

Definition analyze_single_file (repo_url file_path : str)
           (w : world backend) : single_result * world backend :=
  match (repo <- get_repository repo_url;;
         get_file_content repo file_path) with
  | Raise e => (SingleFailed file_path e, w)
  | Ret (Some ((_ :: _) as content)) =>
      match _process_single_content file_path content with
      | Raise e => (SingleFailed file_path e, w)
      | Ret processed =>
          let title := match dict_get (p_metadata processed) (lit "title")
                       with
                       | Some t => t
                       | None => JStr file_path
                       end in
          let (ai_analysis, w') :=
            analyze_content generate_content get_primary_analysis_prompt
                            (p_processed_content processed) file_path
                            title w in
          (Completed file_path processed ai_analysis, w')
      end
  | Ret _ =>
      (NoContent (lit "Could not retrieve content for " ++ file_path), w)
  end.

End SingleFile.

Arguments analyze_single_file {backend} _ _ {repository} _ _ _ _ _.

(** A dictionary of counters.  Its keys are values of any hashable
    kind. *)
Definition histogram : Type := list (json * nat).

Definition hashable (v : json) : bool :=
  match v with
  | JArr _ | JObj _ => false
  | _ => true
  end.

Definition counts (h : histogram) : nat := list_sum (map snd h).

Record summary : Type := Summary {
  total_files : json;
  total_suggestions : nat;
  suggestion_types : histogram;
  priority_distribution : histogram;
  files_with_suggestions : nat;
  github_issues_created : nat;
  analysis_date : json
}.

(** What [get_analysis_summary] returns: the marker
    [{'error': 'Analysis not completed'}] or the summary. *)
Inductive summary_result : Type :=
| NotCompleted
| Summarised (s : summary).

(** [d.items()] and [d.values()]. *)
Definition items (v : json) : result (list (str * json)) :=
  match v with
  | JObj d => Ret d
  | _ => Raise AttributeError
  end.

Definition values (v : json) : result (list json) :=
  match v with
  | JObj d => Ret (map snd d)
  | _ => Raise AttributeError
  end.

Section Summary.

(** Equality of two dictionary keys, as the interpreter decides
    it. *)
Variable same_key : json -> json -> bool.

(** [h.get(k, 0)]. *)
Fixpoint hist_get (h : histogram) (k : json) : nat :=
  match h with
  | [] => 0
  | (k', n) :: t => if same_key k' k then n else hist_get t k
  end.

(** [h[k] = n]. *)
Fixpoint hist_set (h : histogram) (k : json) (n : nat) : histogram :=
  match h with
  | [] => [(k, n)]
  | (k', n') :: t =>
      if same_key k' k then (k', n) :: t else (k', n') :: hist_set t k n
  end.

(** [h[k] = h.get(k, 0) + 1] for the value of [field] in the
    suggestion. *)
Definition tally (field default : string) (h : histogram)
           (suggestion : json) : result histogram :=
  k <- NotebookParser.get suggestion field (JStr (lit default));;
  if hashable k then Ret (hist_set h k (hist_get h k + 1))
  else Raise TypeError.

Definition summary_step (acc : histogram * list json)
           (item : str * json) : result (histogram * list json) :=
  let (suggestion_types, all_suggestions) := acc in
  let (file_path, analysis) := item in
  present <- (if truthy analysis
              then NotebookParser.has_key "suggestions" analysis
              else Ret false);;
  if present then
    suggestions <- NotebookParser.getitem analysis "suggestions";;
    suggestions <- NotebookParser.iterate suggestions;;
    let all_suggestions := all_suggestions ++ suggestions in
    suggestion_types <-
      NotebookParser.for_each (tally "type" "unknown") suggestions
                              suggestion_types;;
    Ret (suggestion_types, all_suggestions)
  else Ret acc.

Definition count_with_suggestions (n : nat) (r : json) : result nat :=
  if truthy r then
    suggestions <- NotebookParser.get r "suggestions" JNull;;
    Ret (if truthy suggestions then S n else n)
  else Ret n.

Definition get_analysis_summary (analysis_results : json)
  : result summary_result :=
  status <- NotebookParser.get analysis_results "status" JNull;;
  if negb (NotebookParser.is_str status "completed") then Ret NotCompleted
  else
    ai_results <-
      NotebookParser.get analysis_results "ai_analysis" (JObj []);;
    entries <- items ai_results;;
    acc <- NotebookParser.for_each summary_step entries ([], []);;
    let (suggestion_types, all_suggestions) := acc in
    priority_counts <-
      NotebookParser.for_each (tally "priority" "medium")
                              all_suggestions [];;
    files_analyzed <-
      NotebookParser.get analysis_results "files_analyzed" (JInt 0);;
    results <- values ai_results;;
    with_suggestions <-
      NotebookParser.for_each count_with_suggestions results 0;;
    issues <-
      NotebookParser.get analysis_results "github_issues" (JObj []);;
    issues_created <- NotebookParser.len issues;;
    date <- NotebookParser.get analysis_results "analysis_date" JNull;;
    Ret (Summarised
           (Summary files_analyzed (length all_suggestions)
                    suggestion_types priority_counts with_suggestions
                    issues_created date)).

End Summary.

End Analyzer.

Import Analyzer.

(* ================================================================= *)
(** ** Sample documents *)

Module Samples.

(** Headers [# A], [## B], [## C], [# D] on lines 1, 3, 6 and 9. *)
Definition doc_abcd : str :=
  join [nl] (map lit ["# A"; "text"; "## B"; "text"; "text"; "## C";
                      "text"; "text"; "# D"]%string).

(** The lines of [doc_abcd] that belong to the section of [# A]. *)
Definition doc_abcd_a : str :=
  join [nl] (map lit ["# A"; "text"; "## B"; "text"; "text"; "## C";
                      "text"; "text"]%string).

(** [# Intro\n\nSome text.\n\n## Exercise\n\nDo X.\n\n## Solution\n\nAnswer.] *)
Definition doc_tutorial : str :=
  join [nl] (map lit ["# Intro"; ""; "Some text."; "";
                      "## Exercise"; ""; "Do X."; "";
                      "## Solution"; ""; "Answer."]%string).

(** A hash followed by two blanks. *)
Definition doc_blank_header : str := lit "#  ".

(** An indented line, then a fenced block whose second line looks
    like a header. *)
Definition doc_fenced_header : str :=
  join [nl] (map lit ["    indented"; "## Setup"; "```python";
                      "x = 1"; "# install"; "```"; "done"]%string).

(** A line with an inline link and a reference link, and a line
    with a bare URL. *)
Definition doc_links : str :=
  join [nl] (map lit ["See [docs](guide.md) and [api][ref]."%string;
                      "Visit https://hsf.org/t."%string]).

(** Two front-matter lines, and a text that carries them between
    two [---] lines. *)
Definition front_sample : str :=
  join [nl] (map lit ["title: 'Intro'"; "type: tutorial"]%string).

Definition doc_front_matter : str :=
  lit "---" ++ [nl] ++ front_sample ++ [nl] ++ lit "---" ++ [nl]
      ++ lit "# Intro".

(** The payload [{"suggestions":[]}]. *)
Definition empty_suggestions : str :=
  lit "{" ++ [dquote] ++ lit "suggestions" ++ [dquote] ++ lit ":[]}".

(** The payload between a fence labelled [structured] and a closing
    fence. *)
Definition response_structured : str :=
  join [nl] [lit "```structured"; empty_suggestions; lit "```"].

(** The same payload under the label [json]. *)
Definition response_json : str :=
  join [nl] [lit "```json"; empty_suggestions; lit "```"].

Definition response_prose : str := lit "not json at all".

(** [{"a": 1}]: valid JSON, no notebook. *)
Definition not_a_notebook : str :=
  lit "{" ++ [dquote] ++ lit "a" ++ [dquote] ++ lit ": 1}".

(** [{"cells": []}]: valid JSON without the fields a notebook must
    have ([metadata], [nbformat], [nbformat_minor]). *)
Definition cells_only : str :=
  lit "{" ++ [dquote] ++ lit "cells" ++ [dquote] ++ lit ": []}".

Definition quoted (s : string) : str := [dquote] ++ lit s ++ [dquote].

(** A notebook of a Markdown cell and a code cell, each with its
    source as one string:
    [{"cells": [{"cell_type": "markdown", "source": "# Intro"},
                {"cell_type": "code", "source": "import os\nx = 1"}]}]. *)
Definition nb_small : str :=
  lit "{" ++ quoted "cells" ++ lit ": [{"
      ++ quoted "cell_type" ++ lit ": " ++ quoted "markdown" ++ lit ", "
      ++ quoted "source" ++ lit ": " ++ quoted "# Intro" ++ lit "}, {"
      ++ quoted "cell_type" ++ lit ": " ++ quoted "code" ++ lit ", "
      ++ quoted "source" ++ lit ": " ++ quoted "import os\nx = 1"
      ++ lit "}]}".

(** A notebook whose code cell has its source as a list of lines,
    the form notebook files usually have:
    [{"cells": [{"cell_type": "code", "source": ["x = 1"]}]}]. *)
Definition nb_list_source : str :=
  lit "{" ++ quoted "cells" ++ lit ": [{"
      ++ quoted "cell_type" ++ lit ": " ++ quoted "code" ++ lit ", "
      ++ quoted "source" ++ lit ": [" ++ quoted "x = 1" ++ lit "]}]}".

(** A Markdown text of 120 characters and one of 50. *)
Definition long_text : str := lit "# Title" ++ [nl] ++ repeat "a"%char 112.
Definition short_text : str := lit "# Title" ++ [nl] ++ repeat "a"%char 42.

(** A backend that is down, and one that always answers with the
    empty suggestion list. *)
Definition backend_down (b : unit) (prompt : str)
  : result (option str) * unit :=
  (Raise (OtherError (lit "unavailable")), b).

Definition backend_ok (b : unit) (prompt : str)
  : result (option str) * unit :=
  (Ret (Some empty_suggestions), b).

(** Key equality on strings only, and the results of a completed
    run with two suggestions for one file:
    [{"status": "completed", "ai_analysis": {"intro.md":
      {"suggestions": [{"type": "fix", "priority": "high"},
                       {"type": "fix"}]}}}]. *)
Definition string_keys (a b : json) : bool :=
  match a, b with
  | JStr x, JStr y => str_eqb x y
  | _, _ => false
  end.

Definition results_sample : json :=
  JObj [(lit "status", JStr (lit "completed"));
        (lit "ai_analysis",
         JObj [(lit "intro.md",
                JObj [(lit "suggestions",
                       JArr [JObj [(lit "type", JStr (lit "fix"));
                                   (lit "priority", JStr (lit "high"))];
                             JObj [(lit "type", JStr (lit "fix"))]])])])].

(** A hosting service with one repository that holds one short
    file. *)
Definition one_repo (repo_url : str) : result unit := Ret tt.

Definition one_file (repo : unit) (file_path : str) : result (option str) :=
  Ret (Some (lit "Hi.")).

(** A stand-in for the prompt template. *)
Definition prompt_of (content : str) (title : json) (file_path : str) : str :=
  lit "FILE: " ++ file_path ++ [nl] ++ lit "CONTENT:" ++ [nl] ++ content.

Definition world0 : world unit := World tt [].

(** Three files; the second is a notebook whose parsing raises. *)
Definition three_files : dict str :=
  [(lit "intro.md", long_text);
   (lit "broken.ipynb", not_a_notebook);
   (lit "setup.md", long_text)].

End Samples.

Import Samples.

(* ================================================================= *)
(** * Properties *)

#[local] Arguments Ascii.eqb : simpl never.

(** ** Strings *)

Section StringFacts.

Lemma eqb_nl_false (c : ascii) : c <> nl -> Ascii.eqb c nl = false.
Proof. intro H. now apply Ascii.eqb_neq. Qed.

Lemma lstrip_by_all (p : ascii -> bool) (s : str) :
  forallb p s = true -> lstrip_by p s = [].
Proof.
  induction s as [|c t IH]; simpl; auto.
  intro H. apply andb_true_iff in H as [Hc Ht]. now rewrite Hc, IH.
Qed.

Lemma lstrip_by_stop (p : ascii -> bool) (c : ascii) (t : str) :
  p c = false -> lstrip_by p (c :: t) = c :: t.
Proof. intro H. simpl. now rewrite H. Qed.

Lemma lstrip_by_app_all (p : ascii -> bool) (a b : str) :
  forallb p a = true -> lstrip_by p (a ++ b) = lstrip_by p b.
Proof.
  induction a as [|c t IH]; simpl; auto.
  intro H. apply andb_true_iff in H as [Hc Ht]. now rewrite Hc, IH.
Qed.

Lemma lstrip_by_idem (p : ascii -> bool) (s : str) :
  lstrip_by p (lstrip_by p s) = lstrip_by p s.
Proof.
  induction s as [|c t IH]; simpl; auto.
  destruct (p c) eqn:E; auto. simpl. now rewrite E.
Qed.

(** What is left of a stripped string never starts with a stripped
    character. *)
Lemma lstrip_by_head (p : ascii -> bool) (s : str) (c : ascii) (t : str) :
  lstrip_by p s = c :: t -> p c = false.
Proof.
  induction s as [|x u IH]; simpl; [discriminate|].
  destruct (p x) eqn:E; auto. intro H. now inversion H; subst.
Qed.

Lemma lstrip_by_suffix (p : ascii -> bool) (s : str) :
  exists a, s = a ++ lstrip_by p s /\ forallb p a = true.
Proof.
  induction s as [|c t [a [IH1 IH2]]]; simpl.
  - now exists [].
  - destruct (p c) eqn:E.
    + exists (c :: a). simpl. rewrite E. split; auto. now f_equal.
    + now exists [].
Qed.

Lemma rstrip_by_prefix (p : ascii -> bool) (s : str) :
  exists b, s = rstrip_by p s ++ b /\ forallb p b = true.
Proof.
  unfold rstrip_by.
  destruct (lstrip_by_suffix p (rev s)) as [a [H1 H2]].
  exists (rev a). split.
  - rewrite <- rev_app_distr, <- H1. now rewrite rev_involutive.
  - apply forallb_forall. intros x Hx. apply in_rev in Hx.
    now apply (proj1 (forallb_forall p a) H2).
Qed.

Lemma split_no_sep (sep : ascii) (s l : str) :
  In l (split sep s) -> ~ In sep l.
Proof.
  revert l. induction s as [|c t IH]; simpl; intros l H.
  - destruct H as [<-|[]]. auto.
  - destruct (Ascii.eqb c sep) eqn:E.
    + destruct H as [<-|H]; auto.
    + destruct (split sep t) as [|l0 ls] eqn:Es.
      * destruct H as [<-|[]]. intros [->|[]]. now rewrite Ascii.eqb_refl in E.
      * destruct H as [<-|H].
        -- intros [->|Hin]; [now rewrite Ascii.eqb_refl in E|].
           apply (IH l0); simpl; auto.
        -- apply IH. simpl. auto.
Qed.

Lemma enumerate_from_nth {A} (l : list A) (i j : nat) (x : A) :
  nth_error l j = Some x -> In (i + j, x) (enumerate_from i l).
Proof.
  revert i j. induction l as [|y t IH]; intros i j H.
  - destruct j; discriminate.
  - destruct j; simpl in *.
    + inversion H; subst. left. f_equal. lia.
    + right. replace (i + S j) with (S i + j) by lia. now apply IH.
Qed.

Lemma enumerate_from_in {A} (l : list A) (i n : nat) (x : A) :
  In (n, x) (enumerate_from i l) ->
  i <= n /\ nth_error l (n - i) = Some x.
Proof.
  revert i. induction l as [|y t IH]; simpl; intros i H; [easy|].
  destruct H as [H|H].
  - inversion H; subst. rewrite Nat.sub_diag. split; auto.
  - apply IH in H as [H1 H2]. split; [lia|].
    replace (n - i) with (S (n - S i)) by lia. exact H2.
Qed.

End StringFacts.

(** ** The matcher *)

Section MatcherFacts.

Context {R : Type}.

Lemma descend_ext (f g : nat -> option R) (lo cnt : nat) :
  (forall n, lo <= n < lo + cnt -> f n = g n) ->
  descend f lo cnt = descend g lo cnt.
Proof.
  induction cnt as [|m IH]; simpl; auto.
  intro H. rewrite H by lia. rewrite IH; auto. intros; apply H; lia.
Qed.

Lemma ascend_ext (f g : nat -> option R) (lo cnt : nat) :
  (forall n, lo <= n < lo + cnt -> f n = g n) ->
  ascend f lo cnt = ascend g lo cnt.
Proof.
  revert lo. induction cnt as [|m IH]; simpl; auto.
  intros lo H. rewrite H by lia. rewrite IH; auto. intros; apply H; lia.
Qed.

Lemma descend_shift (f : nat -> option R) (lo cnt : nat) :
  descend (fun n => f (S n)) lo cnt = descend f (S lo) cnt.
Proof. induction cnt as [|m IH]; simpl; auto. now rewrite IH. Qed.

Lemma ascend_shift (f : nat -> option R) (lo cnt : nat) :
  ascend (fun n => f (S n)) lo cnt = ascend f (S lo) cnt.
Proof.
  revert lo. induction cnt as [|m IH]; simpl; auto.
  intro lo. now rewrite IH.
Qed.

Lemma ascend_S (f : nat -> option R) (lo cnt : nat) :
  ascend f lo (S cnt) =
  match f lo with
  | Some r => Some r
  | None => ascend f (S lo) cnt
  end.
Proof. reflexivity. Qed.

Lemma descend_low (f : nat -> option R) (lo cnt : nat) :
  descend f lo (S cnt) =
  match descend f (S lo) cnt with
  | Some r => Some r
  | None => f lo
  end.
Proof.
  induction cnt as [|m IH].
  - simpl. rewrite Nat.add_0_r. now destruct (f lo).
  - change (descend f lo (S (S m)))
      with (match f (lo + S m) with
            | Some r => Some r
            | None => descend f lo (S m)
            end).
    rewrite IH. simpl. replace (lo + S m) with (S (lo + m)) by lia.
    now destruct (f (S (lo + m))).
Qed.

Lemma descend_none (f : nat -> option R) (lo cnt : nat) :
  (forall n, lo <= n < lo + cnt -> f n = None) -> descend f lo cnt = None.
Proof.
  induction cnt as [|m IH]; simpl; auto.
  intro H. rewrite H by lia. apply IH. intros; apply H; lia.
Qed.

Lemma descend_cons (k : nat -> str -> option R) (pos : nat) (c : ascii)
      (t : str) (lo cnt : nat) :
  descend (fun n => k (pos + n) (skipn n (c :: t))) (S lo) cnt =
  descend (fun n => k (S pos + n) (skipn n t)) lo cnt.
Proof.
  rewrite <- (descend_shift (fun n => k (pos + n) (skipn n (c :: t)))).
  apply descend_ext. intros n _. cbn [skipn]. f_equal. lia.
Qed.

Lemma ascend_cons (k : nat -> str -> option R) (pos : nat) (c : ascii)
      (t : str) (lo cnt : nat) :
  ascend (fun n => k (pos + n) (skipn n (c :: t))) (S lo) cnt =
  ascend (fun n => k (S pos + n) (skipn n t)) lo cnt.
Proof.
  rewrite <- (ascend_shift (fun n => k (pos + n) (skipn n (c :: t)))).
  apply ascend_ext. intros n _. cbn [skipn]. f_equal. lia.
Qed.

Lemma cap_0 (hi : option nat) : cap hi 0 = 0.
Proof. destruct hi; simpl; lia. Qed.

(** A repetition tries every admissible length of the leading run:
    the longest first when greedy, the shortest first when lazy. *)
Lemma rep_greedy (p : ascii -> bool) (lo : nat) (hi : option nat)
      (pos : nat) (s : str) (k : nat -> str -> option R) :
  rep p true lo hi pos s k =
  descend (fun n => k (pos + n) (skipn n s)) lo
          (S (cap hi (run_len p s)) - lo).
Proof.
  revert lo hi pos. induction s as [|c t IH]; intros lo hi pos.
  - simpl. rewrite cap_0.
    destruct lo; simpl; auto. rewrite Nat.add_0_r. now destruct (k pos []).
  - cbn [rep run_len].
    assert (Hstop : (if lo =? 0 then k pos (c :: t) else None) =
                    descend (fun n => k (pos + n) (skipn n (c :: t))) lo
                            (1 - lo)).
    { destruct lo; simpl; auto. rewrite Nat.add_0_r.
      now destruct (k pos (c :: t)). }
    destruct (p c) eqn:Hc; cbn [andb]; [|now rewrite cap_0].
    destruct (allows_more hi) eqn:Hhi.
    + rewrite IH.
      assert (HN : cap hi (S (run_len p t))
                   = S (cap (option_map pred hi) (run_len p t))).
      { destruct hi as [[|h]|]; try discriminate; simpl; auto. }
      rewrite HN. set (N := cap (option_map pred hi) (run_len p t)).
      destruct lo as [|l]; cbn [pred Nat.eqb].
      * rewrite !Nat.sub_0_r, (descend_low _ 0 (S N)), descend_cons.
        rewrite Nat.add_0_r. reflexivity.
      * replace (S (S N) - S l) with (S N - l) by lia.
        rewrite descend_cons. now destruct (descend _ l (S N - l)).
    + destruct hi as [[|h]|]; try discriminate. exact Hstop.
Qed.

Lemma rep_lazy (p : ascii -> bool) (lo : nat) (hi : option nat)
      (pos : nat) (s : str) (k : nat -> str -> option R) :
  rep p false lo hi pos s k =
  ascend (fun n => k (pos + n) (skipn n s)) lo
         (S (cap hi (run_len p s)) - lo).
Proof.
  revert lo hi pos. induction s as [|c t IH]; intros lo hi pos.
  - simpl. rewrite cap_0.
    destruct lo; simpl; auto. rewrite Nat.add_0_r. now destruct (k pos []).
  - cbn [rep run_len].
    assert (Hstop : (if lo =? 0 then k pos (c :: t) else None) =
                    ascend (fun n => k (pos + n) (skipn n (c :: t))) lo
                           (1 - lo)).
    { destruct lo; simpl; auto. rewrite Nat.add_0_r.
      now destruct (k pos (c :: t)). }
    destruct (p c) eqn:Hc; cbn [andb]; [|now rewrite cap_0].
    destruct (allows_more hi) eqn:Hhi.
    + rewrite IH.
      assert (HN : cap hi (S (run_len p t))
                   = S (cap (option_map pred hi) (run_len p t))).
      { destruct hi as [[|h]|]; try discriminate; simpl; auto. }
      rewrite HN. set (N := cap (option_map pred hi) (run_len p t)).
      destruct lo as [|l]; cbn [pred Nat.eqb].
      * rewrite !Nat.sub_0_r.
        change (ascend (fun n => k (pos + n) (skipn n (c :: t))) 0 (S (S N)))
          with (match k (pos + 0) (c :: t) with
                | Some r => Some r
                | None => ascend (fun n => k (pos + n) (skipn n (c :: t)))
                                 1 (S N)
                end).
        now rewrite ascend_cons, Nat.add_0_r.
      * replace (S (S N) - S l) with (S N - l) by lia.
        now rewrite ascend_cons.
    + destruct hi as [[|h]|]; try discriminate. exact Hstop.
Qed.

End MatcherFacts.

(** ** Header lines *)

Section HeaderLines.

Lemma run_len_le (p : ascii -> bool) (s : str) : run_len p s <= length s.
Proof. induction s as [|c t IH]; simpl; [lia|]. destruct (p c); lia. Qed.

Lemma run_len_all (p : ascii -> bool) (s : str) :
  forallb p s = true -> run_len p s = length s.
Proof.
  induction s as [|c t IH]; simpl; auto.
  intro H. apply andb_true_iff in H as [-> Ht]. now rewrite IH.
Qed.

Lemma run_len_skipn (p : ascii -> bool) (s : str) :
  skipn (run_len p s) s = lstrip_by p s.
Proof.
  induction s as [|c t IH]; simpl; auto. now destruct (p c).
Qed.

Lemma run_len_firstn (p : ascii -> bool) (s : str) :
  forallb p (firstn (run_len p s) s) = true.
Proof.
  induction s as [|c t IH]; simpl; auto.
  destruct (p c) eqn:E; simpl; auto. now rewrite E.
Qed.

Lemma run_len_app (p : ascii -> bool) (a b : str) :
  forallb p a = true -> run_len p (a ++ b) = length a + run_len p b.
Proof.
  induction a as [|c t IH]; simpl; auto.
  intro H. apply andb_true_iff in H as [-> Ht]. now rewrite IH.
Qed.

Lemma run_len_stop (p : ascii -> bool) (s : str) (n : nat) :
  n < run_len p s -> exists c t, skipn n s = c :: t /\ p c = true.
Proof.
  revert n. induction s as [|c t IH]; simpl; intros n H; [lia|].
  destruct (p c) eqn:E; [|lia].
  destruct n; simpl; eauto. apply IH. lia.
Qed.

Lemma no_nl_dot (s : str) : ~ In nl s -> forallb dot s = true.
Proof.
  intro H. apply forallb_forall. intros c Hc. unfold dot.
  destruct (Ascii.eqb c nl) eqn:E; auto.
  apply Ascii.eqb_eq in E. subst. contradiction.
Qed.

Lemma no_nl_skipn (s : str) (n : nat) : ~ In nl s -> ~ In nl (skipn n s).
Proof.
  intros H Hin. apply H. rewrite <- (firstn_skipn n s).
  apply in_or_app. now right.
Qed.

(** [(.+)$] on the rest of a line takes all of it. *)
Lemma text_to_end (pos : nat) (rest : str) (gs : list (nat * str)) :
  ~ In nl rest ->
  run (Seq (Grp 2 (plus dot)) Eos) (MState pos rest gs) Some =
  match rest with
  | [] => None
  | _ :: _ => Some (MState (pos + length rest) [] ((2, rest) :: gs))
  end.
Proof.
  intro Hnl. cbn [run plus ms_pos ms_rest ms_groups].
  rewrite rep_greedy. cbn [cap].
  rewrite (run_len_all dot rest (no_nl_dot rest Hnl)).
  destruct rest as [|c t]; [reflexivity|].
  replace (S (length (c :: t)) - 1) with (S (length t)) by (simpl; lia).
  cbn [descend]. replace (1 + length t) with (length (c :: t)) by reflexivity.
  rewrite skipn_all. cbn [run ms_rest ms_pos ms_groups].
  replace (pos + length (c :: t) - pos) with (length (c :: t)) by lia.
  now rewrite firstn_all.
Qed.

(** [\s+(.+)$] on what follows the hashes: the blanks are skipped
    unless nothing would be left, in which case the last blank is
    given to the text. *)
Lemma blanks_then_text (pos : nat) (body : str) (gs : list (nat * str)) :
  ~ In nl body ->
  run (Seq (plus is_space) (Seq (Grp 2 (plus dot)) Eos))
      (MState pos body gs) Some =
  match run_len is_space body with
  | 0 => None
  | S w =>
      match skipn (S w) body with
      | (_ :: _) as rest =>
          Some (MState (pos + length body) [] ((2, rest) :: gs))
      | [] =>
          match w with
          | 0 => None
          | S _ => Some (MState (pos + length body) []
                                ((2, skipn w body) :: gs))
          end
      end
  end.
Proof.
  intro Hnl.
  change (run (Seq (plus is_space) (Seq (Grp 2 (plus dot)) Eos))
              (MState pos body gs) Some)
    with (rep is_space true 1 None pos body
            (fun pos' rest' =>
               run (Seq (Grp 2 (plus dot)) Eos) (MState pos' rest' gs) Some)).
  rewrite rep_greedy. cbn [cap].
  pose proof (run_len_le is_space body) as Hle.
  destruct (run_len is_space body) as [|w] eqn:Hw; [reflexivity|].
  replace (S (S w) - 1) with (S w) by lia. cbn [descend].
  rewrite text_to_end by now apply no_nl_skipn.
  replace (1 + w) with (S w) by lia.
  assert (Hlen : forall n, n <= length body ->
                   pos + n + length (skipn n body) = pos + length body).
  { intros n Hn. rewrite length_skipn. lia. }
  destruct (skipn (S w) body) as [|c t] eqn:Hs.
  - destruct w as [|w']; [reflexivity|].
    cbn [descend]. rewrite text_to_end by now apply no_nl_skipn.
    replace (1 + w') with (S w') by lia.
    destruct (skipn (S w') body) as [|c' t'] eqn:Hs'.
    + exfalso. apply (f_equal (@length _)) in Hs'.
      rewrite length_skipn in Hs'. simpl in Hs'. lia.
    + rewrite <- Hs', Hlen by lia. reflexivity.
  - rewrite <- Hs, Hlen by lia. reflexivity.
Qed.

Lemma strip_all_blank (s : str) : forallb is_space s = true -> strip s = [].
Proof.
  intro H. unfold strip, strip_by. now rewrite lstrip_by_all.
Qed.

Lemma strip_lstrip (s : str) : strip (lstrip_by is_space s) = strip s.
Proof. unfold strip, strip_by. now rewrite lstrip_by_idem. Qed.

Lemma forallb_skipn {A} (p : A -> bool) (l : list A) (n : nat) :
  forallb p l = true -> forallb p (skipn n l) = true.
Proof.
  intro H. apply forallb_forall. intros x Hx.
  apply (proj1 (forallb_forall p l) H).
  rewrite <- (firstn_skipn n l). apply in_or_app. now right.
Qed.

Lemma hash_not_blank (c : ascii) :
  Ascii.eqb "#" c = true -> is_space c = false.
Proof. intro H. apply Ascii.eqb_eq in H. now subst. Qed.

Lemma option_eta {A} (o : option A) :
  match o with Some r => Some r | None => None end = o.
Proof. now destruct o. Qed.

(** What the header pattern does on a line: [h] leading hashes, then
    the body of the line. *)
Lemma header_of_line_spec (i : nat) (line : str) :
  ~ In nl line ->
  header_of_line i line =
  let h := run_len (Ascii.eqb "#") line in
  let body := skipn h line in
  if (1 <=? h) && (h <=? 6) && (1 <=? run_len is_space body)
     && (2 <=? length body)
  then Some (Header h (strip body) (i + 1))
  else None.
Proof.
  intro Hnl. unfold header_of_line, re_match, match_at.
  change (run atx_pattern (MState 0 line []) Some)
    with (rep (Ascii.eqb "#") true 1 (Some 6) 0 line
            (fun pos' rest' =>
               run (Seq (plus is_space) (Seq (Grp 2 (plus dot)) Eos))
                   (MState pos' rest' [(1, firstn (pos' - 0) line)]) Some)).
  rewrite rep_greedy. cbn [cap].
  set (h := run_len (Ascii.eqb "#") line).
  set (F := fun n : nat => _).
  assert (HF : forall n, n < h -> F n = None).
  { intros n Hn. unfold F. cbn [Nat.add].
    rewrite blanks_then_text by now apply no_nl_skipn.
    destruct (run_len_stop _ _ _ Hn) as [c [t [-> Hc]]].
    simpl. now rewrite (hash_not_blank c Hc). }
  pose proof (run_len_le (Ascii.eqb "#") line) as Hle. fold h in Hle.
  cbv zeta.
  destruct (h <=? 6) eqn:H6.
  2:{ apply Nat.leb_gt in H6. rewrite andb_false_r. cbn [andb].
      rewrite descend_none; auto. intros n Hn. apply HF. lia. }
  apply Nat.leb_le in H6. rewrite Nat.min_r by lia.
  replace (S h - 1) with h by lia.
  destruct h as [|h'] eqn:Hh; [reflexivity|].
  cbn [descend]. rewrite (descend_none F 1 h') by (intros; apply HF; lia).
  rewrite option_eta. replace (1 + h') with (S h') by lia.
  unfold F. cbn [Nat.add].
  rewrite blanks_then_text by now apply no_nl_skipn.
  set (body := skipn (S h') line).
  replace (S h' - 0) with (S h') by lia.
  assert (Hg1 : length (firstn (S h') line) = S h')
    by (rewrite length_firstn; lia).
  replace (1 <=? S h') with true by (symmetry; apply Nat.leb_le; lia).
  cbn [andb].
  pose proof (run_len_le is_space body) as Hwle.
  pose proof (run_len_skipn is_space body) as Hskip.
  pose proof (run_len_firstn is_space body) as Hfirst.
  destruct (run_len is_space body) as [|w]; [reflexivity|].
  change (1 <=? S w) with true. cbn [andb].
  destruct (skipn (S w) body) as [|c t] eqn:Hs.
  - assert (Hlen : length body = S w).
    { apply (f_equal (@length _)) in Hs. rewrite length_skipn in Hs.
      simpl in Hs. lia. }
    rewrite Hlen. destruct w as [|w']; [reflexivity|].
    change (2 <=? S (S w')) with true.
    cbn [group_or_empty group lookup_group m_groups ms_groups Nat.eqb].
    rewrite Hg1. do 2 f_equal.
    rewrite <- Hlen, firstn_all in Hfirst.
    rewrite (strip_all_blank body Hfirst).
    apply strip_all_blank. now apply forallb_skipn.
  - assert (Hlen : 2 <= length body).
    { apply (f_equal (@length _)) in Hs. rewrite length_skipn in Hs.
      simpl in Hs. lia. }
    replace (2 <=? length body) with true
      by (symmetry; apply Nat.leb_le; lia).
    cbn [group_or_empty group lookup_group m_groups ms_groups Nat.eqb].
    rewrite Hg1. do 2 f_equal.
    rewrite Hskip. apply strip_lstrip.
Qed.

End HeaderLines.

(** ** Headers of a document *)

Section Headers.

Lemma repeat_hash_run (k : nat) (body : str) (w : ascii) (tail : str) :
  body = w :: tail -> is_space w = true ->
  run_len (Ascii.eqb "#") (repeat "#"%char k ++ body) = k.
Proof.
  intros -> Hw. rewrite run_len_app.
  - rewrite repeat_length. cbn [run_len].
    destruct (Ascii.eqb "#" w) eqn:E; [|lia].
    apply hash_not_blank in E. congruence.
  - apply forallb_forall. intros x Hx. apply repeat_spec in Hx. now subst.
Qed.

Lemma all_hashes (s : str) :
  forallb (Ascii.eqb "#") s = true -> s = repeat "#"%char (length s).
Proof.
  induction s as [|c t IH]; simpl; auto.
  intro H. apply andb_true_iff in H as [Hc Ht].
  apply Ascii.eqb_eq in Hc. subst. f_equal. now apply IH.
Qed.

(** The pattern accepts exactly the lines of the shape [atx_line],
    and reports the number of hashes and the stripped body. *)
Lemma header_of_line_iff (i : nat) (line : str) (h : header) :
  ~ In nl line ->
  header_of_line i line = Some h <->
  exists level body,
    atx_line line level body /\ h = Header level (strip body) (i + 1).
Proof.
  intro Hnl. rewrite header_of_line_spec by assumption. cbv zeta.
  set (k := run_len (Ascii.eqb "#") line).
  set (body := skipn k line).
  split.
  - destruct (_ && _) eqn:E; [|discriminate].
    intro H. inversion H; subst h; clear H.
    apply andb_true_iff in E as [E Hlen].
    apply andb_true_iff in E as [E Hrun].
    apply andb_true_iff in E as [Hlo Hhi].
    apply Nat.leb_le in Hlo, Hhi, Hrun, Hlen.
    exists k, body. split; [|reflexivity].
    unfold atx_line. repeat split; try lia.
    + rewrite <- (firstn_skipn k line) at 1. fold body. f_equal.
      pose proof (run_len_firstn (Ascii.eqb "#") line) as Hf. fold k in Hf.
      apply all_hashes in Hf. rewrite Hf at 1. f_equal.
      rewrite length_firstn. pose proof (run_len_le (Ascii.eqb "#") line).
      fold k in H. lia.
    + clearbody body.
      destruct body as [|w [|c tail]]; simpl in Hrun, Hlen; try lia.
      exists w, (c :: tail). repeat split; try discriminate.
      destruct (is_space w); auto. lia.
  - intros [level [body' [[Hline [Hlev [w [tail [Hb [Hw Ht]]]]]] ->]]].
    assert (Hk : k = level).
    { unfold k. rewrite Hline. now apply (repeat_hash_run _ _ w tail). }
    assert (Hbody : body = body').
    { unfold body. rewrite Hk, Hline.
      rewrite skipn_app, repeat_length, Nat.sub_diag.
      rewrite skipn_all2 by (rewrite repeat_length; lia). reflexivity. }
    rewrite Hbody, Hk, Hb.
    replace (1 <=? level) with true by (symmetry; apply Nat.leb_le; lia).
    replace (level <=? 6) with true by (symmetry; apply Nat.leb_le; lia).
    destruct tail as [|c tail]; [congruence|].
    cbn [run_len length]. now rewrite Hw.
Qed.

Lemma headers_of_in (numbered : list (nat * str)) (h : header) :
  In h (headers_of numbered) <->
  exists i line, In (i, line) numbered /\ header_of_line i line = Some h.
Proof.
  induction numbered as [|[i line] rest IH]; simpl.
  - split; [easy|]. now intros [? [? [[] _]]].
  - destruct (header_of_line i line) as [h0|] eqn:E; simpl.
    + rewrite IH. split.
      * intros [<-|[j [l [Hin Hh]]]]; [exists i, line; auto|].
        exists j, l; auto.
      * intros [j [l [[Heq|Hin] Hh]]].
        -- inversion Heq; subst. left. congruence.
        -- right. eauto.
    + rewrite IH. split.
      * intros [j [l [Hin Hh]]]. exists j, l; auto.
      * intros [j [l [[Heq|Hin] Hh]]]; [|eauto].
        inversion Heq; subst. congruence.
Qed.

(** The headers are exactly the lines of the header shape, each with
    its number of hashes, its stripped body and its 1-based line. *)
Lemma extract_headers_in (content : str) (h : header) :
  In h (extract_headers content) <->
  exists i line level body,
    nth_error (split nl content) i = Some line /\
    atx_line line level body /\
    h = Header level (strip body) (i + 1).
Proof.
  unfold extract_headers. rewrite headers_of_in. unfold enumerate. split.
  - intros [i [line [Hin Hh]]].
    apply enumerate_from_in in Hin as [_ Hn]. rewrite Nat.sub_0_r in Hn.
    apply header_of_line_iff in Hh as [level [body [Ha ->]]].
    + exists i, line, level, body. auto.
    + apply (split_no_sep nl content). eapply nth_error_In; eauto.
  - intros [i [line [level [body [Hn [Ha ->]]]]]].
    exists i, line. split.
    + now apply (enumerate_from_nth _ 0 i).
    + apply header_of_line_iff; eauto.
      apply (split_no_sep nl content). eapply nth_error_In; eauto.
Qed.

Lemma header_of_line_line (i : nat) (line : str) (h : header) :
  header_of_line i line = Some h -> h_line h = i + 1.
Proof.
  unfold header_of_line. destruct (re_match _ _); [|discriminate].
  intro H. now inversion H.
Qed.

(** Header lines increase strictly along the list. *)
Lemma headers_of_lines (l : list str) (i : nat) :
  Forall (fun h => i < h_line h) (headers_of (enumerate_from i l)) /\
  StronglySorted (fun a b => h_line a < h_line b)
                 (headers_of (enumerate_from i l)).
Proof.
  revert i. induction l as [|x t IH]; intro i; simpl.
  - split; constructor.
  - destruct (IH (S i)) as [IH1 IH2].
    assert (Hlt : Forall (fun h => i < h_line h)
                         (headers_of (enumerate_from (S i) t))).
    { eapply Forall_impl; [|exact IH1]. simpl. intros; lia. }
    destruct (header_of_line i x) as [h|] eqn:E; [|auto].
    apply header_of_line_line in E. split.
    + constructor; [lia|exact Hlt].
    + constructor; [exact IH2|].
      eapply Forall_impl; [|exact IH1]. simpl. intros; lia.
Qed.

Lemma extract_headers_sorted (content : str) :
  StronglySorted (fun a b => h_line a < h_line b) (extract_headers content).
Proof. apply headers_of_lines. Qed.

Lemma extract_headers_line_pos (content : str) (h : header) :
  In h (extract_headers content) -> 1 <= h_line h.
Proof.
  intro H. pose proof (proj1 (headers_of_lines (split nl content) 0)) as HF.
  rewrite Forall_forall in HF. apply HF in H. lia.
Qed.

End Headers.

(** ** Sections *)

Section Sections.

Lemma find_end_spec (level : nat) (later : list header) (n : nat) :
  (exists j hj,
      nth_error later j = Some hj /\ h_level hj <= level /\
      (forall k hk, k < j -> nth_error later k = Some hk ->
                    level < h_level hk) /\
      find_end level later n = h_line hj - 1)
  \/
  ((forall k hk, nth_error later k = Some hk -> level < h_level hk) /\
   find_end level later n = n).
Proof.
  induction later as [|x rest IH]; simpl.
  - right. split; auto. intros [|k] hk; discriminate.
  - destruct (h_level x <=? level) eqn:E.
    + apply Nat.leb_le in E. left. exists 0, x. repeat split; auto.
      intros k hk Hk. lia.
    + apply Nat.leb_gt in E. destruct IH as [[j [hj [H1 [H2 [H3 H4]]]]]|[H1 H2]].
      * left. exists (S j), hj. repeat split; auto.
        intros [|k] hk Hk Hn; simpl in Hn.
        -- inversion Hn; subst. exact E.
        -- apply (H3 k); auto. lia.
      * right. split; auto.
        intros [|k] hk Hn; simpl in Hn.
        -- inversion Hn; subst. exact E.
        -- eauto.
Qed.

Lemma sections_of_length (lines : list str) (headers : list header) :
  length (sections_of lines headers) = length headers.
Proof. induction headers; simpl; auto. Qed.

Lemma sections_of_nth (lines : list str) (headers : list header)
      (i : nat) (h : header) :
  nth_error headers i = Some h ->
  nth_error (sections_of lines headers) i =
  Some (let start_line := h_line h - 1 in
        let end_line :=
          find_end (h_level h) (skipn (S i) headers) (length lines) in
        Section_ (h_text h) (h_level h)
                 (join [nl] (slice lines start_line end_line))
                 (start_line + 1) end_line).
Proof.
  revert i. induction headers as [|x rest IH]; intros [|i] H;
    try discriminate; simpl in *.
  - now inversion H.
  - now apply IH.
Qed.

Lemma sections_of_sorted (lines : list str) (headers : list header) :
  Forall (fun h => 1 <= h_line h) headers ->
  StronglySorted (fun a b => h_line a < h_line b) headers ->
  StronglySorted (fun a b => s_start_line a < s_start_line b)
                 (sections_of lines headers).
Proof.
  induction headers as [|x rest IH]; simpl; intros Hpos Hs; [constructor|].
  inversion Hpos; subst. inversion Hs; subst.
  constructor; [now apply IH|].
  apply Forall_forall. intros s Hin.
  apply In_nth_error in Hin as [i Hi].
  destruct (nth_error rest i) as [h|] eqn:Hh.
  - rewrite (sections_of_nth _ _ _ _ Hh) in Hi. inversion Hi; subst s.
    simpl. apply nth_error_In in Hh.
    rewrite Forall_forall in H2, H4. specialize (H2 _ Hh).
    specialize (H4 _ Hh). lia.
  - apply nth_error_None in Hh.
    assert (nth_error (sections_of lines rest) i <> None) by congruence.
    apply nth_error_Some in H. rewrite sections_of_length in H. lia.
Qed.

Lemma section_ends_of_find (headers : list header) (n i : nat) (h : header) :
  nth_error headers i = Some h ->
  section_ends headers n i h
               (find_end (h_level h) (skipn (S i) headers) n).
Proof.
  intro Hh.
  destruct (find_end_spec (h_level h) (skipn (S i) headers) n)
    as [[j [hj [H1 [H2 [H3 H4]]]]]|[H1 H2]].
  - left. exists (S i + j), hj. rewrite nth_error_skipn in H1.
    repeat split; auto; try lia.
    intros k hk Hk Hn. apply (H3 (k - S i)); [lia|].
    rewrite nth_error_skipn. now replace (S i + (k - S i)) with k by lia.
  - right. split; auto. intros k hk Hk Hn. apply (H1 (k - S i)).
    rewrite nth_error_skipn. now replace (S i + (k - S i)) with k by lia.
Qed.

End Sections.

(** C1. For every document, section extraction yields one section per
    extracted header, in document order: the [i]-th section carries
    the title and level of the [i]-th header, starts on that header's
    1-based line, ends on the line before the next header whose level
    is at most its own, or on the last line of the document when there
    is none, and holds the lines in between.  In particular, with
    headers [# A] on line 1, [## B] on line 3, [## C] on line 6 and
    [# D] on line 9, section B spans lines 3 to 5 and section A lines
    1 to 8. *)
Theorem C1_sections_follow_headers (content : str) :
  let headers := extract_headers content in
  let sections := extract_sections content in
  let lines := split nl content in
  length sections = length headers /\
  StronglySorted (fun a b => s_start_line a < s_start_line b) sections /\
  (forall i h s,
      nth_error headers i = Some h -> nth_error sections i = Some s ->
      s_title s = h_text h /\ s_level s = h_level h /\
      s_start_line s = h_line h /\
      section_ends headers (length lines) i h (s_end_line s) /\
      s_content s =
        join [nl] (slice lines (s_start_line s - 1) (s_end_line s))) /\
  (headers = [Header 1 (lit "A") 1; Header 2 (lit "B") 3;
              Header 2 (lit "C") 6; Header 1 (lit "D") 9] ->
   exists sa sb sc sd,
     sections = [sa; sb; sc; sd] /\
     s_title sa = lit "A" /\ s_start_line sa = 1 /\ s_end_line sa = 8 /\
     s_title sb = lit "B" /\ s_start_line sb = 3 /\ s_end_line sb = 5).
Proof.
  cbv zeta. unfold extract_sections. repeat split.
  - apply sections_of_length.
  - apply sections_of_sorted.
    + apply Forall_forall. apply extract_headers_line_pos.
    + apply extract_headers_sorted.
  - rewrite (sections_of_nth _ _ _ _ H) in H0. now inversion H0.
  - rewrite (sections_of_nth _ _ _ _ H) in H0. now inversion H0.
  - rewrite (sections_of_nth _ _ _ _ H) in H0. inversion H0; subst s.
    cbn [s_start_line]. apply nth_error_In in H.
    apply extract_headers_line_pos in H. lia.
  - rewrite (sections_of_nth _ _ _ _ H) in H0. inversion H0; subst s.
    cbn [s_end_line]. now apply section_ends_of_find.
  - rewrite (sections_of_nth _ _ _ _ H) in H0. inversion H0; subst s.
    cbn [s_start_line s_end_line s_content]. do 2 f_equal. lia.
  - intros ->. cbn [sections_of find_end h_level h_line h_text Nat.leb].
    do 4 eexists. split; [reflexivity|]. cbn. repeat split.
Qed.

(** ** Fenced blocks *)

Section FencedBlocks.

Lemma strip_prefix_startswith (p s : str) :
  strip_prefix p s =
  if startswith p s then Some (skipn (length p) s) else None.
Proof.
  revert s. induction p as [|a p IH]; intros [|b s]; simpl; auto.
  destruct (Ascii.eqb a b); simpl; auto.
Qed.

Lemma startswith_app (p s : str) : startswith p (p ++ s) = true.
Proof.
  induction p as [|a p IH]; simpl; auto. now rewrite Ascii.eqb_refl.
Qed.

Lemma startswith_inv (p s : str) :
  startswith p s = true -> s = p ++ skipn (length p) s.
Proof.
  revert s. induction p as [|a p IH]; intros [|b s]; simpl; auto;
    try discriminate.
  intro H. apply andb_true_iff in H as [Hab Hp].
  apply Ascii.eqb_eq in Hab. subst. f_equal. now apply IH.
Qed.

(** A lazy [.*?] followed by a literal stops at the first occurrence
    of the literal. *)
Lemma ascend_index_of {R} (needle s : str) (g : nat -> str -> R) :
  ascend (fun n => match strip_prefix needle (skipn n s) with
                   | Some t => Some (g n t)
                   | None => None
                   end) 0 (S (length s)) =
  match index_of needle s with
  | Some n => Some (g n (skipn (n + length needle) s))
  | None => None
  end.
Proof.
  revert g. induction s as [|c t IH]; intro g.
  - cbn [length ascend skipn index_of]. rewrite strip_prefix_startswith.
    destruct (startswith needle []); reflexivity.
  - cbn [length]. rewrite ascend_S. cbn [skipn index_of].
    rewrite strip_prefix_startswith.
    destruct (startswith needle (c :: t)) eqn:E; [reflexivity|].
    rewrite <- (ascend_shift
                  (fun n => match strip_prefix needle (skipn n (c :: t)) with
                            | Some u => Some (g n u)
                            | None => None
                            end)).
    rewrite (ascend_ext _
               (fun n => match strip_prefix needle (skipn n t) with
                         | Some u => Some (g (S n) u)
                         | None => None
                         end)) by reflexivity.
    rewrite (IH (fun n => g (S n))).
    destruct (index_of needle t); reflexivity.
Qed.

Lemma index_of_bound (needle s : str) (n : nat) :
  index_of needle s = Some n ->
  n + length needle <= length s /\
  startswith needle (skipn n s) = true /\
  forall j, j < n -> startswith needle (skipn j s) = false.
Proof.
  revert n. induction s as [|c t IH]; intro n; simpl.
  - destruct needle; simpl; [|discriminate].
    intro H. inversion H; subst. repeat split; auto. lia.
  - destruct (startswith needle (c :: t)) eqn:E.
    + intro H. inversion H; subst. repeat split; auto; [|lia].
      apply startswith_inv in E. apply (f_equal (@length _)) in E.
      rewrite length_app in E. simpl in *. lia.
    + destruct (index_of needle t) as [m|]; [|discriminate].
      simpl. intro H. inversion H; subst.
      destruct (IH m eq_refl) as [H1 [H2 H3]].
      repeat split; auto; [lia|].
      intros [|j] Hj; simpl; auto. apply H3. lia.
Qed.

Lemma index_of_first (needle s : str) (n : nat) :
  startswith needle (skipn n s) = true ->
  n <= length s ->
  (forall j, j < n -> startswith needle (skipn j s) = false) ->
  index_of needle s = Some n.
Proof.
  revert n. induction s as [|c t IH]; intros n Hn Hlen Hmin.
  - simpl in Hlen. assert (n = 0) by lia. subst. simpl in *. now rewrite Hn.
  - destruct n as [|n].
    + simpl in Hn. simpl. now rewrite Hn.
    + cbn [index_of].
      assert (H0 : startswith needle (c :: t) = false)
        by (apply (Hmin 0); lia).
      rewrite H0, (IH n); auto.
      * simpl in Hlen. lia.
      * intros j Hj. apply (Hmin (S j)). lia.
Qed.

(** The tail of the fence pattern, [\n(.*?)```]. *)
Lemma fence_body (p : nat) (rest : str) (gs : list (nat * str)) :
  run (Seq (chr nl) (Seq (Grp 2 (Rep any_char 0 None false)) (Lit fence)))
      (MState p rest gs) Some =
  match rest with
  | c :: body =>
      if Ascii.eqb nl c then
        match index_of fence body with
        | Some n => Some (MState (S p + n + 3) (skipn (n + 3) body)
                                 ((2, firstn n body) :: gs))
        | None => None
        end
      else None
  | [] => None
  end.
Proof.
  cbn [run chr ms_rest ms_pos ms_groups].
  destruct rest as [|c body]; [reflexivity|].
  destruct (Ascii.eqb nl c); [|reflexivity].
  rewrite rep_lazy. cbn [cap].
  rewrite (run_len_all any_char body) by (now apply forallb_forall).
  rewrite Nat.sub_0_r.
  rewrite (ascend_ext _
    (fun n => match strip_prefix fence (skipn n body) with
              | Some t => Some (MState (S p + n + 3) t
                                       ((2, firstn n body) :: gs))
              | None => None
              end)).
  - now rewrite ascend_index_of.
  - intros n _. cbn [ms_rest ms_pos ms_groups].
    replace (S p + n - S p) with n by lia. reflexivity.
Qed.

Lemma nl_not_word (c : ascii) : Ascii.eqb nl c = true -> is_word c = false.
Proof. intro H. apply Ascii.eqb_eq in H. now subst. Qed.

(** What the fence pattern does at one position: the opening fence,
    the longest run of word characters as the tag, a newline, and
    the text up to the first closing fence. *)
Lemma fenced_match_at (pos : nat) (s : str) :
  match_at fenced_pattern pos s =
  match strip_prefix fence s with
  | None => None
  | Some s1 =>
      let w := run_len is_word s1 in
      match skipn w s1 with
      | c :: body =>
          if Ascii.eqb nl c then
            match index_of fence body with
            | Some n =>
                Some (Match pos (S (pos + 3 + w) + n + 3)
                            ((2, firstn n body)
                               :: match w with
                                  | 0 => []
                                  | S _ => [(1, firstn w s1)]
                                  end))
            | None => None
            end
          else None
      | [] => None
      end
  end.
Proof.
  unfold match_at.
  set (K := fun st => run (Seq (chr nl)
              (Seq (Grp 2 (Rep any_char 0 None false)) (Lit fence))) st Some).
  change (run fenced_pattern (MState pos s []) Some)
    with (match strip_prefix fence s with
          | Some s1 =>
              match rep is_word true 1 None (pos + 3) s1
                      (fun pos' rest' =>
                         K (MState pos' rest'
                              [(1, firstn (pos' - (pos + 3)) s1)])) with
              | Some r => Some r
              | None => K (MState (pos + 3) s1 [])
              end
          | None => None
          end).
  destruct (strip_prefix fence s) as [s1|]; [|reflexivity].
  rewrite rep_greedy. cbn [cap]. cbv zeta.
  set (w := run_len is_word s1).
  set (F := fun n : nat => _).
  assert (HF : forall n, n < w -> F n = None).
  { intros n Hn. unfold F, K. rewrite fence_body.
    destruct (run_len_stop _ _ _ Hn) as [c [t [-> Hc]]].
    destruct (Ascii.eqb nl c) eqn:E; auto.
    apply nl_not_word in E. congruence. }
  replace (S w - 1) with w by lia.
  destruct w as [|w'] eqn:Hw.
  - cbn [descend skipn]. unfold K. rewrite fence_body.
    destruct s1 as [|c body]; [reflexivity|].
    destruct (Ascii.eqb nl c); [|reflexivity].
    destruct (index_of fence body); [|reflexivity].
    cbn [ms_pos ms_groups]. do 2 f_equal. lia.
  - cbn [descend]. rewrite (descend_none F 1 w') by (intros; apply HF; lia).
    rewrite option_eta. replace (1 + w') with (S w') by lia.
    assert (Hfb : K (MState (pos + 3) s1 []) = None).
    { unfold K. rewrite fence_body.
      assert (H0 : 0 < run_len is_word s1) by (fold w; lia).
      destruct (run_len_stop _ _ _ H0) as [c [t [Hs Hc]]].
      simpl in Hs. subst s1.
      destruct (Ascii.eqb nl c) eqn:E; auto.
      apply nl_not_word in E. congruence. }
    rewrite Hfb, option_eta. unfold F, K. rewrite fence_body.
    destruct (skipn (S w') s1) as [|c body]; [reflexivity|].
    destruct (Ascii.eqb nl c); [|reflexivity].
    destruct (index_of fence body); [|reflexivity].
    cbn [ms_pos ms_groups]. do 3 f_equal.
    replace (pos + 3 + S w' - (pos + 3)) with (S w') by lia.
    reflexivity.
Qed.

End FencedBlocks.

(** ** Scanning for matches *)

Section Finditer.

Variable r : re.

Lemma match_at_start (pos : nat) (s : str) (m : match_obj) :
  match_at r pos s = Some m -> m_start m = pos.
Proof.
  unfold match_at. destruct (run r _ Some); [|discriminate].
  intro H. now inversion H.
Qed.

(** Every reported match is a match of the pattern at its start, on
    a suffix of the scanned text. *)
Lemma finditer_from_in (pos skip : nat) (s : str) (m : match_obj) :
  In m (finditer_from r pos skip s) ->
  exists k, match_at r (pos + k) (skipn k s) = Some m.
Proof.
  revert pos skip. induction s as [|c t IH]; intros pos skip H.
  - destruct skip; simpl in H; [|easy].
    destruct (match_at r pos []) eqn:E; [|easy].
    destruct H as [<-|[]]. exists 0. now rewrite Nat.add_0_r.
  - destruct skip as [|skip']; cbn [finditer_from] in H.
    + destruct (match_at r pos (c :: t)) eqn:E.
      * destruct H as [<-|H].
        -- exists 0. now rewrite Nat.add_0_r.
        -- apply IH in H as [k Hk]. exists (S k).
           now replace (pos + S k) with (S pos + k) by lia.
      * apply IH in H as [k Hk]. exists (S k).
        now replace (pos + S k) with (S pos + k) by lia.
    + apply IH in H as [k Hk]. exists (S k).
      now replace (pos + S k) with (S pos + k) by lia.
Qed.

Lemma finditer_from_sorted (pos skip : nat) (s : str) :
  Forall (fun m => pos <= m_start m) (finditer_from r pos skip s) /\
  StronglySorted (fun a b => m_start a < m_start b)
                 (finditer_from r pos skip s).
Proof.
  revert pos skip. induction s as [|c t IH]; intros pos skip.
  - destruct skip; simpl; [|split; constructor].
    destruct (match_at r pos []) eqn:E; [|split; constructor].
    apply match_at_start in E. split; repeat constructor. lia.
  - assert (Hweak : forall k,
               Forall (fun m => pos <= m_start m)
                      (finditer_from r (S pos) k t)).
    { intro k. eapply Forall_impl; [|apply (IH (S pos) k)].
      simpl. intros; lia. }
    destruct skip as [|skip']; cbn [finditer_from].
    + destruct (match_at r pos (c :: t)) eqn:E.
      * apply match_at_start in E. split.
        -- constructor; [lia|apply Hweak].
        -- constructor; [apply IH|].
           eapply Forall_impl; [|apply (IH (S pos))]. simpl. intros; lia.
      * split; [apply Hweak|apply IH].
    + split; [apply Hweak|apply IH].
Qed.

(** Skipping over the previous match resumes the scan at its end. *)
Lemma finditer_from_skip (pos skip : nat) (s : str) :
  skip <= length s ->
  finditer_from r pos skip s = finditer_from r (pos + skip) 0 (skipn skip s).
Proof.
  revert pos s. induction skip as [|k IH]; intros pos s H.
  - now rewrite Nat.add_0_r.
  - destruct s as [|c t]; simpl in H; [lia|].
    cbn [finditer_from skipn]. rewrite IH by lia. f_equal. lia.
Qed.

End Finditer.

(** ** Code blocks *)

Section CodeBlocks.

Lemma StronglySorted_snoc {A} (R : A -> A -> Prop) (l : list A) (b : A) :
  StronglySorted R l -> Forall (fun x => R x b) l ->
  StronglySorted R (l ++ [b]).
Proof.
  induction 1 as [|x l Hs IH Hx]; intro Hb; simpl.
  - repeat constructor.
  - inversion Hb; subst. constructor; [now apply IH|].
    apply Forall_app. split; auto.
Qed.

Lemma StronglySorted_app_inv {A} (R : A -> A -> Prop) (l1 l2 : list A)
      (x y : A) :
  StronglySorted R (l1 ++ l2) -> In x l1 -> In y l2 -> R x y.
Proof.
  induction l1 as [|a l1 IH]; simpl; intros Hs Hx Hy; [easy|].
  inversion Hs; subst. destruct Hx as [->|Hx]; [|now apply IH].
  rewrite Forall_forall in H2. apply H2. apply in_or_app. now right.
Qed.

Lemma count_nl_firstn_mono (s : str) (a b : nat) :
  a <= b -> count_nl (firstn a s) <= count_nl (firstn b s).
Proof.
  intro H. unfold count_nl.
  rewrite <- (firstn_skipn a (firstn b s)), firstn_firstn, Nat.min_l by lia.
  rewrite filter_app, length_app. lia.
Qed.

Lemma fenced_blocks_fenced (content : str) :
  Forall (fun b => cb_type b = fenced) (fenced_blocks content).
Proof.
  unfold fenced_blocks. apply Forall_forall. intros b Hb.
  apply in_map_iff in Hb as [m [<- _]]. reflexivity.
Qed.

Lemma fenced_blocks_sorted (content : str) :
  StronglySorted (fun a b => cb_line a <= cb_line b)
                 (fenced_blocks content).
Proof.
  unfold fenced_blocks, finditer.
  pose proof (proj2 (finditer_from_sorted fenced_pattern 0 0 content)) as H.
  induction H as [|m l Hs IH Hm]; simpl; constructor; auto.
  apply Forall_forall. intros b Hb.
  apply in_map_iff in Hb as [m' [<- Hin]].
  rewrite Forall_forall in Hm. specialize (Hm _ Hin). simpl.
  apply Nat.add_le_mono_r. apply count_nl_firstn_mono. lia.
Qed.

Lemma indent_step_inv (fs : list code_block) (n : nat) (st : indent_state)
      (line : str) :
  indent_inv fs n st -> indent_inv fs (S n) (indent_step st (n, line)).
Proof.
  intros [ind [Hcb [Hty [Hs [Hb Hin]]]]]. unfold indent_step.
  destruct (startswith (lit "    ") line || startswith [tab] line).
  - exists ind. cbn [code_blocks in_code_block block_start].
    destruct (in_code_block st); repeat split; auto; intros _;
      try specialize (Hin eq_refl); lia.
  - destruct (in_code_block st && is_nonempty (current_block st)) eqn:E.
    + apply andb_true_iff in E as [E _]. rewrite E in Hb.
      specialize (Hin E).
      exists (ind ++ [indented_block st]).
      cbn [code_blocks in_code_block block_start].
      repeat split.
      * now rewrite Hcb, app_assoc.
      * apply Forall_app. split; auto.
      * apply StronglySorted_snoc; auto.
      * apply Forall_app. split.
        -- eapply Forall_impl; [|exact Hb]. simpl. intros; lia.
        -- constructor; [|constructor]. simpl. lia.
      * discriminate.
    + exists ind. cbn [code_blocks in_code_block block_start].
      repeat split; auto; [|discriminate].
      eapply Forall_impl; [|exact Hb]. simpl. intros b Hlt.
      destruct (in_code_block st); [specialize (Hin eq_refl)|]; lia.
Qed.

Lemma indent_fold_inv (fs : list code_block) (lines : list str) (n : nat)
      (st : indent_state) :
  indent_inv fs n st ->
  indent_inv fs (n + length lines)
             (fold_left indent_step (enumerate_from n lines) st).
Proof.
  revert n st. induction lines as [|l ls IH]; intros n st H; simpl.
  - now rewrite Nat.add_0_r.
  - replace (n + S (length ls)) with (S n + length ls) by lia.
    apply IH. now apply indent_step_inv.
Qed.

(** The result of [extract_code_blocks]: the fenced blocks, then
    indented blocks on increasing lines. *)
Lemma extract_code_blocks_split (content : str) :
  exists ind,
    extract_code_blocks content = fenced_blocks content ++ ind /\
    Forall (fun b => cb_type b = indented) ind /\
    StronglySorted (fun a b => cb_line a < cb_line b) ind.
Proof.
  unfold extract_code_blocks. cbv zeta.
  set (st0 := IndentState (fenced_blocks content) false [] 0).
  assert (H0 : indent_inv (fenced_blocks content) 0 st0).
  { exists []. cbn. rewrite app_nil_r.
    repeat split; auto; try constructor. }
  apply (indent_fold_inv _ (split nl content)) in H0.
  unfold enumerate.
  destruct H0 as [ind [Hcb [Hty [Hs [Hb Hin]]]]].
  destruct (in_code_block _ && is_nonempty _) eqn:E.
  - apply andb_true_iff in E as [E _]. rewrite E in Hb.
    exists (ind ++ [indented_block
                      (fold_left indent_step
                                 (enumerate_from 0 (split nl content)) st0)]).
    repeat split.
    + now rewrite Hcb, app_assoc.
    + apply Forall_app. split; auto.
    + apply StronglySorted_snoc; auto.
  - exists ind. auto.
Qed.

Lemma filter_fenced_blocks (content : str) :
  filter is_fenced (extract_code_blocks content) = fenced_blocks content.
Proof.
  destruct (extract_code_blocks_split content) as [ind [-> [Hty _]]].
  rewrite filter_app.
  assert (H1 : filter is_fenced (fenced_blocks content)
               = fenced_blocks content).
  { apply forallb_filter_id. apply forallb_forall. intros b Hb.
    pose proof (fenced_blocks_fenced content) as HF.
    rewrite Forall_forall in HF. unfold is_fenced. now rewrite (HF b Hb). }
  assert (H2 : filter is_fenced ind = []).
  { clear -Hty. induction Hty as [|b l Hb _ IH]; simpl; auto.
    unfold is_fenced at 1. now rewrite Hb. }
  now rewrite H1, H2, app_nil_r.
Qed.

End CodeBlocks.

(** C10. In the sequence returned by code block extraction all fenced
    blocks come first, in document order, followed by the indented
    blocks, in document order; hence the sequence is not ordered by
    line number whenever it holds an indented block that starts on an
    earlier line than some fenced block. *)
Theorem C10_fenced_before_indented (content : str) :
  let blocks := extract_code_blocks content in
  (exists ind,
      blocks = fenced_blocks content ++ ind /\
      Forall (fun b => cb_type b = fenced) (fenced_blocks content) /\
      Forall (fun b => cb_type b = indented) ind /\
      StronglySorted (fun a b => cb_line a <= cb_line b)
                     (fenced_blocks content) /\
      StronglySorted (fun a b => cb_line a < cb_line b) ind) /\
  (forall bi bf,
      In bi blocks -> In bf blocks ->
      cb_type bi = indented -> cb_type bf = fenced ->
      cb_line bi < cb_line bf ->
      ~ StronglySorted (fun a b => cb_line a <= cb_line b) blocks).
Proof.
  cbv zeta.
  destruct (extract_code_blocks_split content) as [ind [Heq [Hty Hs]]].
  pose proof (fenced_blocks_fenced content) as Hf.
  split.
  - exists ind. repeat split; auto. apply fenced_blocks_sorted.
  - intros bi bf Hbi Hbf Hti Htf Hlt Hsorted. rewrite Heq in *.
    rewrite Forall_forall in Hf, Hty.
    apply in_app_or in Hbi as [Hbi|Hbi];
      [apply Hf in Hbi; congruence|].
    apply in_app_or in Hbf as [Hbf|Hbf];
      [|apply Hty in Hbf; congruence].
    pose proof (StronglySorted_app_inv _ _ _ _ _ Hsorted Hbf Hbi) as Hle.
    simpl in Hle. lia.
Qed.

(** ** Re-parsing an extracted fenced block *)

Section Reparse.

Lemma lstrip_strip (s : str) : lstrip_by is_space (strip s) = strip s.
Proof.
  unfold strip, strip_by. set (y := lstrip_by is_space s).
  destruct (rstrip_by_prefix is_space y) as [b [Hy _]].
  destruct (rstrip_by is_space y) as [|h t] eqn:E; [reflexivity|].
  apply lstrip_by_stop. apply (lstrip_by_head is_space s h (t ++ b)).
  fold y. now rewrite Hy.
Qed.

Lemma rstrip_by_idem (p : ascii -> bool) (s : str) :
  rstrip_by p (rstrip_by p s) = rstrip_by p s.
Proof.
  unfold rstrip_by. now rewrite rev_involutive, lstrip_by_idem.
Qed.

Lemma rstrip_by_snoc (p : ascii -> bool) (s : str) (c : ascii) :
  p c = true -> rstrip_by p (s ++ [c]) = rstrip_by p s.
Proof.
  intro H. unfold rstrip_by. rewrite rev_app_distr. simpl. now rewrite H.
Qed.

(** Stripping is undone neither by a newline put after the text... *)
Lemma strip_strip_nl (g : str) : strip (strip g ++ [nl]) = strip g.
Proof.
  pose proof (lstrip_strip g) as Hl.
  assert (Hr : rstrip_by is_space (strip g) = strip g)
    by apply rstrip_by_idem.
  destruct (strip g) as [|h t] eqn:E; [reflexivity|].
  unfold strip at 1, strip_by.
  assert (Hh : is_space h = false).
  { simpl in Hl. destruct (is_space h); auto.
    exfalso. pose proof (lstrip_by_suffix is_space t) as [a [Ha _]].
    apply (f_equal (@length _)) in Ha, Hl. rewrite length_app in Ha.
    simpl in Hl. lia. }
  change ((h :: t) ++ [nl]) with (h :: (t ++ [nl])).
  rewrite lstrip_by_stop by exact Hh.
  change (h :: (t ++ [nl])) with ((h :: t) ++ [nl]).
  now rewrite rstrip_by_snoc.
Qed.

Lemma startswith_app_l (p x y : str) :
  startswith p x = true -> startswith p (x ++ y) = true.
Proof.
  revert x. induction p as [|a p IH]; intros [|b x]; simpl; auto;
    try discriminate.
  intro H. apply andb_true_iff in H as [-> Hp]. simpl. now apply IH.
Qed.

Lemma fence_free_sub (a s b : str) :
  fence_free (a ++ s ++ b) -> fence_free s.
Proof.
  intros H j. specialize (H (length a + j)).
  destruct (startswith fence (skipn j s)) eqn:E; auto.
  rewrite <- H. symmetry.
  rewrite skipn_app, skipn_all2 by lia.
  replace (length a + j - length a) with j by lia. cbn [app].
  rewrite skipn_app. now apply startswith_app_l.
Qed.

Lemma fence_free_firstn (body : str) (n : nat) :
  index_of fence body = Some n -> fence_free (firstn n body).
Proof.
  intros H j. apply index_of_bound in H as [_ [_ Hmin]].
  destruct (startswith fence (skipn j (firstn n body))) eqn:E; auto.
  assert (Hj : j < n).
  { destruct (Nat.lt_ge_cases j n); auto.
    rewrite skipn_all2 in E by (rewrite length_firstn; lia). discriminate. }
  rewrite <- (Hmin j Hj). symmetry.
  rewrite <- (firstn_skipn n body) at 1.
  rewrite skipn_app. now apply startswith_app_l.
Qed.

Lemma fence_free_strip (g : str) : fence_free g -> fence_free (strip g).
Proof.
  intro H. unfold strip, strip_by.
  destruct (lstrip_by_suffix is_space g) as [a [Ha _]].
  destruct (rstrip_by_prefix is_space (lstrip_by is_space g)) as [b [Hb _]].
  apply (fence_free_sub a _ b). now rewrite <- Hb, <- Ha.
Qed.

(** In fence-free text followed by a fence line, the first fence is
    the one that was added. *)
Lemma index_of_closing_fence (code : str) :
  fence_free code ->
  index_of fence (code ++ [nl] ++ fence) = Some (length code + 1).
Proof.
  intro H. apply index_of_first.
  - rewrite skipn_app, skipn_all2 by lia.
    now replace (length code + 1 - length code) with 1 by lia.
  - rewrite length_app. simpl. lia.
  - intros j Hj. rewrite skipn_app.
    replace (j - length code) with 0 by lia. cbn [skipn].
    specialize (H j).
    destruct (skipn j code) as [|a [|b [|c x]]]; cbn in *; auto;
      rewrite ?andb_false_r, ?andb_true_r in *; auto.
Qed.

(** A fenced block comes with a tag of word characters, or the
    default one, and with fence-free code that is stripped. *)
Lemma fenced_block_shape (content : str) (b : code_block) :
  In b (fenced_blocks content) ->
  cb_type b = fenced /\
  cb_language b <> [] /\
  forallb is_word (cb_language b) = true /\
  exists g, cb_code b = strip g /\ fence_free g.
Proof.
  unfold fenced_blocks, finditer. intro H.
  apply in_map_iff in H as [m [<- Hm]].
  apply finditer_from_in in Hm as [k Hm].
  rewrite fenced_match_at in Hm.
  destruct (strip_prefix fence (skipn k content)) as [s1|]; [|discriminate].
  cbv zeta in Hm. set (w := run_len is_word s1) in *.
  destruct (skipn w s1) as [|c body]; [discriminate|].
  destruct (Ascii.eqb nl c); [|discriminate].
  destruct (index_of fence body) as [n|] eqn:En; [|discriminate].
  inversion Hm; subst m; clear Hm.
  unfold fenced_block, group, group_or_empty.
  cbn [m_groups lookup_group Nat.eqb cb_type cb_language cb_code group].
  split; [reflexivity|].
  assert (Hlang :
    match lookup_group 1 match w with 0 => [] | S _ => [(1, firstn w s1)] end
    with Some l => l | None => lit "text" end <> [] /\
    forallb is_word
      match lookup_group 1 match w with 0 => [] | S _ => [(1, firstn w s1)] end
      with Some l => l | None => lit "text" end = true).
  { pose proof (run_len_firstn is_word s1) as Hf.
    pose proof (run_len_le is_word s1) as Hle. fold w in Hf, Hle.
    destruct w as [|w']; cbn [lookup_group Nat.eqb].
    - split; [discriminate|reflexivity].
    - split; auto. intro E. apply (f_equal (@length _)) in E.
      rewrite length_firstn in E. cbn [length] in E. lia. }
  destruct Hlang as [H1 H2]. repeat split; auto.
  exists (firstn n body). split; auto. now apply fence_free_firstn.
Qed.

(** The pattern on a re-wrapped block: one match, spanning all of
    the text. *)
Lemma rewrap_match (tag code : str) :
  forallb is_word tag = true -> fence_free code ->
  finditer fenced_pattern (rewrap tag code) =
  [Match 0 (length (rewrap tag code))
         ((2, code ++ [nl])
            :: match tag with [] => [] | _ :: _ => [(1, tag)] end)].
Proof.
  intros Htag Hfree. unfold finditer.
  assert (Hm : match_at fenced_pattern 0 (rewrap tag code) =
               Some (Match 0 (length (rewrap tag code))
                       ((2, code ++ [nl])
                          :: match tag with
                             | [] => []
                             | _ :: _ => [(1, tag)]
                             end))).
  { rewrite fenced_match_at. unfold rewrap.
    rewrite strip_prefix_startswith, startswith_app.
    rewrite skipn_app, skipn_all, Nat.sub_diag. cbn [app skipn].
    cbv zeta.
    assert (Hw : run_len is_word (tag ++ nl :: code ++ nl :: fence)
                 = length tag).
    { rewrite run_len_app by assumption. cbn [run_len].
      change (is_word nl) with false. cbv iota. lia. }
    rewrite Hw, skipn_app, skipn_all, Nat.sub_diag. cbn [app skipn].
    rewrite Ascii.eqb_refl.
    change (code ++ nl :: fence) with (code ++ [nl] ++ fence).
    rewrite index_of_closing_fence by assumption.
    do 2 f_equal.
    - repeat first [rewrite length_app | progress cbn [length]].
      change (length fence) with 3. lia.
    - f_equal.
      + f_equal. rewrite firstn_app, firstn_all2 by lia.
        replace (length code + 1 - length code) with 1 by lia.
        reflexivity.
      + destruct tag; [reflexivity|].
        now rewrite firstn_app, firstn_all, Nat.sub_diag, app_nil_r. }
  destruct (rewrap tag code) as [|c t] eqn:E; [discriminate|].
  cbn [finditer_from]. rewrite Hm. cbn [m_end]. f_equal.
  rewrite finditer_from_skip by (simpl; lia).
  replace (length (c :: t) - 0 - 1) with (length t) by (simpl; lia).
  rewrite skipn_all. cbn [finditer_from].
  now rewrite fenced_match_at.
Qed.

End Reparse.

(** C8. Fenced extraction is idempotent: for every fenced block
    extracted from a document, parsing its code again, put between
    fence lines under the same opening tag (the block's language, or
    no tag at all when the language is the default), yields exactly
    one fenced block, with the language and the code of the original
    block. *)
Theorem C8_fenced_extraction_idempotent
        (content : str) (b : code_block) (tag : str) :
  In b (extract_code_blocks content) ->
  cb_type b = fenced ->
  tag = cb_language b \/ (tag = [] /\ cb_language b = lit "text") ->
  filter is_fenced (extract_code_blocks (rewrap tag (cb_code b))) =
  [CodeBlock (cb_language b) (cb_code b) 1 fenced].
Proof.
  intros Hin Hty Htag.
  assert (Hb : In b (fenced_blocks content)).
  { rewrite <- filter_fenced_blocks. apply filter_In. split; auto.
    unfold is_fenced. now rewrite Hty. }
  destruct (fenced_block_shape content b Hb)
    as [_ [Hne [Hword [g [Hcode Hfree]]]]].
  rewrite filter_fenced_blocks. unfold fenced_blocks.
  rewrite rewrap_match.
  - cbn [map]. unfold fenced_block, group_or_empty, group.
    cbn [m_groups m_start lookup_group Nat.eqb firstn count_nl filter length].
    rewrite Hcode, strip_strip_nl. f_equal. f_equal.
    destruct Htag as [->|[-> ->]].
    + destruct (cb_language b); [congruence|reflexivity].
    + reflexivity.
  - destruct Htag as [->|[-> _]]; auto.
  - rewrite Hcode. now apply fence_free_strip.
Qed.

(** ** Header lines inside fenced blocks *)

Section HeadersInFences.

Lemma StronglySorted_nth {A} (R : A -> A -> Prop) (l : list A)
      (a b : nat) (x y : A) :
  StronglySorted R l ->
  nth_error l a = Some x -> nth_error l b = Some y -> a < b -> R x y.
Proof.
  intro Hs. revert a b. induction Hs as [|h t Hs IH Hh]; intros a b Ha Hb Hlt.
  - destruct a; discriminate.
  - destruct b as [|b]; [lia|]. destruct a as [|a]; simpl in *.
    + inversion Ha; subst. rewrite Forall_forall in Hh. apply Hh.
      eapply nth_error_In; eauto.
    + apply (IH a b); auto. lia.
Qed.

Lemma section_of_header (content : str) (i : nat) (h : header) :
  nth_error (extract_headers content) i = Some h ->
  exists s,
    nth_error (extract_sections content) i = Some s /\
    s_title s = h_text h /\ s_level s = h_level h /\
    s_start_line s = h_line h /\
    section_ends (extract_headers content) (length (split nl content))
                 i h (s_end_line s).
Proof.
  intro H. unfold extract_sections.
  rewrite (sections_of_nth _ _ _ _ H). eexists. split; [reflexivity|].
  cbn [s_title s_level s_start_line s_end_line]. repeat split.
  - pose proof (extract_headers_line_pos content h (nth_error_In _ _ H)).
    lia.
  - now apply section_ends_of_find.
Qed.

Lemma header_of_section (content : str) (i : nat) (s : section) :
  nth_error (extract_sections content) i = Some s ->
  exists h, nth_error (extract_headers content) i = Some h.
Proof.
  intro H. destruct (nth_error (extract_headers content) i) eqn:E; eauto.
  apply nth_error_None in E.
  assert (Hs : nth_error (extract_sections content) i <> None) by congruence.
  apply nth_error_Some in Hs. unfold extract_sections in Hs.
  rewrite sections_of_length in Hs. lia.
Qed.

End HeadersInFences.

(** C9. Header extraction does not look at fences: a line that lies
    inside a fenced code block and has the shape of a header line is
    reported as a header all the same, a section starts on it, and it
    closes every earlier section whose level is not above its own. *)
Theorem C9_header_lines_inside_fences
        (content : str) (i : nat) (line : str) (level : nat) (body : str) :
  nth_error (split nl content) i = Some line ->
  atx_line line level body ->
  inside_fence content i = true ->
  In (Header level (strip body) (i + 1)) (extract_headers content) /\
  (exists s,
      In s (extract_sections content) /\
      s_start_line s = i + 1 /\ s_level s = level /\
      s_title s = strip body) /\
  (forall s',
      In s' (extract_sections content) ->
      s_start_line s' < i + 1 -> level <= s_level s' ->
      s_end_line s' <= i).
Proof.
  intros Hline Hshape _.
  assert (Hh : In (Header level (strip body) (i + 1))
                  (extract_headers content)).
  { apply extract_headers_in. exists i, line, level, body. auto. }
  apply In_nth_error in Hh as [b Hb].
  destruct (section_of_header content b _ Hb) as [s [Hs [Ht [Hl [Hst _]]]]].
  split; [eapply nth_error_In; eauto|]. split.
  - exists s. split; [eapply nth_error_In; eauto|]. auto.
  - intros s' Hin' Hstart Hlev.
    apply In_nth_error in Hin' as [a Ha].
    destruct (header_of_section content a s' Ha) as [h' Hh'].
    destruct (section_of_header content a h' Hh')
      as [s'' [Hs'' [_ [Hl' [Hst' Hend]]]]].
    rewrite Ha in Hs''. inversion Hs''; subst s''; clear Hs''.
    pose proof (extract_headers_sorted content) as Hsorted.
    assert (Hab : a < b).
    { destruct (Nat.lt_trichotomy a b) as [Hlt|[Heq|Hgt]]; auto.
      - subst. rewrite Hb in Hh'. inversion Hh'; subst h'.
        simpl in Hst'. lia.
      - pose proof (StronglySorted_nth _ _ _ _ _ _ Hsorted Hb Hh' Hgt) as Hc.
        simpl in Hc. lia. }
    destruct Hend as [[j [hj [Hj [Hnj [Hlj [Hbetween Hend]]]]]]|[Hnone _]].
    + assert (Hjb : j <= b).
      { destruct (Nat.le_gt_cases j b); auto.
        specialize (Hbetween b _ (conj Hab H) Hb). simpl in Hbetween. lia. }
      rewrite Hend.
      destruct (Nat.eq_dec j b) as [->|Hne].
      * rewrite Hb in Hnj. inversion Hnj; subst hj. simpl. lia.
      * assert (Hlt : j < b) by lia.
        pose proof (StronglySorted_nth _ _ _ _ _ _ Hsorted Hnj Hb Hlt) as Hc.
        simpl in Hc. lia.
    + specialize (Hnone b _ Hab Hb). simpl in Hnone. lia.
Qed.

(** ** Classification *)

Section Classification.

Lemma startswith_iff (p s : str) :
  startswith p s = true <-> exists post, s = p ++ post.
Proof.
  split.
  - intro H. exists (skipn (length p) s). now apply startswith_inv.
  - intros [post ->]. apply startswith_app.
Qed.

Lemma contains_iff (needle hay : str) :
  contains needle hay = true <->
  exists pre post, hay = pre ++ needle ++ post.
Proof.
  induction hay as [|c t IH]; cbn [contains].
  - rewrite orb_false_r, startswith_iff. split.
    + intros [post H]. now exists [], post.
    + intros [pre [post H]]. destruct pre; [now exists post|discriminate].
  - rewrite orb_true_iff, startswith_iff, IH. split.
    + intros [[post H]|[pre [post H]]].
      * now exists [], post.
      * exists (c :: pre), post. simpl. now f_equal.
    + intros [[|x pre] [post H]].
      * left. now exists post.
      * right. inversion H; subst. now exists pre, post.
Qed.

Lemma mentions_iff (keyword : string) (h : header) :
  mentions keyword h = true <-> says keyword h.
Proof.
  unfold mentions, says, lower. rewrite contains_iff. split.
  - intros [pre [post H]].
    apply map_eq_app in H as [pre' [rest [Ht [Hpre Hrest]]]].
    apply map_eq_app in Hrest as [mid [post' [Hr [Hmid Hpost]]]].
    exists pre', mid, post'. subst. auto.
  - intros [pre [mid [post [Ht Hmid]]]].
    exists (map lower_char pre), (map lower_char post).
    now rewrite Ht, !map_app, Hmid.
Qed.

Lemma about_exercises_iff (headers : list header) :
  existsb (fun h => mentions "exercise" h || mentions "challenge" h) headers
  = true <-> about_exercises headers.
Proof.
  rewrite existsb_exists. unfold about_exercises.
  split; intros [h [Hin H]]; exists h; split; auto.
  - apply orb_true_iff in H. now rewrite <- !mentions_iff.
  - apply orb_true_iff. now rewrite !mentions_iff.
Qed.

Lemma about_solutions_iff (headers : list header) :
  existsb (fun h => mentions "solution" h || mentions "answer" h) headers
  = true <-> about_solutions headers.
Proof.
  rewrite existsb_exists. unfold about_solutions.
  split; intros [h [Hin H]]; exists h; split; auto.
  - apply orb_true_iff in H. now rewrite <- !mentions_iff.
  - apply orb_true_iff. now rewrite !mentions_iff.
Qed.

Lemma about_introduction_iff (headers : list header) :
  existsb (mentions "introduction") headers = true <->
  about_introduction headers.
Proof.
  rewrite existsb_exists. unfold about_introduction.
  split; intros [h [Hin H]]; exists h; split; auto;
    now apply mentions_iff.
Qed.

Lemma not_true_iff (b : bool) (P : Prop) :
  (b = true <-> P) -> b = false -> ~ P.
Proof. intros H Hb HP. apply H in HP. congruence. Qed.

(** The cascade of [_determine_content_type] is the priority rule. *)
Lemma content_type_classified (metadata : dict str)
      (headers : list header) (code_blocks : list code_block) :
  classified metadata headers code_blocks
             (_determine_content_type metadata headers code_blocks).
Proof.
  unfold _determine_content_type.
  destruct (dict_get metadata (lit "type")) as [t|] eqn:Ht;
    [now apply by_metadata|].
  destruct (existsb (fun h => mentions "exercise" h || mentions "challenge" h)
                    headers) eqn:Hex.
  - apply about_exercises_iff in Hex.
    destruct (existsb (fun h => mentions "solution" h || mentions "answer" h)
                      headers) eqn:Hsol; cbn [andb].
    + apply by_exercises_and_solutions; auto.
      now apply about_solutions_iff.
    + apply by_exercises; auto.
      exact (not_true_iff _ _ (about_solutions_iff headers) Hsol).
  - pose proof (not_true_iff _ _ (about_exercises_iff headers) Hex) as Hno.
    cbn [andb].
    destruct code_blocks as [|b bs]; cbn [length Nat.ltb Nat.leb].
    + destruct (existsb (mentions "introduction") headers) eqn:Hint.
      * apply by_introduction; auto. now apply about_introduction_iff.
      * apply by_default; auto.
        exact (not_true_iff _ _ (about_introduction_iff headers) Hint).
    + apply by_code; auto. discriminate.
Qed.

End Classification.

(** C2. On the document [# Intro], [Some text.], [## Exercise],
    [Do X.], [## Solution], [Answer.] (blank lines in between) the
    parser reports exactly three headers and exactly three sections
    and the label [tutorial_with_exercises]; and the label always
    follows the priority rule: the type given in the metadata, else
    exercises with solutions, else exercises, else code, else an
    introduction, else documentation. *)
Theorem C2_tutorial_classification :
  (forall file_path,
      let a := analyze_content_structure doc_tutorial file_path in
      length (sr_headers (a_structure a)) = 3 /\
      st_headers (a_statistics a) = 3 /\
      length (sr_sections (a_structure a)) = 3 /\
      st_sections (a_statistics a) = 3 /\
      map s_level (sr_sections (a_structure a)) = [1; 2; 2] /\
      a_content_type a = lit "tutorial_with_exercises") /\
  (forall content file_path,
      let a := analyze_content_structure content file_path in
      classified (a_metadata a) (sr_headers (a_structure a))
                 (sr_code_blocks (a_structure a)) (a_content_type a)) /\
  (forall metadata headers code_blocks,
      classified metadata headers code_blocks
                 (_determine_content_type metadata headers code_blocks)).
Proof.
  split; [|split].
  - intro file_path. vm_compute. repeat split.
  - intros content file_path. apply content_type_classified.
  - apply content_type_classified.
Qed.

(** C7 (the defect).  A hash followed by two blanks is reported as a
    header although its text is empty: in [^(#{1,6})\s+(.+)$] the
    blanks first go to [\s+], which then gives one back so that [(.+)]
    can match, and stripping that blank leaves nothing. *)
Theorem C7_blank_header_text :
  extract_headers doc_blank_header = [Header 1 [] 1] /\
  exists h, In h (extract_headers doc_blank_header) /\ h_text h = [].
Proof.
  split; [reflexivity|].
  exists (Header 1 [] 1). split; [now left|reflexivity].
Qed.

Lemma C1_sections_witness :
  section_ends (extract_headers doc_abcd) 9 1 (Header 2 (lit "B") 3) 5 /\
  exists sa sb sc sd,
    extract_sections doc_abcd = [sa; sb; sc; sd] /\
    s_title sa = lit "A" /\ s_start_line sa = 1 /\ s_end_line sa = 8 /\
    s_title sb = lit "B" /\ s_start_line sb = 3 /\ s_end_line sb = 5.
Proof.
  destruct (C1_sections_follow_headers doc_abcd) as [_ [_ [Hnth Hex]]].
  split.
  - exact (proj1 (proj2 (proj2 (proj2
             (Hnth 1 (Header 2 (lit "B") 3)
                   (Section_ (lit "B") 2
                             (join [nl] (map lit ["## B"; "text"; "text"]%string))
                             3 5)
                   eq_refl eq_refl))))).
  - apply Hex. reflexivity.
Defined.

Lemma C8_reparse_witness :
  filter is_fenced
         (extract_code_blocks
            (rewrap (lit "python")
                    (join [nl] (map lit ["x = 1"; "# install"]%string)))) =
  [CodeBlock (lit "python")
             (join [nl] (map lit ["x = 1"; "# install"]%string)) 1 fenced].
Proof.
  apply (C8_fenced_extraction_idempotent
           doc_fenced_header
           (CodeBlock (lit "python")
                      (join [nl] (map lit ["x = 1"; "# install"]%string))
                      3 fenced)
           (lit "python")).
  - vm_compute. now left.
  - reflexivity.
  - now left.
Defined.

Lemma C9_fence_witness :
  In (Header 1 (lit "install") 5) (extract_headers doc_fenced_header) /\
  (exists s,
      In s (extract_sections doc_fenced_header) /\
      s_start_line s = 5 /\ s_level s = 1 /\ s_title s = lit "install") /\
  (forall s',
      In s' (extract_sections doc_fenced_header) ->
      s_start_line s' < 5 -> 1 <= s_level s' -> s_end_line s' <= 4).
Proof.
  apply (C9_header_lines_inside_fences
           doc_fenced_header 4 (lit "# install") 1 (lit " install")).
  - reflexivity.
  - unfold atx_line. split; [reflexivity|]. split; [lia|].
    exists " "%char, (lit "install"). repeat split. discriminate.
  - vm_compute. reflexivity.
Defined.

Lemma C10_order_witness :
  ~ StronglySorted (fun a b => cb_line a <= cb_line b)
      (extract_code_blocks doc_fenced_header).
Proof.
  apply (proj2 (C10_fenced_before_indented doc_fenced_header)
               (CodeBlock (lit "text") (lit "indented") 1 indented)
               (CodeBlock (lit "python")
                          (join [nl] (map lit ["x = 1"; "# install"]%string))
                          3 fenced)).
  - vm_compute. right. now left.
  - vm_compute. now left.
  - reflexivity.
  - reflexivity.
  - simpl. lia.
Defined.

(** ** Dictionaries *)

Section Dicts.

Lemma str_eqb_eq (a b : str) : str_eqb a b = true <-> a = b.
Proof.
  unfold str_eqb. destruct (list_eq_dec ascii_dec a b); split; auto.
  discriminate.
Qed.

Lemma str_eqb_refl (a : str) : str_eqb a a = true.
Proof. now apply str_eqb_eq. Qed.

Lemma str_eqb_neq (a b : str) : a <> b -> str_eqb a b = false.
Proof.
  intro H. destruct (str_eqb a b) eqn:E; auto.
  apply str_eqb_eq in E. contradiction.
Qed.

Context {V : Type}.

Lemma dict_get_set_same (d : dict V) (k : str) (v : V) :
  dict_get (dict_set d k v) k = Some v.
Proof.
  induction d as [|[k' v'] t IH]; simpl.
  - now rewrite str_eqb_refl.
  - destruct (str_eqb k' k) eqn:E; simpl; now rewrite E.
Qed.

Lemma dict_get_set_other (d : dict V) (k k' : str) (v : V) :
  k <> k' -> dict_get (dict_set d k v) k' = dict_get d k'.
Proof.
  intro H. induction d as [|[k0 v0] t IH]; simpl.
  - now rewrite str_eqb_neq.
  - destruct (str_eqb k0 k) eqn:E; simpl.
    + apply str_eqb_eq in E. subst. now rewrite str_eqb_neq.
    + now rewrite IH.
Qed.

Lemma keys_dict_set_new (d : dict V) (k : str) (v : V) :
  ~ In k (keys d) -> keys (dict_set d k v) = keys d ++ [k].
Proof.
  induction d as [|[k0 v0] t IH]; simpl; intro H; auto.
  rewrite str_eqb_neq by tauto. simpl. f_equal. apply IH. tauto.
Qed.

Lemma dict_get_in (d : dict V) (k : str) (v : V) :
  NoDup (keys d) -> In (k, v) d -> dict_get d k = Some v.
Proof.
  induction d as [|[k0 v0] t IH]; simpl; intros Hnd Hin; [easy|].
  inversion Hnd; subst. destruct Hin as [Heq|Hin].
  - inversion Heq; subst. now rewrite str_eqb_refl.
  - rewrite str_eqb_neq; auto. intros ->. apply H1.
    change k with (fst (k, v)). now apply in_map.
Qed.

Lemma NoDup_app_cons {A} (l1 : list A) (x : A) (l2 : list A) :
  NoDup (l1 ++ x :: l2) -> NoDup ((l1 ++ [x]) ++ l2) /\ ~ In x l1 /\ ~ In x l2.
Proof.
  intro H. rewrite <- app_assoc. split; auto.
  apply NoDup_remove_2 in H. split; intro Hin; apply H, in_or_app; auto.
Qed.

End Dicts.

(** ** The response normaliser *)

(** C3 (as stated, refuted).  Under the label [structured] the fence
    is not recognised: the normaliser reports a failure, not the empty
    suggestion list. *)
Lemma C3_structured_label_not_recognised :
  _parse_json_response response_structured = Ret JNull /\
  ~ exists members,
      _parse_json_response response_structured = Ret (JObj members).
Proof.
  assert (H : _parse_json_response response_structured = Ret JNull)
    by (vm_compute; reflexivity).
  split; [exact H|]. intros [members Hm]. rewrite H in Hm. discriminate.
Qed.

(** C3 (amended).  Given a fence line labelled [json], the line
    [{"suggestions":[]}] and a closing fence line, the normaliser
    returns the parsed object, whose suggestion list is empty; given
    [not json at all] it returns [None] and raises nothing. *)
Theorem C3_fenced_json_response :
  _parse_json_response response_json
  = Ret (JObj [(lit "suggestions", JArr [])]) /\
  _parse_json_response response_prose = Ret JNull.
Proof. split; vm_compute; reflexivity. Qed.

(** ** The notebook parser *)

Section Notebooks.

(** Text that is not JSON gives the failure marker. *)
Lemma malformed_json_fails (content file_path : str) :
  json_loads content = Raise JSONDecodeError ->
  NotebookParser.load_notebook content = Ret JNull /\
  NotebookParser.analyze_notebook_structure content file_path
  = Ret (NotebookParser.Failed (lit "Failed to load notebook")).
Proof.
  intro H.
  assert (Hl : NotebookParser.load_notebook content = Ret JNull).
  { unfold NotebookParser.load_notebook. now rewrite H. }
  split; [exact Hl|].
  unfold NotebookParser.analyze_notebook_structure. now rewrite Hl.
Qed.

End Notebooks.

(** C6 (the defect).  JSON that is no notebook is not turned away:
    [{"a": 1}] is loaded as it is and the analysis then raises
    [AttributeError] on the missing [cells], and [{"cells": []}],
    which lacks the fields every notebook must have, is analysed as
    if it were one. *)
Theorem C6_unvalidated_notebook (file_path : str) :
  NotebookParser.load_notebook not_a_notebook
  = Ret (JObj [(lit "a", JInt 1)]) /\
  NotebookParser.analyze_notebook_structure not_a_notebook file_path
  = Raise AttributeError /\
  exists a,
    NotebookParser.analyze_notebook_structure cells_only file_path
    = Ret (NotebookParser.Analysed a).
Proof.
  split; [vm_compute; reflexivity|]. split; [vm_compute; reflexivity|].
  eexists. vm_compute. reflexivity.
Qed.

(** ** The orchestrator *)

Section Orchestration.

Context {backend : Type}.
Variable generate_content : backend -> str -> result (option str) * backend.
Variable get_primary_analysis_prompt : str -> json -> str -> str.

#[local] Abbreviation analyze_content' :=
  (analyze_content generate_content get_primary_analysis_prompt).
#[local] Abbreviation analyze_item' :=
  (analyze_item generate_content get_primary_analysis_prompt).
#[local] Abbreviation analyze_items' :=
  (analyze_items generate_content get_primary_analysis_prompt).

(** One request per call of the client. *)
Lemma analyze_content_calls (content file_path : str) (title : json)
      (w : world backend) :
  exists prompt,
    w_calls (snd (analyze_content' content file_path title w))
    = w_calls w ++ [Call file_path prompt].
Proof.
  unfold analyze_content.
  destruct (generate_content _ _) as [response b]. eexists.
  destruct response as [[text|]|e]; try reflexivity.
  destruct (is_nonempty text); try reflexivity.
  destruct (_parse_json_response text) as [parsed|e]; try reflexivity.
  destruct (truthy parsed); reflexivity.
Qed.

(** A backend error is reported as [None]. *)
Lemma analyze_content_failure (content file_path : str) (title : json)
      (w : world backend) :
  (forall prompt, exists e b,
      generate_content (w_backend w) prompt = (Raise e, b)) ->
  fst (analyze_content' content file_path title w) = JNull.
Proof.
  intro H. unfold analyze_content.
  destruct (H (get_primary_analysis_prompt content
                 (if truthy title then title
                  else JStr (last (split "/" file_path) []))
                 file_path)) as [e [b ->]].
  reflexivity.
Qed.

Lemma analyze_item_short (file_path : str) (content_data : entry)
      (w : world backend) :
  length (strip (payload content_data)) < 100 ->
  analyze_item' file_path content_data w = (JNull, w).
Proof.
  intro H. destruct content_data as [e c|p]; simpl in *; auto.
  apply Nat.ltb_lt in H. now rewrite H.
Qed.

Lemma analyze_item_error (file_path : str) (e : exn) (c : str)
      (w : world backend) :
  analyze_item' file_path (ErrorEntry e c) w = (JNull, w).
Proof. reflexivity. Qed.

Lemma analyze_item_failure (file_path : str) (content_data : entry)
      (w : world backend) :
  (forall prompt, exists e b,
      generate_content (w_backend w) prompt = (Raise e, b)) ->
  fst (analyze_item' file_path content_data w) = JNull.
Proof.
  intro H. destruct content_data as [e c|p]; simpl; auto.
  destruct (_ <? 100); auto. now apply analyze_content_failure.
Qed.

Lemma analyze_item_calls (file_path : str) (content_data : entry)
      (w : world backend) (c : call) :
  In c (w_calls (snd (analyze_item' file_path content_data w))) ->
  In c (w_calls w) \/
  (call_file c = file_path /\ 100 <= length (strip (payload content_data))).
Proof.
  destruct content_data as [e t|p]; cbn [analyze_item payload snd]; auto.
  destruct (_ <? 100) eqn:E; cbn [snd]; auto.
  apply Nat.ltb_ge in E.
  destruct (analyze_content_calls (p_processed_content p) file_path
              (match dict_get (p_metadata p) (lit "title") with
               | Some t => t
               | None => JStr file_path
               end) w) as [prompt ->].
  intro H. apply in_app_or in H as [H|[<-|[]]]; auto.
Qed.

(** The loop of [_analyze_with_ai]: one entry per file, each
    computed from that file's entry alone, and requests only for
    the files with a payload of 100 characters or more. *)
Lemma analyze_items_spec (items : list (str * entry)) (acc : dict json)
      (w : world backend) :
  NoDup (keys acc ++ keys items) ->
  keys (fst (analyze_items' items acc w)) = keys acc ++ keys items /\
  (forall f e, In (f, e) items ->
     exists wi,
       dict_get (fst (analyze_items' items acc w)) f
       = Some (fst (analyze_item' f e wi))) /\
  (forall k, ~ In k (keys items) ->
     dict_get (fst (analyze_items' items acc w)) k = dict_get acc k) /\
  (forall c, In c (w_calls (snd (analyze_items' items acc w))) ->
     In c (w_calls w) \/
     exists e, In (call_file c, e) items /\
               100 <= length (strip (payload e))).
Proof.
  revert acc w. induction items as [|[f e] rest IH]; intros acc w Hnd.
  - simpl. rewrite app_nil_r. repeat split; auto. intros g e' [].
  - cbn [analyze_items].
    destruct (analyze_item' f e w) as [r w1] eqn:Hitem.
    cbn [keys map fst] in Hnd.
    apply NoDup_app_cons in Hnd as [Hnd [Hacc Hrest]].
    assert (Hkeys : keys (dict_set acc f r) = keys acc ++ [f])
      by now apply keys_dict_set_new.
    specialize (IH (dict_set acc f r) w1).
    rewrite Hkeys in IH. destruct (IH Hnd) as [IH1 [IH2 [IH3 IH4]]].
    repeat split.
    + rewrite IH1. cbn [keys map fst]. now rewrite <- app_assoc.
    + intros g e' [Heq|Hin]; [|now apply IH2].
      inversion Heq; subst g e'. exists w.
      rewrite IH3 by exact Hrest. rewrite dict_get_set_same.
      now rewrite Hitem.
    + intros k Hk. cbn [keys map fst] in Hk.
      rewrite IH3 by (intro Hin; apply Hk; now right).
      apply dict_get_set_other. intros ->. apply Hk. now left.
    + intros c Hc. apply IH4 in Hc as [Hc|[e' [Hin Hlen]]].
      * replace w1 with (snd (analyze_item' f e w)) in Hc
          by now rewrite Hitem.
        apply analyze_item_calls in Hc as [Hc|[Hf Hlen]]; auto.
        right. exists e. split; auto. left. now rewrite Hf.
      * right. exists e'. split; auto. now right.
Qed.

(** The loop of [_process_all_content]: one entry per file, each
    computed from that file alone. *)
Lemma process_items_spec (items : dict str) (acc : dict entry) :
  NoDup (keys acc ++ keys items) ->
  keys (fold_left process_item items acc) = keys acc ++ keys items /\
  (forall f c, In (f, c) items ->
     dict_get (fold_left process_item items acc) f
     = Some (process_entry f c)) /\
  (forall k, ~ In k (keys items) ->
     dict_get (fold_left process_item items acc) k = dict_get acc k).
Proof.
  revert acc. induction items as [|[f c] rest IH]; intros acc Hnd.
  - simpl. rewrite app_nil_r. repeat split; auto. intros g c' [].
  - cbn [fold_left process_item].
    cbn [keys map fst] in Hnd.
    apply NoDup_app_cons in Hnd as [Hnd [Hacc Hrest]].
    assert (Hkeys : keys (dict_set acc f (process_entry f c))
                    = keys acc ++ [f])
      by now apply keys_dict_set_new.
    specialize (IH (dict_set acc f (process_entry f c))).
    rewrite Hkeys in IH. destruct (IH Hnd) as [IH1 [IH2 IH3]].
    repeat split.
    + rewrite IH1. cbn [keys map fst]. now rewrite <- app_assoc.
    + intros g c' [Heq|Hin]; [|now apply IH2].
      inversion Heq; subst g c'.
      rewrite IH3 by exact Hrest. apply dict_get_set_same.
    + intros k Hk. cbn [keys map fst] in Hk.
      rewrite IH3 by (intro Hin; apply Hk; now right).
      apply dict_get_set_other. intros ->. apply Hk. now left.
Qed.

Lemma NoDup_keys_unique {V} (d : dict V) (k : str) (v v' : V) :
  NoDup (keys d) -> In (k, v) d -> In (k, v') d -> v = v'.
Proof.
  intros Hnd H1 H2.
  apply (dict_get_in d k v Hnd) in H1. apply (dict_get_in d k v' Hnd) in H2.
  congruence.
Qed.

End Orchestration.

(** C4 (as stated, refuted).  A skipped file and a file whose backend
    request failed leave the same result set: for the 50-character
    text no request is made, for the 120-character text one request
    is made and fails, and both runs record [None] for the file. *)
Lemma C4_skip_recorded_like_failure :
  length (strip short_text) = 50 /\
  length (strip long_text) = 120 /\
  w_calls (snd (analyze_batch backend_down prompt_of
                              [(lit "notes.md", short_text)] world0)) = [] /\
  length (w_calls (snd (analyze_batch backend_down prompt_of
                                      [(lit "notes.md", long_text)] world0)))
  = 1 /\
  fst (analyze_batch backend_down prompt_of
                     [(lit "notes.md", short_text)] world0)
  = [(lit "notes.md", JNull)] /\
  fst (analyze_batch backend_down prompt_of
                     [(lit "notes.md", long_text)] world0)
  = [(lit "notes.md", JNull)].
Proof. repeat split; vm_compute; reflexivity. Qed.

(** C4 (amended).  For every file whose payload, once trimmed, is
    shorter than 100 characters, the orchestrator sends no request to
    the backend for that file and records [None] for it; a file whose
    backend request fails is recorded with the same [None], so the
    result set does not tell the two apart. *)
Theorem C4_short_payload_skipped
        {backend : Type}
        (generate_content : backend -> str -> result (option str) * backend)
        (get_primary_analysis_prompt : str -> json -> str -> str)
        (processed_content : dict entry) (w : world backend)
        (file_path : str) (content_data : entry) :
  NoDup (keys processed_content) ->
  In (file_path, content_data) processed_content ->
  length (strip (payload content_data)) < 100 ->
  let run := _analyze_with_ai generate_content get_primary_analysis_prompt
                              processed_content w in
  dict_get (fst run) file_path = Some JNull /\
  (forall c, In c (w_calls (snd run)) -> call_file c = file_path ->
             In c (w_calls w)) /\
  (forall other w',
      (forall prompt, exists e b,
          generate_content (w_backend w') prompt = (Raise e, b)) ->
      fst (analyze_item generate_content get_primary_analysis_prompt
                        file_path other w') = JNull).
Proof.
  intros Hnd Hin Hshort. cbv zeta. unfold _analyze_with_ai.
  destruct (analyze_items_spec generate_content get_primary_analysis_prompt
              processed_content [] w Hnd) as [_ [Hval [_ Hcalls]]].
  repeat split.
  - destruct (Hval _ _ Hin) as [wi ->].
    now rewrite analyze_item_short.
  - intros c Hc Hfile. apply Hcalls in Hc as [Hc|[e [He Hlen]]]; auto.
    rewrite Hfile in He.
    rewrite (NoDup_keys_unique _ _ _ _ Hnd Hin He) in Hshort. lia.
  - intros other w' Hdown. now apply analyze_item_failure.
Qed.

Lemma C4_skip_witness :
  dict_get (fst (_analyze_with_ai backend_ok prompt_of
                   (_process_all_content [(lit "notes.md", short_text)])
                   world0))
           (lit "notes.md") = Some JNull /\
  w_calls (snd (_analyze_with_ai backend_ok prompt_of
                  (_process_all_content [(lit "notes.md", short_text)])
                  world0)) = [].
Proof.
  destruct (C4_short_payload_skipped
              backend_ok prompt_of
              (_process_all_content [(lit "notes.md", short_text)]) world0
              (lit "notes.md")
              (process_entry (lit "notes.md") short_text))
    as [Hnone _].
  - vm_compute. repeat constructor. intros [].
  - vm_compute. now left.
  - vm_compute. lia.
  - split; [exact Hnone|]. vm_compute. reflexivity.
Defined.

(** C5. Failures stay with their file.  For every batch the
    orchestrator returns a result set with one entry per input file,
    in the order of the input; a file whose processing raises is
    kept with the error and its raw content and gets [None] as its
    result; a file whose backend request fails gets [None]; and the
    entry of every file is computed from that file's own content.  In
    particular, with three files of which the second raises while it
    is parsed, the first and the third get their analysis and the
    second gets [None]. *)
Theorem C5_failures_isolated
        {backend : Type}
        (generate_content : backend -> str -> result (option str) * backend)
        (get_primary_analysis_prompt : str -> json -> str -> str)
        (content_map : dict str) (w : world backend) :
  NoDup (keys content_map) ->
  let processed := _process_all_content content_map in
  let results :=
    fst (_analyze_with_ai generate_content get_primary_analysis_prompt
                          processed w) in
  keys processed = keys content_map /\
  keys results = keys content_map /\
  (forall f c e,
      In (f, c) content_map -> _process_single_content f c = Raise e ->
      dict_get processed f = Some (ErrorEntry e c) /\
      dict_get results f = Some JNull) /\
  (forall f c p,
      In (f, c) content_map -> _process_single_content f c = Ret p ->
      dict_get processed f = Some (Entry p) /\
      exists wi,
        dict_get results f
        = Some (fst (analyze_item generate_content
                       get_primary_analysis_prompt f (Entry p) wi))) /\
  (forall f content_data w',
      (forall prompt, exists e b,
          generate_content (w_backend w') prompt = (Raise e, b)) ->
      fst (analyze_item generate_content get_primary_analysis_prompt
                        f content_data w') = JNull) /\
  (_process_single_content (lit "broken.ipynb") not_a_notebook
   = Raise AttributeError /\
   fst (analyze_batch backend_ok prompt_of three_files world0)
   = [(lit "intro.md", JObj [(lit "suggestions", JArr [])]);
      (lit "broken.ipynb", JNull);
      (lit "setup.md", JObj [(lit "suggestions", JArr [])])]).
Proof.
  intro Hnd. cbv zeta. unfold _process_all_content, _analyze_with_ai.
  destruct (process_items_spec content_map [] Hnd) as [Hk [Hv _]].
  simpl in Hk.
  assert (Hnd' : NoDup (keys (fold_left process_item content_map [])))
    by now rewrite Hk.
  destruct (analyze_items_spec generate_content get_primary_analysis_prompt
              (fold_left process_item content_map []) [] w Hnd')
    as [Hk' [Hv' _]].
  simpl in Hk'. rewrite Hk in Hk'.
  assert (Hentry : forall f c,
             In (f, c) content_map ->
             In (f, process_entry f c)
                (fold_left process_item content_map [])).
  { intros f c Hin. specialize (Hv _ _ Hin).
    clear -Hv. induction (fold_left process_item content_map [])
      as [|[k v] t IH]; simpl in *; [discriminate|].
    destruct (str_eqb k f) eqn:E.
    - apply str_eqb_eq in E. inversion Hv; subst. now left.
    - right. now apply IH. }
  repeat split; auto.
  - rewrite (Hv _ _ H). unfold process_entry. now rewrite H0.
  - destruct (Hv' _ _ (Hentry _ _ H)) as [wi ->].
    unfold process_entry. now rewrite H0.
  - rewrite (Hv _ _ H). unfold process_entry. now rewrite H0.
  - destruct (Hv' _ _ (Hentry _ _ H)) as [wi Hwi]. exists wi.
    rewrite Hwi. unfold process_entry. now rewrite H0.
  - intros f content_data w' Hdown. now apply analyze_item_failure.
Qed.

Lemma C5_three_files_witness :
  keys (fst (_analyze_with_ai backend_ok prompt_of
               (_process_all_content three_files) world0))
  = [lit "intro.md"; lit "broken.ipynb"; lit "setup.md"] /\
  dict_get (fst (_analyze_with_ai backend_ok prompt_of
                   (_process_all_content three_files) world0))
           (lit "broken.ipynb") = Some JNull.
Proof.
  destruct (C5_failures_isolated backend_ok prompt_of three_files world0)
    as [_ [Hkeys [Hraise _]]].
  - vm_compute. repeat constructor; simpl; intuition discriminate.
  - split; [exact Hkeys|].
    apply (Hraise (lit "broken.ipynb") not_a_notebook AttributeError).
    + vm_compute. right. now left.
    + vm_compute. reflexivity.
Defined.

(** ** The decoder never runs out of fuel *)

Section DecoderFuel.

Lemma skip_ws_length (s : str) : length (skip_ws s) <= length s.
Proof.
  unfold skip_ws. destruct (lstrip_by_suffix is_json_ws s) as [a [H _]].
  rewrite H at 2. rewrite length_app. lia.
Qed.

Lemma span_digits_length (s : str) :
  length (snd (span_digits s)) <= length s.
Proof.
  induction s as [|c t IH]; simpl; auto.
  destruct (is_digit c); simpl; auto.
  destruct (span_digits t); simpl in *. lia.
Qed.

Lemma strip_prefix_length (p s rest : str) :
  strip_prefix p s = Some rest -> length s = length p + length rest.
Proof.
  rewrite strip_prefix_startswith.
  destruct (startswith p s) eqn:E; [|discriminate].
  intro H. inversion H; subst. apply startswith_inv in E.
  rewrite E at 1. now rewrite length_app.
Qed.

Lemma scanstring_length (s acc x rest : str) :
  scanstring s acc = Ret (x, rest) -> length rest < length s.
Proof.
  enough (Haux : forall n s acc,
             length s <= n -> scanstring s acc = Ret (x, rest) ->
             length rest < length s) by (apply (Haux (length s)); lia).
  clear s acc. induction n as [|n IHn]; intros s acc Hle H;
    (destruct s as [|c t]; [discriminate|]); [simpl in Hle; lia|].
  assert (IH : forall y, length y < length (c :: t) ->
               forall a, scanstring y a = Ret (x, rest) ->
                         length rest < length y).
  { intros y Hy a Ha. apply (IHn y a); auto. simpl in *. lia. }
  cbn [scanstring] in H.
  assert (Hrec : forall u a, length u < length (c :: t) ->
                   scanstring u a = Ret (x, rest) ->
                   length rest < length (c :: t)).
  { intros u a Hu Hs. apply IH in Hs; auto. lia. }
  destruct (Ascii.eqb c dquote).
  { inversion H; subst. simpl. lia. }
  destruct (Ascii.eqb c backslash).
  - destruct t as [|e t']; [discriminate|].
    repeat match type of H with
           | (if ?b then _ else _) = _ =>
               destruct b; [try (apply Hrec in H; [exact H|simpl; lia])|]
           end; try discriminate.
    destruct t' as [|h1 [|h2 [|h3 [|h4 t'']]]]; try discriminate.
    destruct (hex4 h1 h2 h3 h4); [|discriminate].
    destruct (_ <? 256); [|discriminate].
    apply Hrec in H; [exact H|simpl; lia].
  - destruct (_ <? 32); [discriminate|].
    apply Hrec in H; [exact H|simpl; lia].
Qed.

Lemma scanstring_fuel (s acc : str) :
  scanstring s acc <> Raise out_of_fuel.
Proof.
  enough (Haux : forall n s acc,
             length s <= n -> scanstring s acc <> Raise out_of_fuel)
    by (apply (Haux (length s)); lia).
  clear s acc. induction n as [|n IHn]; intros s acc Hle;
    (destruct s as [|c t]; [discriminate|]); [simpl in Hle; lia|].
  assert (IH : forall y, length y < length (c :: t) ->
               forall a, scanstring y a <> Raise out_of_fuel).
  { intros y Hy a. apply (IHn y a). simpl in *. lia. }
  cbn [scanstring].
  assert (Hrec : forall u a, length u < length (c :: t) ->
                   scanstring u a <> Raise out_of_fuel)
    by (intros; now apply IH).
  destruct (Ascii.eqb c dquote); [discriminate|].
  destruct (Ascii.eqb c backslash).
  - destruct t as [|e t']; [discriminate|].
    repeat match goal with
           | |- (if ?b then _ else _) <> _ =>
               destruct b; [try (apply Hrec; simpl; lia)|]
           end; try discriminate.
    destruct t' as [|h1 [|h2 [|h3 [|h4 t'']]]]; try discriminate.
    destruct (hex4 h1 h2 h3 h4); [|discriminate].
    destruct (_ <? 256); [|discriminate].
    apply Hrec. simpl. lia.
  - destruct (_ <? 32); [discriminate|]. apply Hrec. simpl. lia.
Qed.

Lemma word_length (w : string) (v v' : json) (s rest : str) :
  lit w <> [] -> word w v s = Some (v', rest) -> length rest < length s.
Proof.
  intros Hw. unfold word.
  destruct (strip_prefix (lit w) s) as [r|] eqn:E; [|discriminate].
  intro H. inversion H; subst. apply strip_prefix_length in E.
  destruct (lit w); [congruence|]. simpl in E. lia.
Qed.

Lemma parse_number_length (s : str) (v : json) (rest : str) :
  parse_number s = Some (v, rest) -> length rest < length s.
Proof.
  unfold parse_number.
  set (sign := match s with
               | c :: t => if Ascii.eqb c "-" then (true, t) else (false, s)
               | [] => (false, s)
               end).
  assert (Hsign : length (snd sign) <= length s).
  { unfold sign. destruct s as [|c t]; simpl; auto.
    destruct (Ascii.eqb c "-"); simpl; lia. }
  destruct sign as [negative s1]. cbn [snd] in Hsign.
  set (integer := match s1 with
                  | c :: t =>
                      if Ascii.eqb c "0" then Some ([c], t)
                      else if is_digit c then Some (span_digits s1)
                      else None
                  | [] => None
                  end).
  assert (Hint : forall ds s2, integer = Some (ds, s2) ->
                               length s2 < length s1).
  { unfold integer. intros ds s2. destruct s1 as [|c t]; [discriminate|].
    destruct (Ascii.eqb c "0").
    - intro H. inversion H; subst. simpl. lia.
    - destruct (is_digit c) eqn:Ed; [|discriminate].
      intro H. inversion H as [Hsp].
      pose proof (span_digits_length t) as Ht.
      cbn [span_digits] in Hsp. rewrite Ed in Hsp.
      destruct (span_digits t) as [d r]. inversion Hsp; subst.
      simpl in *. lia. }
  destruct integer as [[ds s2]|]; [|discriminate].
  specialize (Hint ds s2 eq_refl).
  set (fr := match s2 with
             | c :: t =>
                 if Ascii.eqb c "." then
                   match span_digits t with
                   | ([], _) => ([], s2)
                   | (fs, r) => (fs, r)
                   end
                 else ([], s2)
             | [] => ([], s2)
             end).
  assert (Hfr : length (snd fr) <= length s2).
  { unfold fr. destruct s2 as [|c t]; simpl; auto.
    destruct (Ascii.eqb c "."); simpl; auto.
    pose proof (span_digits_length t).
    destruct (span_digits t) as [[|d fs] r]; simpl in *; lia. }
  destruct fr as [frac s3]. cbn [snd] in Hfr.
  set (ex := match s3 with
             | c :: t =>
                 if Ascii.eqb c "e" || Ascii.eqb c "E" then
                   let (exp_negative, t') :=
                     match t with
                     | sg :: u =>
                         if Ascii.eqb sg "-" then (true, u)
                         else if Ascii.eqb sg "+" then (false, u)
                         else (false, t)
                     | [] => (false, t)
                     end in
                   match span_digits t' with
                   | ([], _) => (false, 0%Z, s3)
                   | (es, r) =>
                       (true,
                        if exp_negative then (- digits_val es)%Z
                        else digits_val es,
                        r)
                   end
                 else (false, 0%Z, s3)
             | [] => (false, 0%Z, s3)
             end).
  assert (Hex : length (snd ex) <= length s3).
  { unfold ex. destruct s3 as [|c t]; simpl; auto.
    destruct (Ascii.eqb c "e" || Ascii.eqb c "E"); simpl; auto.
    set (sg := match t with
               | sg :: u =>
                   if Ascii.eqb sg "-" then (true, u)
                   else if Ascii.eqb sg "+" then (false, u)
                   else (false, t)
               | [] => (false, t)
               end).
    assert (Hsg : length (snd sg) <= length t).
    { unfold sg. destruct t as [|x u]; simpl; auto.
      destruct (Ascii.eqb x "-"); simpl; [lia|].
      destruct (Ascii.eqb x "+"); simpl; lia. }
    destruct sg as [en t']. cbn [snd] in Hsg.
    pose proof (span_digits_length t').
    destruct (span_digits t') as [[|d es] r]; simpl in *; lia. }
  destruct ex as [[has_exp e] s4]. cbn [snd] in Hex.
  destruct (is_nonempty frac || has_exp); intro H; inversion H; subst; lia.
Qed.

Lemma parse_atom_length (s : str) (v : json) (rest : str) :
  parse_atom s = Ret (v, rest) -> length rest < length s.
Proof.
  unfold parse_atom, first_of.
  repeat match goal with
         | |- context [word ?w ?x s] =>
             let E := fresh "E" in
             destruct (word w x s) as [[? ?]|] eqn:E;
             [apply word_length in E; [|discriminate];
              intro H; inversion H; subst; exact E|]
         | |- context [parse_number s] =>
             let E := fresh "E" in
             destruct (parse_number s) as [[? ?]|] eqn:E;
             [apply parse_number_length in E;
              intro H; inversion H; subst; exact E|]
         end.
  discriminate.
Qed.

Lemma parse_atom_fuel (s : str) : parse_atom s <> Raise out_of_fuel.
Proof. unfold parse_atom. destruct (first_of _ _); discriminate. Qed.

(** With fuel above twice the length of the text, parsing consumes
    text and never stops for lack of fuel. *)
Lemma parse_fuel (fuel : nat) :
  (forall s, 2 * length s < fuel ->
     parse_value fuel s <> Raise out_of_fuel /\
     forall v rest, parse_value fuel s = Ret (v, rest) ->
                    length rest < length s) /\
  (forall s acc, 2 * length s < fuel ->
     parse_members fuel s acc <> Raise out_of_fuel /\
     forall m rest, parse_members fuel s acc = Ret (m, rest) ->
                    length rest < length s) /\
  (forall s acc, 2 * length s + 1 < fuel ->
     parse_items fuel s acc <> Raise out_of_fuel /\
     forall l rest, parse_items fuel s acc = Ret (l, rest) ->
                    length rest < length s).
Proof.
  induction fuel as [|fuel [IHv [IHm IHi]]];
    [repeat split; intros; lia|].
  split; [|split].
  - intros s Hlen. cbn [parse_value].
    destruct s as [|c t]; [split; [discriminate|intros; discriminate]|].
    destruct (Ascii.eqb c dquote).
    { destruct (scanstring t []) as [[x r]|e] eqn:E; cbn [bind].
      - apply scanstring_length in E. split; [discriminate|].
        intros v rest H. inversion H; subst. simpl in *. lia.
      - split; [|intros; discriminate].
        intro H. inversion H; subst. now apply scanstring_fuel in E. }
    destruct (Ascii.eqb c "{").
    { pose proof (skip_ws_length t) as Hws.
      destruct (skip_ws t) as [|c' t']; [split; intros; discriminate|].
      destruct (Ascii.eqb c' "}").
      - split; [discriminate|]. intros v rest H. inversion H; subst.
        simpl in *. lia.
      - destruct (Ascii.eqb c' dquote); [|split; intros; discriminate].
        destruct (IHm t' [] ltac:(simpl in *; lia)) as [Hf Hl].
        destruct (parse_members fuel t' []) as [[m r]|e] eqn:E; cbn [bind].
        + split; [discriminate|]. intros v rest H. inversion H; subst.
          specialize (Hl _ _ eq_refl). simpl in *. lia.
        + split; [congruence|intros; discriminate]. }
    destruct (Ascii.eqb c "[").
    { pose proof (skip_ws_length t) as Hws.
      destruct (skip_ws t) as [|c' t'] eqn:Et;
        [split; intros; discriminate|].
      destruct (Ascii.eqb c' "]").
      - split; [discriminate|]. intros v rest H. inversion H; subst.
        simpl in *. lia.
      - destruct (IHi (c' :: t') [] ltac:(simpl in *; lia)) as [Hf Hl].
        destruct (parse_items fuel (c' :: t') []) as [[l r]|e] eqn:E;
          cbn [bind].
        + split; [discriminate|]. intros v rest H. inversion H; subst.
          specialize (Hl _ _ eq_refl). simpl in *. lia.
        + split; [congruence|intros; discriminate]. }
    split; [apply parse_atom_fuel|].
    intros v rest H. now apply parse_atom_length in H.
  - intros s acc Hlen. cbn [parse_members].
    destruct (scanstring s []) as [[k r]|e] eqn:Ek; cbn [bind fst snd].
    2:{ split; [|intros; discriminate].
        intro H. inversion H; subst. now apply scanstring_fuel in Ek. }
    apply scanstring_length in Ek.
    pose proof (skip_ws_length r) as Hws.
    destruct (skip_ws r) as [|c t]; [split; intros; discriminate|].
    destruct (Ascii.eqb c ":"); [|split; intros; discriminate].
    pose proof (skip_ws_length t) as Hws'.
    destruct (IHv (skip_ws t) ltac:(simpl in *; lia)) as [Hf Hl].
    destruct (parse_value fuel (skip_ws t)) as [[v r']|e] eqn:Ev;
      cbn [bind fst snd]; [|split; [congruence|intros; discriminate]].
    specialize (Hl _ _ eq_refl).
    pose proof (skip_ws_length r') as Hws''.
    destruct (skip_ws r') as [|c' t']; [split; intros; discriminate|].
    destruct (Ascii.eqb c' "}").
    { split; [discriminate|]. intros m rest H. inversion H; subst.
      simpl in *. lia. }
    destruct (Ascii.eqb c' ","); [|split; intros; discriminate].
    pose proof (skip_ws_length t') as Hws3.
    destruct (skip_ws t') as [|q t'']; [split; intros; discriminate|].
    destruct (Ascii.eqb q dquote); [|split; intros; discriminate].
    destruct (IHm t'' (dict_set acc k v) ltac:(simpl in *; lia))
      as [Hf' Hl'].
    split; [exact Hf'|]. intros m rest H. apply Hl' in H.
    simpl in *. lia.
  - intros s acc Hlen. cbn [parse_items].
    destruct (IHv s ltac:(lia)) as [Hf Hl].
    destruct (parse_value fuel s) as [[v r]|e] eqn:Ev;
      cbn [bind fst snd]; [|split; [congruence|intros; discriminate]].
    specialize (Hl _ _ eq_refl).
    pose proof (skip_ws_length r) as Hws.
    destruct (skip_ws r) as [|c t]; [split; intros; discriminate|].
    destruct (Ascii.eqb c "]").
    { split; [discriminate|]. intros l rest H. inversion H; subst.
      simpl in *. lia. }
    destruct (Ascii.eqb c ","); [|split; intros; discriminate].
    pose proof (skip_ws_length t) as Hws'.
    destruct (IHi (skip_ws t) (acc ++ [v]) ltac:(simpl in *; lia))
      as [Hf' Hl'].
    split; [exact Hf'|]. intros l rest H. apply Hl' in H.
    simpl in *. lia.
Qed.

(** [json_loads] has all the fuel it needs. *)
Lemma json_loads_fuel (s : str) : json_loads s <> Raise out_of_fuel.
Proof.
  unfold json_loads.
  pose proof (skip_ws_length s) as Hws.
  destruct (proj1 (parse_fuel (S (2 * length s))) (skip_ws s) ltac:(lia))
    as [Hf _].
  destruct (parse_value (S (2 * length s)) (skip_ws s)) as [[v r]|e];
    cbn [bind snd fst]; [|congruence].
  destruct (skip_ws r); discriminate.
Qed.

End DecoderFuel.

(* ================================================================= *)
(** * Further properties of the parsers *)

(** ** Lines of a text *)

Section MoreStrings.

Lemma strip_idem (s : str) : strip (strip s) = strip s.
Proof.
  unfold strip at 1, strip_by. rewrite lstrip_strip.
  unfold strip, strip_by. apply rstrip_by_idem.
Qed.

Lemma split_cons (sep : ascii) (s : str) :
  exists l ls, split sep s = l :: ls.
Proof.
  induction s as [|c t [l [ls IH]]]; simpl; [eauto|].
  destruct (Ascii.eqb c sep); [eauto|]. rewrite IH. eauto.
Qed.

Lemma split_length (s : str) : length (split nl s) = count_nl s + 1.
Proof.
  unfold count_nl. induction s as [|c t IH]; [reflexivity|].
  cbn [split filter]. rewrite (Ascii.eqb_sym nl c).
  destruct (Ascii.eqb c nl).
  - cbn [length]. lia.
  - destruct (split_cons nl t) as [l [ls E]]. rewrite E in *.
    cbn [length] in *. lia.
Qed.

Lemma split_app (sep : ascii) (a b : str) :
  split sep (a ++ sep :: b) = split sep a ++ split sep b.
Proof.
  induction a as [|c a IH]; cbn [app split].
  - now rewrite Ascii.eqb_refl.
  - destruct (Ascii.eqb c sep); [now rewrite IH|].
    rewrite IH. destruct (split_cons sep a) as [l [ls ->]]. reflexivity.
Qed.

Lemma split_nosep (sep : ascii) (s : str) :
  ~ In sep s -> split sep s = [s].
Proof.
  induction s as [|c t IH]; intro H; [reflexivity|].
  cbn [split]. destruct (Ascii.eqb c sep) eqn:E.
  - apply Ascii.eqb_eq in E. subst. exfalso. apply H. now left.
  - rewrite IH; [reflexivity|]. intro Hin. apply H. now right.
Qed.

(** Splitting undoes joining. *)
Lemma split_join (sep : ascii) (ls : list str) :
  ls <> [] -> (forall l, In l ls -> ~ In sep l) ->
  split sep (join [sep] ls) = ls.
Proof.
  induction ls as [|x rest IH]; intros Hne Hno; [congruence|].
  destruct rest as [|y rest].
  - cbn [join]. apply split_nosep. apply Hno. now left.
  - change (join [sep] (x :: y :: rest))
      with (x ++ sep :: join [sep] (y :: rest)).
    rewrite split_app, IH.
    + rewrite split_nosep; [reflexivity|]. apply Hno. now left.
    + discriminate.
    + intros l Hl. apply Hno. now right.
Qed.

Lemma slice_in {A} (l : list A) (a b : nat) (x : A) :
  In x (slice l a b) -> In x l.
Proof.
  unfold slice. intro H.
  rewrite <- (firstn_skipn a l). apply in_or_app. right.
  rewrite <- (firstn_skipn (b - a) (skipn a l)). apply in_or_app.
  now left.
Qed.

Lemma slice_length {A} (l : list A) (a b : nat) :
  b <= length l -> length (slice l a b) = b - a.
Proof.
  intro H. unfold slice. rewrite length_firstn, length_skipn. lia.
Qed.

End MoreStrings.

(** ** Headers and sections *)

Section SectionSpans.

Lemma header_facts (content : str) (h : header) :
  In h (extract_headers content) ->
  1 <= h_level h <= 6 /\
  1 <= h_line h <= length (split nl content) /\
  strip (h_text h) = h_text h.
Proof.
  intro Hh. apply extract_headers_in in Hh
    as (i & line & level & body & Hn & Ha & ->).
  destruct Ha as (_ & Hl & _). cbn [h_level h_line h_text].
  assert (i < length (split nl content))
    by (apply nth_error_Some; congruence).
  repeat split; try lia. apply strip_idem.
Qed.

(** The section built for the [i]-th header. *)
Lemma section_facts (content : str) (i : nat) (s : section) :
  nth_error (extract_sections content) i = Some s ->
  exists h,
    nth_error (extract_headers content) i = Some h /\
    s_start_line s = h_line h /\ s_level s = h_level h /\
    s_content s = join [nl] (slice (split nl content) (h_line h - 1)
                                   (s_end_line s)) /\
    section_ends (extract_headers content) (length (split nl content))
                 i h (s_end_line s) /\
    1 <= h_line h <= length (split nl content).
Proof.
  intro Hs. destruct (header_of_section content i s Hs) as [h Hh].
  exists h. split; [exact Hh|].
  pose proof (header_facts content h (nth_error_In _ _ Hh)) as (_ & Hl & _).
  unfold extract_sections in Hs.
  rewrite (sections_of_nth _ _ _ _ Hh) in Hs. cbv zeta in Hs.
  inversion Hs; subst s; clear Hs.
  cbn [s_start_line s_level s_content s_end_line].
  repeat split; try lia.
  now apply section_ends_of_find.
Qed.

Lemma header_lines_ordered (content : str) (a b : nat) (x y : header) :
  nth_error (extract_headers content) a = Some x ->
  nth_error (extract_headers content) b = Some y ->
  a <= b -> h_line x <= h_line y.
Proof.
  intros Ha Hb Hab. destruct (Nat.eq_dec a b) as [->|Hne].
  - rewrite Ha in Hb. inversion Hb. lia.
  - assert (Hlt : a < b) by lia.
    pose proof (StronglySorted_nth _ _ _ _ _ _
                  (extract_headers_sorted content) Ha Hb Hlt) as H.
    simpl in H. lia.
Qed.

Lemma section_end_bounds (content : str) (i : nat) (h : header) (e : nat) :
  nth_error (extract_headers content) i = Some h ->
  section_ends (extract_headers content) (length (split nl content)) i h e ->
  h_line h <= e <= length (split nl content).
Proof.
  intros Hh [(j & hj & Hij & Hj & _ & _ & ->) | [_ ->]].
  - pose proof (StronglySorted_nth _ _ _ _ _ _
                  (extract_headers_sorted content) Hh Hj Hij) as Hlt.
    simpl in Hlt.
    apply nth_error_In in Hj. apply header_facts in Hj. lia.
  - apply nth_error_In in Hh. apply header_facts in Hh. lia.
Qed.

End SectionSpans.

(** X1. The headers [extract_headers] returns are well formed: they
    come in the order of their lines, which strictly increase; every
    level is between 1 and 6; every line number is between 1 and the
    number of lines of the text; and no header text begins or ends
    with a blank (stripping it again changes nothing). *)
Theorem X1_headers_well_formed (content : str) :
  StronglySorted (fun a b => h_line a < h_line b) (extract_headers content) /\
  Forall (fun h =>
            1 <= h_level h <= 6 /\
            1 <= h_line h <= length (split nl content) /\
            strip (h_text h) = h_text h)
         (extract_headers content).
Proof.
  split; [apply extract_headers_sorted|].
  apply Forall_forall. intros h Hh. now apply header_facts.
Qed.

(** X2. A section covers the lines it claims.  For every section
    [extract_sections] returns, the start line is at least 1 and at
    most the end line, the end line is at most the number of lines of
    the text, and the content, split into lines again, is exactly the
    lines of the text from the start line to the end line: as many
    lines as [end_line - start_line + 1]. *)
Theorem X2_section_spans_its_lines (content : str) (s : section) :
  In s (extract_sections content) ->
  1 <= s_start_line s <= s_end_line s /\
  s_end_line s <= length (split nl content) /\
  split nl (s_content s)
  = slice (split nl content) (s_start_line s - 1) (s_end_line s) /\
  length (split nl (s_content s)) = s_end_line s - s_start_line s + 1.
Proof.
  intro Hs. apply In_nth_error in Hs as [i Hs].
  apply section_facts in Hs as (h & Hh & Hstart & _ & Hc & Hend & Hl).
  pose proof (section_end_bounds _ _ _ _ Hh Hend) as Hb.
  assert (Hsplit : split nl (s_content s)
                   = slice (split nl content) (s_start_line s - 1)
                           (s_end_line s)).
  { rewrite Hc, Hstart. apply split_join.
    - intro E. apply (f_equal (@length _)) in E.
      rewrite slice_length in E by lia. cbn [length] in E. lia.
    - intros l Hin. apply slice_in in Hin.
      now apply (split_no_sep nl content). }
  repeat split; try lia; [exact Hsplit|].
  rewrite Hsplit, slice_length by lia. lia.
Qed.

Lemma X2_section_witness :
  In (Section_ (lit "B") 2
               (join [nl] (map lit ["## B"; "text"; "text"]%string)) 3 5)
     (extract_sections doc_abcd) /\
  split nl (join [nl] (map lit ["## B"; "text"; "text"]%string))
  = slice (split nl doc_abcd) 2 5.
Proof.
  assert (H : In (Section_ (lit "B") 2
                    (join [nl] (map lit ["## B"; "text"; "text"]%string)) 3 5)
                 (extract_sections doc_abcd))
    by (vm_compute; right; now left).
  split; [exact H|].
  exact (proj1 (proj2 (proj2 (X2_section_spans_its_lines _ _ H)))).
Defined.

(** X3. Sections nest.  Of two sections of a text, the later one
    starts on a later line, and either it starts after the earlier
    one has ended, or it lies inside the earlier one: it ends no
    later and its level is deeper.  Two sections never overlap
    partially. *)
Theorem X3_sections_nested (content : str) (i j : nat) (si sj : section) :
  nth_error (extract_sections content) i = Some si ->
  nth_error (extract_sections content) j = Some sj ->
  i < j ->
  s_start_line si < s_start_line sj /\
  (s_end_line si < s_start_line sj \/
   (s_end_line sj <= s_end_line si /\ s_level si < s_level sj)).
Proof.
  intros Hi Hj Hij.
  apply section_facts in Hi as (hi & Hhi & Hsi & Hli & _ & Hei & Hbi).
  apply section_facts in Hj as (hj & Hhj & Hsj & Hlj & _ & Hej & Hbj).
  pose proof (StronglySorted_nth _ _ _ _ _ _
                (extract_headers_sorted content) Hhi Hhj Hij) as Hlt.
  simpl in Hlt. split; [lia|].
  pose proof (section_end_bounds _ _ _ _ Hhj Hej) as Hbej.
  rewrite Hsj, Hli, Hlj.
  destruct Hei as [(k & hk & Hik & Hk & Hlev & Hbetween & Hend) | [Hall Hend]].
  - destruct (Nat.le_gt_cases k j) as [Hkj|Hjk].
    + left. pose proof (header_lines_ordered _ _ _ _ _ Hk Hhj Hkj). lia.
    + right. pose proof (Hbetween j hj (conj Hij Hjk) Hhj) as Hdeep.
      split; [|exact Hdeep].
      destruct Hej as [(k' & hk' & Hjk' & Hk' & Hlev' & Hbetween' & Hend')
                      | [Hall' _]].
      * assert (Hk'k : k' <= k).
        { destruct (Nat.le_gt_cases k' k) as [H|H]; [exact H|].
          pose proof (Hbetween' k hk (conj Hjk H) Hk). lia. }
        pose proof (header_lines_ordered _ _ _ _ _ Hk' Hk Hk'k). lia.
      * pose proof (Hall' k hk Hjk Hk). lia.
  - right. split; [lia|]. exact (Hall j hj Hij Hhj).
Qed.

Lemma X3_nesting_witness :
  s_start_line (Section_ (lit "A") 1 doc_abcd_a 1 8) < 3 /\
  (8 < 3 \/ (5 <= 8 /\ 1 < 2)).
Proof.
  apply (X3_sections_nested doc_abcd 0 1
           (Section_ (lit "A") 1 doc_abcd_a 1 8)
           (Section_ (lit "B") 2
              (join [nl] (map lit ["## B"; "text"; "text"]%string)) 3 5)).
  - vm_compute. reflexivity.
  - vm_compute. reflexivity.
  - lia.
Defined.

(** ** Code blocks *)

Section IndentedLines.

Lemma filter_none {A} (p : A -> bool) (l : list A) :
  Forall (fun x => p x = false) l -> filter p l = [].
Proof.
  induction 1 as [|x l Hx _ IH]; [reflexivity|].
  cbn [filter]. now rewrite Hx.
Qed.

Lemma filter_all {A} (p : A -> bool) (l : list A) :
  Forall (fun x => p x = true) l -> filter p l = l.
Proof.
  induction 1 as [|x l Hx _ IH]; [reflexivity|].
  cbn [filter]. now rewrite Hx, IH.
Qed.

Lemma collected_step (fs : list code_block) (done : list str)
      (st : indent_state) (n : nat) (line : str) :
  ~ In nl line ->
  collected_inv fs done st ->
  collected_inv fs (done ++ [line]) (indent_step st (n, line)).
Proof.
  intros Hline (ind & Hcb & Hind & Hcode & Hrun & Hnl).
  destruct st as [cbs inb cur start].
  cbn [code_blocks in_code_block current_block block_start] in *.
  unfold indent_step, collected_inv.
  cbn [code_blocks in_code_block current_block block_start].
  rewrite filter_app, map_app. cbn [filter].
  change (startswith (lit "    ") line || startswith [tab] line)
    with (indented_line line).
  destruct (indented_line line) eqn:Ei.
  - exists ind.
    cbn [code_blocks in_code_block current_block block_start map].
    repeat split; auto.
    + rewrite app_assoc, Hcode. reflexivity.
    + apply Forall_app. split; [exact Hnl|].
      constructor; [|constructor].
      destruct (startswith (lit "    ") line); now apply no_nl_skipn.
  - cbn [map]. rewrite app_nil_r.
    destruct (inb && is_nonempty cur) eqn:Ec.
    + exists (ind ++ [indented_block (IndentState cbs inb cur start)]).
      cbn [code_blocks in_code_block current_block block_start].
      repeat split.
      * now rewrite Hcb, app_assoc.
      * apply Forall_app. split; [exact Hind|].
        constructor; [reflexivity|constructor].
      * rewrite map_app, concat_app, app_nil_r. cbn [map concat].
        rewrite app_nil_r. unfold indented_block.
        cbn [cb_code current_block]. rewrite <- Hcode. f_equal.
        apply split_join.
        -- apply andb_true_iff in Ec as [_ Hne].
           destruct cur; [discriminate|discriminate].
        -- intros l Hl. rewrite Forall_forall in Hnl. now apply Hnl.
      * intro H. now contradiction H.
      * constructor.
    + exists ind.
      cbn [code_blocks in_code_block current_block block_start].
      assert (Hcur : cur = []).
      { destruct cur as [|c cur']; [reflexivity|].
        rewrite Hrun in Ec by discriminate. discriminate. }
      subst cur. repeat split; auto.
Qed.

Lemma collected_fold (fs : list code_block) (lines : list str) :
  forall (n : nat) (done : list str) (st : indent_state),
    (forall l, In l lines -> ~ In nl l) ->
    collected_inv fs done st ->
    collected_inv fs (done ++ lines)
                  (fold_left indent_step (enumerate_from n lines) st).
Proof.
  induction lines as [|line rest IH]; intros n done st Hnl Hinv.
  - now rewrite app_nil_r.
  - cbn [enumerate_from fold_left].
    replace (done ++ line :: rest) with ((done ++ [line]) ++ rest)
      by (now rewrite <- app_assoc).
    apply IH.
    + intros l Hl. apply Hnl. now right.
    + apply collected_step; [|exact Hinv]. apply Hnl. now left.
Qed.

Lemma count_nl_firstn_le (s : str) (a : nat) :
  count_nl (firstn a s) <= count_nl s.
Proof.
  unfold count_nl. rewrite <- (firstn_skipn a s) at 2.
  rewrite filter_app, length_app. lia.
Qed.

End IndentedLines.

(** X4. No indented line is lost, and none is invented.  The code of
    the indented blocks [extract_code_blocks] returns, taken block
    after block and line after line, is exactly the sequence of the
    lines of the text that start with four spaces or a tab, each
    without that indentation.  This holds for every text: also for
    indented lines inside a fenced block. *)
Theorem X4_indented_lines_kept (content : str) :
  concat (map (fun b => split nl (cb_code b))
              (filter (fun b => negb (is_fenced b))
                      (extract_code_blocks content)))
  = map unindent (filter indented_line (split nl content)).
Proof.
  unfold extract_code_blocks.
  set (st0 := IndentState (fenced_blocks content) false [] 0).
  assert (H0 : collected_inv (fenced_blocks content) [] st0).
  { exists []. cbn. rewrite app_nil_r. repeat split; auto. }
  pose proof (collected_fold (fenced_blocks content) (split nl content)
                0 [] st0 (fun l => split_no_sep nl content l) H0) as Hinv.
  cbn [app] in Hinv. unfold enumerate.
  destruct Hinv as (ind & Hcb & Hind & Hcode & Hrun & Hnl).
  set (st := fold_left indent_step (enumerate_from 0 (split nl content)) st0)
    in *.
  assert (Hf : filter (fun b => negb (is_fenced b)) (fenced_blocks content)
               = []).
  { apply filter_none. eapply Forall_impl; [|apply fenced_blocks_fenced].
    intros b Hb. unfold is_fenced. now rewrite Hb. }
  assert (Hi : filter (fun b => negb (is_fenced b)) ind = ind).
  { apply filter_all. eapply Forall_impl; [|exact Hind].
    intros b Hb. unfold is_fenced. now rewrite Hb. }
  destruct (in_code_block st && is_nonempty (current_block st)) eqn:Ec.
  - rewrite Hcb, !filter_app, Hf, Hi. cbn [app filter].
    unfold is_fenced at 1, indented_block at 1. cbn [cb_type negb].
    rewrite map_app, concat_app. cbn [map concat]. rewrite app_nil_r.
    unfold indented_block. cbn [cb_code]. rewrite <- Hcode. f_equal.
    apply split_join.
    + apply andb_true_iff in Ec as [_ Hne].
      destruct (current_block st); discriminate.
    + intros l Hl. rewrite Forall_forall in Hnl. now apply Hnl.
  - rewrite Hcb, filter_app, Hf, Hi. cbn [app].
    assert (Hcur : current_block st = []).
    { destruct (current_block st) as [|c cur'] eqn:E; [reflexivity|].
      rewrite Hrun in Ec by discriminate. discriminate. }
    rewrite Hcur, app_nil_r in Hcode. exact Hcode.
Qed.

(** X5. Fenced blocks are well formed.  For every fenced block
    [extract_code_blocks] returns, the language is a non-empty run of
    word characters (the default [text] when the fence has no tag),
    the code neither begins nor ends with a blank, the code contains
    no run of three backticks, and the line number is between 1 and
    the number of lines of the text. *)
Theorem X5_fenced_blocks_well_formed (content : str) :
  Forall (fun b =>
            cb_type b = fenced ->
            cb_language b <> [] /\
            forallb is_word (cb_language b) = true /\
            strip (cb_code b) = cb_code b /\
            fence_free (cb_code b) /\
            1 <= cb_line b <= length (split nl content))
         (extract_code_blocks content).
Proof.
  apply Forall_forall. intros b Hb Ht.
  assert (Hf : In b (fenced_blocks content)).
  { rewrite <- filter_fenced_blocks. apply filter_In. split; [exact Hb|].
    unfold is_fenced. now rewrite Ht. }
  destruct (fenced_block_shape content b Hf)
    as (_ & Hl1 & Hl2 & g & Hg & Hfree).
  repeat split; auto.
  - rewrite Hg. apply strip_idem.
  - rewrite Hg. now apply fence_free_strip.
  - unfold fenced_blocks in Hf. apply in_map_iff in Hf as [m [<- _]].
    cbn [fenced_block cb_line]. lia.
  - unfold fenced_blocks in Hf. apply in_map_iff in Hf as [m [<- _]].
    cbn [fenced_block cb_line]. rewrite split_length.
    pose proof (count_nl_firstn_le content (m_start m)). lia.
Qed.

(** ** What a successful match has consumed *)

Section MatcherInversion.

Lemma descend_some {R} (f : nat -> option R) (lo cnt : nat) (r : R) :
  descend f lo cnt = Some r ->
  exists n, lo <= n < lo + cnt /\ f n = Some r.
Proof.
  induction cnt as [|m IH]; cbn [descend]; [discriminate|].
  destruct (f (lo + m)) as [r'|] eqn:E.
  - intro H. inversion H; subst. exists (lo + m). split; [lia|exact E].
  - intro H. apply IH in H as [n [Hn H]]. exists n. split; [lia|exact H].
Qed.

Lemma forallb_firstn {A} (p : A -> bool) (l : list A) (n : nat) :
  forallb p l = true -> forallb p (firstn n l) = true.
Proof.
  revert n. induction l as [|x l IH]; intros [|n] H; auto.
  cbn [firstn forallb] in *. apply andb_true_iff in H as [-> H].
  now rewrite IH.
Qed.

Lemma run_seq (a b : re) (st : mstate) (k : mstate -> option mstate) :
  run (Seq a b) st k = run a st (fun st' => run b st' k).
Proof. reflexivity. Qed.

Lemma run_chr_inv (p : ascii -> bool) (st : mstate)
      (k : mstate -> option mstate) (r : mstate) :
  run (Chr p) st k = Some r ->
  exists c t, ms_rest st = c :: t /\ p c = true /\
              k (MState (S (ms_pos st)) t (ms_groups st)) = Some r.
Proof.
  cbn [run]. destruct (ms_rest st) as [|c t]; [discriminate|].
  destruct (p c) eqn:E; [|discriminate]. intro H. now exists c, t.
Qed.

Lemma run_lit_inv (l : str) (st : mstate)
      (k : mstate -> option mstate) (r : mstate) :
  run (Lit l) st k = Some r ->
  exists t, ms_rest st = l ++ t /\
            k (MState (ms_pos st + length l) t (ms_groups st)) = Some r.
Proof.
  cbn [run]. rewrite strip_prefix_startswith.
  destruct (startswith l (ms_rest st)) eqn:E; [|discriminate].
  intro H. exists (skipn (length l) (ms_rest st)). split; [|exact H].
  now apply startswith_inv.
Qed.

(** A greedy repetition has consumed a run of its class, of a
    length within its bounds. *)
Lemma run_rep_inv (p : ascii -> bool) (lo : nat) (hi : option nat)
      (st : mstate) (k : mstate -> option mstate) (r : mstate) :
  run (Rep p lo hi true) st k = Some r ->
  exists a b,
    ms_rest st = a ++ b /\ forallb p a = true /\
    lo <= length a <= cap hi (length a) /\
    k (MState (ms_pos st + length a) b (ms_groups st)) = Some r.
Proof.
  cbn [run]. rewrite rep_greedy. intro H.
  apply descend_some in H as [n [Hn H]].
  pose proof (run_len_le p (ms_rest st)) as Hle.
  assert (Hcap : cap hi (run_len p (ms_rest st)) <= run_len p (ms_rest st)).
  { destruct hi; cbn [cap]; lia. }
  assert (Hlen : length (firstn n (ms_rest st)) = n).
  { rewrite length_firstn. lia. }
  exists (firstn n (ms_rest st)), (skipn n (ms_rest st)).
  rewrite Hlen. repeat split.
  - now rewrite firstn_skipn.
  - rewrite <- (Nat.min_l n (run_len p (ms_rest st))) by lia.
    rewrite <- firstn_firstn. apply forallb_firstn, run_len_firstn.
  - lia.
  - destruct hi as [h|]; cbn [cap] in *; lia.
  - exact H.
Qed.

(** A group around [p+] has captured what the repetition consumed. *)
Lemma run_grp_plus_inv (n : nat) (p : ascii -> bool) (st : mstate)
      (k : mstate -> option mstate) (r : mstate) :
  run (Grp n (plus p)) st k = Some r ->
  exists a b,
    ms_rest st = a ++ b /\ forallb p a = true /\ a <> [] /\
    k (MState (ms_pos st + length a) b ((n, a) :: ms_groups st)) = Some r.
Proof.
  unfold plus. intro H.
  change (run (Rep p 1 None true) st
            (fun st' =>
               k (MState (ms_pos st') (ms_rest st')
                    ((n, firstn (ms_pos st' - ms_pos st) (ms_rest st))
                       :: ms_groups st'))) = Some r) in H.
  apply run_rep_inv in H as (a & b & Hab & Hp & Hlen & H).
  exists a, b. repeat split; auto.
  - intro E. subst a. cbn [length] in Hlen. lia.
  - cbn [ms_pos ms_rest ms_groups] in H.
    replace (ms_pos st + length a - ms_pos st) with (length a) in H by lia.
    rewrite Hab, firstn_app, firstn_all, Nat.sub_diag in H.
    cbn [firstn] in H. now rewrite app_nil_r in H.
Qed.

Lemma none_of_not_in (c : ascii) (s : str) :
  forallb (none_of [c]) s = true -> ~ In c s.
Proof.
  intros H Hin. rewrite forallb_forall in H. specialize (H c Hin).
  unfold none_of, has_char in H. cbn [existsb] in H.
  now rewrite Ascii.eqb_refl in H.
Qed.

Lemma finditer_lines_sorted (r : re) (content : str) :
  StronglySorted (fun a b => line_of content a <= line_of content b)
                 (finditer r content).
Proof.
  unfold finditer.
  pose proof (proj2 (finditer_from_sorted r 0 0 content)) as H.
  induction H as [|m l Hs IH Hm]; constructor; auto.
  eapply Forall_impl; [|exact Hm]. intros m' Hlt. unfold line_of.
  apply Nat.add_le_mono_r. apply count_nl_firstn_mono. simpl in Hlt. lia.
Qed.

Lemma StronglySorted_map {A B} (f : A -> B) (R : B -> B -> Prop)
      (l : list A) :
  StronglySorted (fun a b => R (f a) (f b)) l ->
  StronglySorted R (map f l).
Proof.
  induction 1 as [|x l Hs IH Hx]; cbn [map]; constructor; auto.
  apply Forall_forall. intros y Hy. apply in_map_iff in Hy as [z [<- Hz]].
  rewrite Forall_forall in Hx. now apply Hx.
Qed.

Lemma finditer_from_within (r : re) (pos skip : nat) (s : str)
      (m : match_obj) :
  In m (finditer_from r pos skip s) ->
  exists k, k <= length s /\ match_at r (pos + k) (skipn k s) = Some m.
Proof.
  revert pos skip. induction s as [|c t IH]; intros pos skip H.
  - destruct skip; simpl in H; [|easy].
    destruct (match_at r pos []) eqn:E; [|easy].
    destruct H as [<-|[]]. exists 0. now rewrite Nat.add_0_r.
  - assert (Hrec : forall sk, In m (finditer_from r (S pos) sk t) ->
              exists k, k <= length (c :: t) /\
                        match_at r (pos + k) (skipn k (c :: t)) = Some m).
    { intros sk Hin. apply IH in Hin as [k [Hle Hk]]. exists (S k).
      split; [cbn [length]; lia|].
      now replace (pos + S k) with (S pos + k) by lia. }
    destruct skip as [|skip']; cbn [finditer_from] in H.
    + destruct (match_at r pos (c :: t)) eqn:E.
      * destruct H as [<-|H]; [|now apply Hrec in H].
        exists 0. split; [lia|]. now rewrite Nat.add_0_r.
      * now apply Hrec in H.
    + now apply Hrec in H.
Qed.

(** A match found by the scan starts somewhere in the text. *)
Lemma finditer_in (r : re) (content : str) (m : match_obj) :
  In m (finditer r content) ->
  exists pre s, content = pre ++ s /\
                line_of content m = count_nl pre + 1 /\
                match_at r (length pre) s = Some m.
Proof.
  unfold finditer. intro H.
  apply finditer_from_within in H as [k [Hle Hk]].
  cbn [Nat.add] in Hk.
  exists (firstn k content), (skipn k content).
  assert (Hlen : length (firstn k content) = k)
    by (rewrite length_firstn; lia).
  pose proof (match_at_start _ _ _ _ Hk) as Hs.
  rewrite Hlen. repeat split; auto.
  - now rewrite firstn_skipn.
  - unfold line_of. now rewrite Hs.
Qed.

End MatcherInversion.

(** ** Links *)

Section Links.

(** The two bracket patterns have the same shape: a text in square
    brackets, then a target between [o] and [c]. *)
Lemma bracket_match_inv (o c : ascii) (pos : nat) (s : str) (m : match_obj) :
  match_at (seq [chr "["; Grp 1 (plus (none_of (lit "]"))); chr "]";
                 chr o; Grp 2 (plus (none_of [c])); chr c]) pos s = Some m ->
  exists text target rest,
    s = "["%char :: text ++ "]"%char :: o :: target ++ c :: rest /\
    text <> [] /\ ~ In "]"%char text /\
    target <> [] /\ ~ In c target /\
    group_or_empty 1 m = text /\ group_or_empty 2 m = target.
Proof.
  unfold match_at.
  destruct (run _ (MState pos s []) Some) as [st|] eqn:E; [|discriminate].
  intro H. inversion H; subst m; clear H.
  cbn [seq] in E.
  rewrite run_seq in E.
  apply run_chr_inv in E as (c0 & t0 & Hs0 & Hc0 & E).
  rewrite run_seq in E.
  apply run_grp_plus_inv in E as (text & t1 & Hs1 & Hp1 & Hne1 & E).
  rewrite run_seq in E.
  apply run_chr_inv in E as (c2 & t2 & Hs2 & Hc2 & E).
  rewrite run_seq in E.
  apply run_chr_inv in E as (c3 & t3 & Hs3 & Hc3 & E).
  rewrite run_seq in E.
  apply run_grp_plus_inv in E as (target & t4 & Hs4 & Hp4 & Hne4 & E).
  apply run_chr_inv in E as (c5 & t5 & Hs5 & Hc5 & E).
  cbn [ms_rest ms_pos ms_groups] in *.
  apply Ascii.eqb_eq in Hc0, Hc2, Hc3, Hc5. subst c0 c2 c3 c5.
  inversion E; subst st; clear E.
  exists text, target, t5. subst s t0 t1 t2 t3 t4.
  repeat split; auto.
  - now apply none_of_not_in.
  - now apply none_of_not_in.
Qed.

Lemma url_match_inv (pos : nat) (s : str) (m : match_obj) :
  match_at url_pattern pos s = Some m ->
  exists scheme body last rest,
    s = scheme ++ lit "://" ++ body ++ last :: rest /\
    (scheme = lit "http" \/ scheme = lit "https") /\
    body <> [] /\ forallb url_char body = true /\
    url_last_char last = true /\
    m_end m = pos + length (scheme ++ lit "://" ++ body ++ [last]).
Proof.
  unfold match_at.
  destruct (run _ (MState pos s []) Some) as [st|] eqn:E; [|discriminate].
  intro H. inversion H; subst m; clear H.
  unfold url_pattern in E. cbn [seq] in E.
  rewrite run_seq in E.
  apply run_lit_inv in E as (t0 & Hs0 & E).
  rewrite run_seq in E.
  apply run_rep_inv in E as (a & t1 & Hs1 & Hp1 & Hlen1 & E).
  rewrite run_seq in E.
  apply run_lit_inv in E as (t2 & Hs2 & E).
  rewrite run_seq in E.
  apply run_rep_inv in E as (body & t3 & Hs3 & Hp3 & Hlen3 & E).
  apply run_chr_inv in E as (last & rest & Hs4 & Hc4 & E).
  cbn [ms_rest ms_pos ms_groups] in *.
  inversion E; subst st; clear E.
  exists (lit "http" ++ a), body, last, rest.
  subst s t0 t1 t2 t3. cbn [m_end].
  repeat split; auto.
  - destruct a as [|x [|y a]]; cbn [length cap] in Hlen1.
    + left. apply app_nil_r.
    + right. cbn [forallb] in Hp1. rewrite andb_true_r in Hp1.
      apply Ascii.eqb_eq in Hp1. now subst x.
    + exfalso. destruct Hlen1 as [_ Hle].
      pose proof (Nat.le_min_l 1 (S (S (length a)))). lia.
  - intro E. subst body. cbn [length] in Hlen3. lia.
  - cbn [ms_pos]. rewrite !length_app. cbn [length].
    change (length (lit "http")) with 4.
    change (length (lit "://")) with 3. lia.
Qed.

Lemma slice_middle {A} (pre x post : list A) :
  slice (pre ++ x ++ post) (length pre) (length pre + length x) = x.
Proof.
  unfold slice. rewrite skipn_app, skipn_all, Nat.sub_diag.
  cbn [skipn app].
  replace (length pre + length x - length pre) with (length x) by lia.
  now rewrite firstn_app, firstn_all, Nat.sub_diag, firstn_0, app_nil_r.
Qed.

End Links.

(** X6. [extract_links] reports the links kind by kind: first the
    inline links, then the reference links, then the bare URLs, and
    within each kind in the order of the text (line numbers never
    decrease). *)
Theorem X6_links_grouped_by_kind (content : str) :
  exists md rf pl,
    extract_links content = md ++ rf ++ pl /\
    Forall (fun l => l_type l = markdown) md /\
    Forall (fun l => l_type l = reference) rf /\
    Forall (fun l => l_type l = plain) pl /\
    StronglySorted (fun a b => l_line a <= l_line b) md /\
    StronglySorted (fun a b => l_line a <= l_line b) rf /\
    StronglySorted (fun a b => l_line a <= l_line b) pl.
Proof.
  unfold extract_links.
  eexists _, _, _. split; [reflexivity|].
  repeat split;
    try (apply Forall_forall; intros l Hl;
         apply in_map_iff in Hl as [m [<- _]]; reflexivity);
    apply StronglySorted_map; cbn [l_line]; apply finditer_lines_sorted.
Qed.

(** X7. Every inline or reference link that [extract_links] reports
    stands in the text as reported.  For an inline link the text
    contains [[text](url)] and the line number is that of the opening
    bracket; the text is not empty and has no closing square bracket,
    the URL is not empty and has no closing parenthesis.  For a
    reference link the text contains [[text][ref]], the reported URL
    is [[ref:ref]], and neither text nor reference is empty or
    contains a closing square bracket. *)
Theorem X7_bracket_links_occur (content : str) (l : link) :
  In l (extract_links content) ->
  match l_type l with
  | markdown =>
      l_text l <> [] /\ ~ In "]"%char (l_text l) /\
      l_url l <> [] /\ ~ In ")"%char (l_url l) /\
      exists pre post,
        content = pre ++ lit "[" ++ l_text l ++ lit "](" ++ l_url l
                      ++ lit ")" ++ post /\
        l_line l = count_nl pre + 1
  | reference =>
      exists ref,
        l_url l = lit "[ref:" ++ ref ++ lit "]" /\
        l_text l <> [] /\ ~ In "]"%char (l_text l) /\
        ref <> [] /\ ~ In "]"%char ref /\
        exists pre post,
          content = pre ++ lit "[" ++ l_text l ++ lit "][" ++ ref
                        ++ lit "]" ++ post /\
          l_line l = count_nl pre + 1
  | plain => True
  end.
Proof.
  unfold extract_links. intro H.
  apply in_app_or in H as [H|H]; [|apply in_app_or in H as [H|H]];
    apply in_map_iff in H as [m [<- Hm]]; cbn [l_type l_text l_url l_line];
    [| |exact I];
    apply finditer_in in Hm as (pre & s & Hc & Hline & Hm).
  - apply (bracket_match_inv "(" ")") in Hm
      as (text & url & rest & Hs & Hn1 & Hi1 & Hn2 & Hi2 & -> & ->).
    repeat split; auto. exists pre, rest. split; [|exact Hline].
    rewrite Hc, Hs. reflexivity.
  - apply (bracket_match_inv "[" "]") in Hm
      as (text & ref & rest & Hs & Hn1 & Hi1 & Hn2 & Hi2 & -> & ->).
    exists ref. repeat split; auto. exists pre, rest. split; [|exact Hline].
    rewrite Hc, Hs. reflexivity.
Qed.

(** X8. Every bare URL that [extract_links] reports stands in the
    text on the reported line, starts with [http://] or [https://],
    goes on with at least two more characters none of which is a
    blank or one of the stop characters, and does not end with one of
    [. , ; : ! ?].  Its text is the URL itself. *)
Theorem X8_plain_urls_occur (content : str) (l : link) :
  In l (extract_links content) ->
  l_type l = plain ->
  l_text l = l_url l /\
  (exists scheme body last,
      l_url l = scheme ++ lit "://" ++ body ++ [last] /\
      (scheme = lit "http" \/ scheme = lit "https") /\
      body <> [] /\ forallb url_char body = true /\
      url_last_char last = true) /\
  exists pre post,
    content = pre ++ l_url l ++ post /\ l_line l = count_nl pre + 1.
Proof.
  unfold extract_links. intros H Ht.
  apply in_app_or in H as [H|H]; [|apply in_app_or in H as [H|H]];
    apply in_map_iff in H as [m [<- Hm]]; cbn [l_type] in Ht;
    try discriminate.
  cbn [l_text l_url l_line]. split; [reflexivity|].
  apply finditer_in in Hm as (pre & s & Hc & Hline & Hm).
  pose proof (match_at_start _ _ _ _ Hm) as Hstart.
  apply url_match_inv in Hm
    as (scheme & body & last & rest & Hs & Hsch & Hne & Hb & Hl & Hend).
  assert (Hw : whole_match content m = scheme ++ lit "://" ++ body ++ [last]).
  { unfold whole_match. rewrite Hstart, Hend, Hc, Hs.
    replace (scheme ++ lit "://" ++ body ++ last :: rest)
      with ((scheme ++ lit "://" ++ body ++ [last]) ++ rest)
      by (now rewrite <- !app_assoc).
    apply slice_middle. }
  rewrite Hw. split.
  - exists scheme, body, last. repeat split; auto.
  - exists pre, rest. split; [|exact Hline].
    rewrite Hc, Hs. now rewrite <- !app_assoc.
Qed.

Lemma X7_inline_link_witness :
  In (Link (lit "docs") (lit "guide.md") 1 markdown)
     (extract_links doc_links) /\
  exists pre post,
    doc_links = pre ++ lit "[" ++ lit "docs" ++ lit "](" ++ lit "guide.md"
                    ++ lit ")" ++ post /\
    1 = count_nl pre + 1.
Proof.
  assert (H : In (Link (lit "docs") (lit "guide.md") 1 markdown)
                 (extract_links doc_links))
    by (vm_compute; now left).
  split; [exact H|].
  exact (proj2 (proj2 (proj2 (proj2 (X7_bracket_links_occur _ _ H))))).
Defined.

Lemma X8_plain_url_witness :
  In (Link (lit "https://hsf.org/t") (lit "https://hsf.org/t") 2 plain)
     (extract_links doc_links) /\
  exists pre post,
    doc_links = pre ++ lit "https://hsf.org/t" ++ post /\
    2 = count_nl pre + 1.
Proof.
  assert (H : In (Link (lit "https://hsf.org/t") (lit "https://hsf.org/t")
                       2 plain)
                 (extract_links doc_links))
    by (vm_compute; right; right; now left).
  split; [exact H|].
  exact (proj2 (proj2 (X8_plain_urls_occur _ _ H eq_refl))).
Defined.

(** ** Front matter *)

Section FrontMatter.

Lemma frontmatter_match (content : str) :
  re_match frontmatter_pattern content =
  match strip_prefix (lit "---" ++ [nl]) content with
  | None => None
  | Some body =>
      match index_of ([nl] ++ lit "---" ++ [nl]) body with
      | Some n => Some (Match 0 (4 + n + 5) [(1, firstn n body)])
      | None => None
      end
  end.
Proof.
  unfold re_match, match_at, frontmatter_pattern. cbn [seq].
  rewrite run_seq. cbn [run ms_pos ms_rest ms_groups Nat.eqb].
  destruct (strip_prefix (lit "---" ++ [nl]) content) as [body|];
    [|reflexivity].
  rewrite rep_lazy. cbn [cap].
  rewrite (run_len_all any_char body) by (now apply forallb_forall).
  rewrite Nat.sub_0_r.
  rewrite (ascend_ext _
    (fun n => match strip_prefix ([nl] ++ lit "---" ++ [nl]) (skipn n body)
              with
              | Some t => Some (MState (4 + n + 5) t [(1, firstn n body)])
              | None => None
              end)).
  - rewrite ascend_index_of.
    now destruct (index_of ([nl] ++ lit "---" ++ [nl]) body).
  - intros n _. cbn [ms_rest ms_pos ms_groups].
    change (length (lit "---" ++ [nl])) with 4.
    change (length ([nl] ++ lit "---" ++ [nl])) with 5.
    replace (0 + 4 + n - (0 + 4)) with n by lia. reflexivity.
Qed.

Lemma extract_metadata_eq (content : str) :
  extract_metadata content =
  match strip_prefix (lit "---" ++ [nl]) content with
  | None => []
  | Some body =>
      match index_of ([nl] ++ lit "---" ++ [nl]) body with
      | Some n => fold_left metadata_step (split nl (firstn n body)) []
      | None => []
      end
  end.
Proof.
  unfold extract_metadata. rewrite frontmatter_match.
  destruct (strip_prefix (lit "---" ++ [nl]) content) as [body|];
    [|reflexivity].
  now destruct (index_of ([nl] ++ lit "---" ++ [nl]) body).
Qed.

End FrontMatter.

Section MetadataFacts.

Lemma lstrip_strip_by (p : ascii -> bool) (s : str) :
  lstrip_by p (strip_by p s) = strip_by p s.
Proof.
  unfold strip_by. set (y := lstrip_by p s).
  destruct (rstrip_by_prefix p y) as [b [Hy _]].
  destruct (rstrip_by p y) as [|h t] eqn:E; [reflexivity|].
  apply lstrip_by_stop. apply (lstrip_by_head p s h (t ++ b)).
  fold y. now rewrite Hy.
Qed.

Lemma strip_by_idem (p : ascii -> bool) (s : str) :
  strip_by p (strip_by p s) = strip_by p s.
Proof.
  unfold strip_by at 1. rewrite lstrip_strip_by.
  unfold strip_by. apply rstrip_by_idem.
Qed.

Context {V : Type}.

Lemma dict_set_in (d : dict V) (k : str) (v : V) (a : str) (b : V) :
  In (a, b) (dict_set d k v) -> In (a, b) d \/ (a = k /\ b = v).
Proof.
  induction d as [|[k' v'] t IH]; cbn [dict_set].
  - intros [H|[]]. inversion H. now right.
  - destruct (str_eqb k' k) eqn:E.
    + intros [H|H].
      * inversion H; subst. apply str_eqb_eq in E. now right.
      * left. now right.
    + intros [H|H].
      * left. now left.
      * apply IH in H as [H|H]; [left; now right|now right].
Qed.

Lemma dict_set_keys_in (d : dict V) (k : str) (v : V) (a : str) :
  In a (keys (dict_set d k v)) -> In a (keys d) \/ a = k.
Proof.
  unfold keys. intro H. apply in_map_iff in H as [[a' b] [<- H]].
  apply dict_set_in in H as [H|[-> _]]; [|now right].
  left. apply in_map_iff. now exists (a', b).
Qed.

Lemma dict_set_nodup (d : dict V) (k : str) (v : V) :
  NoDup (keys d) -> NoDup (keys (dict_set d k v)).
Proof.
  induction d as [|[k' v'] t IH]; cbn [dict_set keys map fst]; intro H.
  - constructor; [easy|constructor].
  - inversion H as [|x l Hnot Hnd]; subst.
    destruct (str_eqb k' k) eqn:E; cbn [map fst].
    + now constructor.
    + constructor; [|now apply IH].
      intro Hin. apply dict_set_keys_in in Hin as [Hin|Hin].
      * now apply Hnot.
      * subst k'. now rewrite str_eqb_refl in E.
Qed.

End MetadataFacts.

(** X9. Metadata comes from front matter only.  [extract_metadata]
    returns a non-empty dictionary only for a text that starts with a
    line [---] and has a later line [---] followed by a newline; the
    dictionary is then read, line by line, from the text between the
    two. *)
Theorem X9_metadata_needs_front_matter (content : str) :
  extract_metadata content <> [] ->
  exists front rest,
    content = lit "---" ++ [nl] ++ front ++ [nl] ++ lit "---" ++ [nl] ++ rest /\
    extract_metadata content = fold_left metadata_step (split nl front) [].
Proof.
  rewrite extract_metadata_eq, strip_prefix_startswith.
  destruct (startswith (lit "---" ++ [nl]) content) eqn:Es;
    [|intro H; now contradiction H].
  apply startswith_inv in Es. set (body := skipn _ content) in *.
  destruct (index_of ([nl] ++ lit "---" ++ [nl]) body) as [n|] eqn:Ei;
    [|intro H; now contradiction H].
  intros _. apply index_of_bound in Ei as (_ & Hs & _).
  apply startswith_inv in Hs.
  exists (firstn n body), (skipn 5 (skipn n body)). split; [|reflexivity].
  rewrite Es at 1. rewrite <- (firstn_skipn n body) at 1. rewrite Hs at 1.
  now rewrite <- !app_assoc.
Qed.

Lemma X9_front_matter_witness :
  exists front rest,
    doc_front_matter
    = lit "---" ++ [nl] ++ front ++ [nl] ++ lit "---" ++ [nl] ++ rest /\
    extract_metadata doc_front_matter
    = fold_left metadata_step (split nl front) [].
Proof.
  apply (X9_metadata_needs_front_matter doc_front_matter).
  vm_compute. discriminate.
Defined.

(** X10. Front matter is read up to its closing line.  For a text
    made of the line [---], then lines none of which is [---], then
    the line [---] and anything after it, [extract_metadata] reads
    exactly the lines in between: each line with a colon sets the
    key before the first colon (trimmed) to the value after it
    (trimmed, then without quotes at its ends), later lines
    overwriting earlier ones; what follows the closing line plays no
    part. *)
Theorem X10_front_matter_read (front rest : str) :
  ~ In (lit "---") (split nl front) ->
  extract_metadata
    (lit "---" ++ [nl] ++ front ++ [nl] ++ lit "---" ++ [nl] ++ rest)
  = fold_left metadata_step (split nl front) [].
Proof.
  intro Hno. rewrite extract_metadata_eq.
  change (lit "---" ++ [nl] ++ front ++ [nl] ++ lit "---" ++ [nl] ++ rest)
    with ((lit "---" ++ [nl])
            ++ (front ++ ([nl] ++ lit "---" ++ [nl]) ++ rest)).
  rewrite strip_prefix_startswith, startswith_app.
  change (length (lit "---" ++ [nl])) with 4.
  change (skipn 4 ((lit "---" ++ [nl])
                     ++ front ++ ([nl] ++ lit "---" ++ [nl]) ++ rest))
    with (front ++ ([nl] ++ lit "---" ++ [nl]) ++ rest).
  assert (Hi : index_of ([nl] ++ lit "---" ++ [nl])
                        (front ++ ([nl] ++ lit "---" ++ [nl]) ++ rest)
               = Some (length front)).
  { apply index_of_first.
    - rewrite skipn_app, skipn_all, Nat.sub_diag. cbn [skipn app].
      apply (startswith_app ([nl] ++ lit "---" ++ [nl])).
    - rewrite length_app. lia.
    - intros j Hj.
      destruct (startswith ([nl] ++ lit "---" ++ [nl])
                  (skipn j (front ++ ([nl] ++ lit "---" ++ [nl]) ++ rest)))
        eqn:E; [|reflexivity].
      exfalso. apply Hno.
      rewrite skipn_app in E. replace (j - length front) with 0 in E by lia.
      cbn [skipn] in E.
      rewrite <- (firstn_skipn j front).
      assert (Hu : skipn j front <> []).
      { intro Hnil. apply (f_equal (@length _)) in Hnil.
        rewrite length_skipn in Hnil. cbn [length] in Hnil. lia. }
      destruct (skipn j front) as [|c0 u]; [congruence|].
      cbn [app lit String.list_ascii_of_string startswith] in E.
      apply andb_true_iff in E as [E0 E]. apply Ascii.eqb_eq in E0.
      subst c0. rewrite split_app. apply in_or_app. right.
      destruct u as [|c1 u]; cbn [app startswith] in E;
        apply andb_true_iff in E as [E1 E]; apply Ascii.eqb_eq in E1;
        [discriminate|subst c1].
      destruct u as [|c2 u]; cbn [app startswith] in E;
        apply andb_true_iff in E as [E2 E]; apply Ascii.eqb_eq in E2;
        [discriminate|subst c2].
      destruct u as [|c3 u]; cbn [app startswith] in E;
        apply andb_true_iff in E as [E3 E]; apply Ascii.eqb_eq in E3;
        [discriminate|subst c3].
      destruct u as [|c4 u].
      + now left.
      + cbn [app startswith] in E.
        apply andb_true_iff in E as [E4 E]. apply Ascii.eqb_eq in E4.
        subst c4.
        change ("-"%char :: "-"%char :: "-"%char :: nl :: u)
          with (lit "---" ++ nl :: u).
        rewrite split_app. apply in_or_app. left. now left. }
  rewrite Hi. now rewrite firstn_app, firstn_all, Nat.sub_diag, firstn_0,
                          app_nil_r.
Qed.

Lemma X10_front_matter_witness :
  extract_metadata doc_front_matter
  = [(lit "title", lit "Intro"); (lit "type", lit "tutorial")].
Proof.
  unfold doc_front_matter.
  rewrite (X10_front_matter_read front_sample (lit "# Intro")).
  - reflexivity.
  - vm_compute. intros [H|[H|[]]]; discriminate.
Defined.

(** X11. The dictionary [extract_metadata] returns is well formed: no
    key occurs twice, no key begins or ends with a blank, and no
    value begins or ends with a quote character. *)
Theorem X11_metadata_well_formed (content : str) :
  NoDup (keys (extract_metadata content)) /\
  Forall (fun kv => strip (fst kv) = fst kv /\
                    strip_chars quote_chars (snd kv) = snd kv)
         (extract_metadata content).
Proof.
  assert (Hfold : forall lines metadata,
             NoDup (keys metadata) ->
             Forall (fun kv => strip (fst kv) = fst kv /\
                               strip_chars quote_chars (snd kv) = snd kv)
                    metadata ->
             NoDup (keys (fold_left metadata_step lines metadata)) /\
             Forall (fun kv => strip (fst kv) = fst kv /\
                               strip_chars quote_chars (snd kv) = snd kv)
                    (fold_left metadata_step lines metadata)).
  { induction lines as [|line rest IH]; intros metadata Hnd Hall;
      [now split|].
    cbn [fold_left]. apply IH; unfold metadata_step;
      destruct (has_char ":" line); auto;
      destruct (split1 ":" line) as [key [value|]]; auto.
    - now apply dict_set_nodup.
    - apply Forall_forall. intros [a b] Hin.
      apply dict_set_in in Hin as [Hin|[-> ->]].
      + rewrite Forall_forall in Hall. now apply Hall.
      + cbn [fst snd]. split; [apply strip_idem|].
        unfold strip_chars. apply strip_by_idem. }
  unfold extract_metadata.
  destruct (re_match frontmatter_pattern content).
  - apply Hfold; constructor.
  - split; constructor.
Qed.

(** ** Statistics and summary of a Markdown text *)

Section MarkdownCounts.

Lemma headers_of_length (l : list str) (i : nat) :
  length (headers_of (enumerate_from i l)) <= length l.
Proof.
  revert i. induction l as [|line rest IH]; intro i; [apply le_n|].
  cbn [enumerate_from headers_of length].
  specialize (IH (S i)).
  destruct (header_of_line i line); cbn [length]; lia.
Qed.

Lemma count_words_from_bound (s : str) (in_word : bool) :
  2 * count_words_from in_word s
  <= length s + if in_word then 0 else 1.
Proof.
  revert in_word. induction s as [|c t IH]; intro in_word.
  - cbn [count_words_from length]. lia.
  - cbn [count_words_from length].
    destruct (is_space c).
    + specialize (IH false). cbv iota in IH. destruct in_word; lia.
    + specialize (IH true). cbv iota in IH. destruct in_word; lia.
Qed.

(** The lines a summary is made of: not blank and no header. *)
Lemma summary_scan_found (lines : list str) :
  forall summary_lines,
    length summary_lines < 3 ->
    summary_scan lines summary_lines true
    = firstn 3 (summary_lines
                  ++ filter (fun l => is_nonempty l
                                      && negb (startswith (lit "#") l))
                            (map strip lines)).
Proof.
  induction lines as [|line rest IH]; intros acc Hacc.
  - cbn [summary_scan map filter]. rewrite app_nil_r.
    symmetry. apply firstn_all2. lia.
  - cbn [summary_scan map filter]. cbv zeta.
    destruct (is_nonempty (strip line)); cbn [negb andb];
      [|now apply IH].
    destruct (startswith (lit "#") (strip line)); cbn [negb andb];
      [now apply IH|].
    destruct (3 <=? length (acc ++ [strip line])) eqn:E.
    + apply Nat.leb_le in E. rewrite length_app in E. cbn [length] in E.
      replace (acc ++ strip line :: filter _ (map strip rest))
        with ((acc ++ [strip line]) ++ filter
                (fun l => is_nonempty l && negb (startswith (lit "#") l))
                (map strip rest))
        by (now rewrite <- app_assoc).
      rewrite firstn_app.
      replace (3 - length (acc ++ [strip line])) with 0
        by (rewrite length_app; cbn [length]; lia).
      rewrite firstn_0, app_nil_r. symmetry. apply firstn_all2.
      rewrite length_app. cbn [length]. lia.
    + apply Nat.leb_gt in E. rewrite IH by exact E.
      now rewrite <- app_assoc.
Qed.

Lemma summary_scan_before (pre : list str) (rest : list str) :
  (forall l, In l pre -> startswith (lit "#") (strip l) = false) ->
  summary_scan (pre ++ rest) [] false = summary_scan rest [] false.
Proof.
  induction pre as [|line pre IH]; intro H; [reflexivity|].
  cbn [app summary_scan]. cbv zeta.
  rewrite (H line) by now left. cbn [andb].
  assert (IH' := IH (fun l Hl => H l (or_intror Hl))).
  now destruct (is_nonempty (strip line)); cbn [negb].
Qed.

End MarkdownCounts.

(** X12. The statistics of [analyze_content_structure] agree with
    each other: there are as many sections as headers, at most as
    many headers as lines, one line more than there are newlines in
    the text (so at least one), and the words, which are separated by
    blanks, number at most half the characters, rounded up. *)
Theorem X12_statistics_consistent (content file_path : str) :
  let st := a_statistics (analyze_content_structure content file_path) in
  st_sections st = st_headers st /\
  st_headers st <= st_lines st /\
  st_lines st = count_nl content + 1 /\
  2 * st_words st <= length content + 1.
Proof.
  cbn [analyze_content_structure a_statistics st_sections st_headers
       st_lines st_words].
  repeat split.
  - unfold extract_sections. apply sections_of_length.
  - unfold extract_headers, enumerate. apply headers_of_length.
  - apply split_length.
  - apply (count_words_from_bound content false).
Qed.

(** X13. Without a header there is no summary.  When no line of the
    text, once trimmed, starts with a hash, [get_chapter_summary]
    returns [No summary available], however much text there is. *)
Theorem X13_no_header_no_summary (content : str) :
  (forall l, In l (split nl content) ->
             startswith (lit "#") (strip l) = false) ->
  get_chapter_summary content = no_summary.
Proof.
  intro H. unfold get_chapter_summary.
  rewrite <- (app_nil_r (split nl content)).
  now rewrite summary_scan_before.
Qed.

Lemma X13_plain_text_witness :
  get_chapter_summary (lit "Just some text, and more of it.") = no_summary.
Proof.
  apply X13_no_header_no_summary.
  vm_compute. intros l [<-|[]]. reflexivity.
Defined.

(** X14. What the summary is made of.  When the first line that,
    once trimmed, starts with a hash is followed by the lines [post],
    [get_chapter_summary] takes the first three of those lines that
    are neither blank nor starting with a hash, trimmed; it joins
    them with single spaces, keeps at most 200 characters and always
    appends three dots, also when nothing was cut.  Without such
    lines the result is [No summary available]. *)
Theorem X14_summary_after_first_header
        (content : str) (pre : list str) (h : str) (post : list str) :
  split nl content = pre ++ h :: post ->
  (forall l, In l pre -> startswith (lit "#") (strip l) = false) ->
  startswith (lit "#") (strip h) = true ->
  let text := firstn 3 (filter (fun l => is_nonempty l
                                         && negb (startswith (lit "#") l))
                               (map strip post)) in
  get_chapter_summary content
  = if is_nonempty text
    then firstn 200 (join (lit " ") text) ++ lit "..."
    else no_summary.
Proof.
  intros Hlines Hpre Hh. cbv zeta. unfold get_chapter_summary.
  rewrite Hlines, summary_scan_before by exact Hpre.
  cbn [summary_scan]. cbv zeta. rewrite Hh.
  destruct (strip h) as [|c t] eqn:E; [discriminate|].
  cbn [is_nonempty negb].
  rewrite summary_scan_found by (cbn [length]; lia).
  reflexivity.
Qed.

Lemma X14_summary_witness :
  get_chapter_summary doc_tutorial
  = lit "Some text. Do X. Answer." ++ lit "...".
Proof.
  rewrite (X14_summary_after_first_header
             doc_tutorial [] (lit "# Intro")
             (map lit [""; "Some text."; ""; "## Exercise"; ""; "Do X."; "";
                       "## Solution"; ""; "Answer."]%string)).
  - reflexivity.
  - reflexivity.
  - intros l [].
  - reflexivity.
Defined.

(** ** A section read on its own *)

Section SectionReparse.

Lemma header_of_line_any (i j : nat) (line : str) (h : header) :
  header_of_line i line = Some h ->
  header_of_line j line = Some (Header (h_level h) (h_text h) (j + 1)).
Proof.
  unfold header_of_line. destruct (re_match atx_pattern line);
    [|discriminate].
  now intros [= <-].
Qed.

Lemma find_end_deeper (level : nat) (later : list header) (n : nat) :
  Forall (fun r => level < h_level r) later -> find_end level later n = n.
Proof.
  induction 1 as [|r later Hr _ IH]; [reflexivity|].
  cbn [find_end]. apply Nat.leb_gt in Hr. now rewrite Hr.
Qed.

Lemma nth_error_slice {A} (l : list A) (a b j : nat) :
  j < b - a -> nth_error (slice l a b) j = nth_error l (a + j).
Proof.
  intro H. unfold slice. rewrite nth_error_firstn, nth_error_skipn.
  apply Nat.ltb_lt in H. now rewrite H.
Qed.

Lemma section_title (content : str) (i : nat) (s : section) (h : header) :
  nth_error (extract_sections content) i = Some s ->
  nth_error (extract_headers content) i = Some h ->
  s_title s = h_text h.
Proof.
  intros Hs Hh. unfold extract_sections in Hs.
  rewrite (sections_of_nth _ _ _ _ Hh) in Hs. cbv zeta in Hs.
  now inversion Hs.
Qed.

(** The line a header was read from. *)
Lemma header_line_text (content : str) (h : header) :
  In h (extract_headers content) ->
  exists line,
    nth_error (split nl content) (h_line h - 1) = Some line /\
    header_of_line (h_line h - 1) line = Some h.
Proof.
  unfold extract_headers, enumerate. intro H.
  apply headers_of_in in H as (i0 & line & Hin & Hl).
  pose proof (header_of_line_line _ _ _ Hl) as Hi.
  apply enumerate_from_in in Hin as [_ Hn].
  exists line. replace (h_line h - 1) with i0 by lia.
  rewrite Nat.sub_0_r in Hn. now split.
Qed.

(** A header found in the lines of a section, other than its first
    line, lies deeper than the header of the section. *)
Lemma inner_headers_deeper (content : str) (i : nat) (h : header)
      (b j : nat) (line : str) (r : header) :
  nth_error (extract_headers content) i = Some h ->
  section_ends (extract_headers content) (length (split nl content))
               i h b ->
  h_line h <= j -> j < b ->
  nth_error (split nl content) j = Some line ->
  header_of_line j line = Some r ->
  h_level h < h_level r.
Proof.
  intros Hh Hends Hlo Hhi Hline Hr.
  assert (Hin : In r (extract_headers content)).
  { unfold extract_headers, enumerate. apply headers_of_in.
    exists j, line. split; [|exact Hr].
    now apply (enumerate_from_nth (split nl content) 0 j line). }
  pose proof (header_of_line_line _ _ _ Hr) as Hrl.
  apply In_nth_error in Hin as [k Hk].
  assert (Hik : i < k).
  { destruct (Nat.le_gt_cases k i) as [Hle|Hgt]; [|exact Hgt].
    pose proof (header_lines_ordered _ _ _ _ _ Hk Hh Hle). lia. }
  destruct Hends as [(c & hc & Hic & Hc & _ & Hbetween & Hb) | [Hall _]].
  - apply (Hbetween k r); [|exact Hk]. split; [exact Hik|].
    destruct (Nat.le_gt_cases c k) as [Hle|Hgt]; [|exact Hgt].
    pose proof (header_lines_ordered _ _ _ _ _ Hc Hk Hle).
    pose proof (header_facts _ _ (nth_error_In _ _ Hc)). lia.
  - now apply (Hall k r).
Qed.

End SectionReparse.

(** X15. A section parses to itself.  When the content of a section
    is given to [extract_sections] as a text of its own, the first
    section found is that section again: same title, same level,
    same content, now starting on line 1 and ending on its last line.
    Every other header in it lies deeper. *)
Theorem X15_section_parses_to_itself (content : str) (s : section) :
  In s (extract_sections content) ->
  hd_error (extract_sections (s_content s))
  = Some (Section_ (s_title s) (s_level s) (s_content s) 1
                   (s_end_line s - s_start_line s + 1)) /\
  Forall (fun r => s_level s < h_level r)
         (tl (extract_headers (s_content s))).
Proof.
  intro Hs. apply In_nth_error in Hs as [i Hs].
  destruct (section_facts content i s Hs)
    as (h & Hh & Hstart & Hlevel & Hc & Hends & Hl).
  pose proof (section_title content i s h Hs Hh) as Htitle.
  pose proof (section_end_bounds _ _ _ _ Hh Hends) as Hb.
  destruct (header_line_text content h (nth_error_In _ _ Hh))
    as (line & Hline & Hhl).
  set (lines := split nl content) in *.
  set (a := h_line h - 1) in *.
  set (b := s_end_line s) in *.
  assert (Hlen : length (slice lines a b) = b - a)
    by (apply slice_length; lia).
  assert (Hsplit : split nl (s_content s) = slice lines a b).
  { rewrite Hc. apply split_join.
    - intro E. rewrite E in Hlen. cbn [length] in Hlen. lia.
    - intros l Hin. apply slice_in in Hin.
      now apply (split_no_sep nl content). }
  assert (H0 : nth_error (slice lines a b) 0 = Some line).
  { rewrite nth_error_slice by lia. now rewrite Nat.add_0_r. }
  destruct (slice lines a b) as [|line0 sub'] eqn:Esub; [discriminate H0|].
  cbn [nth_error] in H0. inversion H0; subst line0. clear H0.
  assert (Hdeep : Forall (fun r => h_level h < h_level r)
                         (headers_of (enumerate_from 1 sub'))).
  { apply Forall_forall. intros r Hr.
    apply headers_of_in in Hr as (j & line' & Hin & Hr).
    apply enumerate_from_in in Hin as [Hj Hn].
    assert (Hjlen : j < b - a).
    { cbn [length] in Hlen.
      assert (j - 1 < length sub')
        by (apply nth_error_Some; rewrite Hn; discriminate).
      lia. }
    assert (Hsub : nth_error (slice lines a b) j = Some line').
    { rewrite Esub. destruct j as [|j']; [lia|].
      cbn [nth_error]. now rewrite Nat.sub_succ, Nat.sub_0_r in Hn. }
    rewrite nth_error_slice in Hsub by exact Hjlen.
    pose proof (header_of_line_any j (a + j) line' r Hr) as Hr'.
    apply (inner_headers_deeper
             content i h b (a + j) line'
             (Header (h_level r) (h_text r) (a + j + 1)) Hh Hends);
      [unfold a; lia|lia|exact Hsub|exact Hr']. }
  unfold extract_sections, extract_headers, enumerate. rewrite Hsplit.
  cbn [enumerate_from headers_of].
  rewrite (header_of_line_any _ 0 line h Hhl).
  cbn [sections_of tl hd_error h_line h_level h_text Nat.add Nat.sub].
  rewrite (find_end_deeper _ _ _ Hdeep).
  split; [|now rewrite Hlevel].
  f_equal. rewrite Htitle, Hlevel. f_equal.
  - rewrite Hc. f_equal.
    unfold slice. rewrite Nat.sub_0_r. cbn [skipn]. apply firstn_all.
  - rewrite Hlen, Hstart. unfold a. lia.
Qed.

Lemma X15_section_witness :
  hd_error (extract_sections
              (join [nl] (map lit ["## B"; "text"; "text"]%string)))
  = Some (Section_ (lit "B") 2
            (join [nl] (map lit ["## B"; "text"; "text"]%string)) 1 3).
Proof.
  apply (proj1 (X15_section_parses_to_itself
                  doc_abcd
                  (Section_ (lit "B") 2
                     (join [nl] (map lit ["## B"; "text"; "text"]%string))
                     3 5)
                  ltac:(vm_compute; right; now left))).
Defined.

(* ================================================================= *)
(** * Further properties of the client *)

Section ResponseLines.

Lemma closer_is_no_opener (line : str) :
  closes_json_block line = true -> opens_json_block line = false.
Proof.
  unfold closes_json_block, opens_json_block. intro H.
  apply str_eqb_eq in H. now rewrite H.
Qed.

(** Outside a block, lines that open none are passed over. *)
Lemma collect_before (before rest : list str) :
  (forall l, In l before -> opens_json_block l = false) ->
  collect_json_lines (before ++ rest) false []
  = collect_json_lines rest false [].
Proof.
  induction before as [|line before IH]; intro H; [reflexivity|].
  cbn [app collect_json_lines].
  change (startswith (lit "```json") (strip line)
          || startswith (lit "```{") (strip line))
    with (opens_json_block line).
  rewrite (H line) by now left. rewrite andb_false_r.
  apply IH. intros l Hl. apply H. now right.
Qed.

(** Inside a block, lines that neither open nor close are kept. *)
Lemma collect_payload (payload rest json_lines : list str) :
  (forall l, In l payload ->
             opens_json_block l = false /\ closes_json_block l = false) ->
  collect_json_lines (payload ++ rest) true json_lines
  = collect_json_lines rest true (json_lines ++ payload).
Proof.
  revert json_lines.
  induction payload as [|line payload IH]; intros json_lines H.
  - now rewrite app_nil_r.
  - cbn [app collect_json_lines].
    change (startswith (lit "```json") (strip line)
            || startswith (lit "```{") (strip line))
      with (opens_json_block line).
    change (str_eqb (strip line) (lit "```"))
      with (closes_json_block line).
    destruct (H line (or_introl eq_refl)) as [-> ->]. cbn [andb].
    rewrite IH by (intros l Hl; apply H; now right).
    now rewrite <- app_assoc.
Qed.

Lemma collect_nothing (lines : list str) :
  (forall l, In l lines -> opens_json_block l = false) ->
  collect_json_lines lines false [] = [].
Proof.
  intro H. rewrite <- (app_nil_r lines). now rewrite collect_before.
Qed.

End ResponseLines.





Section ClientRequests.

Context {backend : Type}.
Variable generate_content : backend -> str -> result (option str) * backend.
Variable get_primary_analysis_prompt : str -> json -> str -> str.

(** The prompt of a request. *)
Lemma analyze_content_world (content file_path : str) (title : json)
      (w : world backend) :
  let prompt :=
    get_primary_analysis_prompt content
      (if truthy title then title
       else JStr (last (split "/" file_path) []))
      file_path in
  snd (analyze_content generate_content get_primary_analysis_prompt
                       content file_path title w)
  = World (snd (generate_content (w_backend w) prompt))
          (w_calls w ++ [Call file_path prompt]).
Proof.
  cbv zeta. unfold analyze_content.
  destruct (generate_content _ _) as [response b]. cbn [snd].
  destruct response as [[text|]|e]; try reflexivity.
  destruct (is_nonempty text); try reflexivity.
  destruct (_parse_json_response text) as [parsed|e]; try reflexivity.
  destruct (truthy parsed); reflexivity.
Qed.

Lemma analyze_content_none_or_truthy (content file_path : str)
      (title : json) (w : world backend) :
  let r := fst (analyze_content generate_content get_primary_analysis_prompt
                                content file_path title w) in
  r = JNull \/ truthy r = true.
Proof.
  cbv zeta. unfold analyze_content.
  destruct (generate_content _ _) as [response b].
  destruct response as [[text|]|e]; try (now left).
  destruct (is_nonempty text); try (now left).
  destruct (_parse_json_response text) as [parsed|e]; try (now left).
  destruct (truthy parsed) eqn:E; [now right|now left].
Qed.

Lemma title_of_path (file_path : str) :
  (if truthy (JStr (last (split "/" file_path) []))
   then JStr (last (split "/" file_path) [])
   else JStr (last (split "/" file_path) []))
  = JStr (last (split "/" file_path) []).
Proof. now destruct (truthy _). Qed.

Lemma batch_items_spec (items : list (str * str)) :
  forall (results : dict json) (w : world backend),
    let r := batch_items generate_content get_primary_analysis_prompt
                         items results w in
    w_calls (snd r)
    = w_calls w
        ++ map (fun fc =>
                  Call (fst fc)
                       (get_primary_analysis_prompt
                          (snd fc)
                          (JStr (last (split "/" (fst fc)) []))
                          (fst fc)))
               items /\
    (NoDup (keys results ++ keys items) ->
     keys (fst r) = keys results ++ keys items) /\
    (Forall (fun kv => snd kv = JNull \/ truthy (snd kv) = true) results ->
     Forall (fun kv => snd kv = JNull \/ truthy (snd kv) = true) (fst r)).
Proof.
  induction items as [|[file_path content] rest IH]; intros results w.
  - cbn [batch_items map keys fst snd]. rewrite !app_nil_r. auto.
  - cbn [batch_items]. cbv zeta.
    pose proof (analyze_content_world
                  content file_path
                  (JStr (last (split "/" file_path) [])) w) as Hw.
    pose proof (analyze_content_none_or_truthy
                  content file_path
                  (JStr (last (split "/" file_path) [])) w) as Hr.
    cbv zeta in Hw, Hr. rewrite title_of_path in Hw.
    destruct (analyze_content _ _ content file_path _ w)
      as [analysis_result w'].
    cbn [fst snd] in Hw, Hr. subst w'.
    specialize (IH (dict_set results file_path analysis_result)
                   (World (snd (generate_content (w_backend w)
                                  (get_primary_analysis_prompt content
                                     (JStr (last (split "/" file_path) []))
                                     file_path)))
                          (w_calls w
                             ++ [Call file_path
                                   (get_primary_analysis_prompt content
                                      (JStr (last (split "/" file_path) []))
                                      file_path)]))).
    cbv zeta in IH. destruct IH as (Hcalls & Hkeys & Hall).
    split; [|split].
    + rewrite Hcalls. cbn [w_calls map fst snd].
      now rewrite <- app_assoc.
    + intro Hnd. cbn [keys map fst] in Hnd.
      apply NoDup_app_cons in Hnd as (Hnd & Hnew & _).
      rewrite Hkeys; rewrite keys_dict_set_new by exact Hnew.
      * cbn [keys map fst]. now rewrite <- app_assoc.
      * exact Hnd.
    + intro Hres. apply Hall. apply Forall_forall. intros [a b] Hin.
      apply dict_set_in in Hin as [Hin|[-> ->]].
      * rewrite Forall_forall in Hres. now apply Hres.
      * exact Hr.
Qed.

End ClientRequests.


(** X19. A batch is one request per file.  [batch_analyze_content]
    sends the backend one request for every file of the map, in the
    order of the map, each with the last component of the path as
    title; it returns a result for every file, under the same keys in
    the same order; and every result is [None] or a value that counts
    as true. *)
Theorem X19_batch_one_request_per_file
        {backend : Type}
        (generate_content : backend -> str -> result (option str) * backend)
        (get_primary_analysis_prompt : str -> json -> str -> str)
        (content_map : dict str) (w : world backend) :
  NoDup (keys content_map) ->
  let r := batch_analyze_content generate_content get_primary_analysis_prompt
                                 content_map w in
  keys (fst r) = keys content_map /\
  w_calls (snd r)
  = w_calls w
      ++ map (fun fc =>
                Call (fst fc)
                     (get_primary_analysis_prompt
                        (snd fc) (JStr (last (split "/" (fst fc)) []))
                        (fst fc)))
             content_map /\
  Forall (fun kv => snd kv = JNull \/ truthy (snd kv) = true) (fst r).
Proof.
  intro Hnd. cbv zeta. unfold batch_analyze_content.
  destruct (batch_items_spec generate_content get_primary_analysis_prompt
                             content_map [] w) as (Hcalls & Hkeys & Hall).
  repeat split.
  - now apply Hkeys.
  - exact Hcalls.
  - apply Hall. constructor.
Qed.

Lemma X19_batch_witness :
  keys (fst (batch_analyze_content backend_ok prompt_of three_files world0))
  = [lit "intro.md"; lit "broken.ipynb"; lit "setup.md"] /\
  map call_file
      (w_calls (snd (batch_analyze_content backend_ok prompt_of three_files
                                           world0)))
  = [lit "intro.md"; lit "broken.ipynb"; lit "setup.md"].
Proof.
  destruct (X19_batch_one_request_per_file backend_ok prompt_of three_files
                                           world0)
    as (Hkeys & Hcalls & _).
  - vm_compute. repeat constructor; cbn; intuition discriminate.
  - split; [exact Hkeys|]. rewrite Hcalls. reflexivity.
Defined.

(* ================================================================= *)
(** * Further properties of the notebook parser *)

(** ** Errors of the decoder *)

Section DecoderErrors.

Variable e : exn.

Lemma scanstring_raises (s acc : str) :
  scanstring s acc = Raise e -> e = JSONDecodeError \/ e = outside_model.
Proof.
  enough (Haux : forall n s acc,
             length s <= n -> scanstring s acc = Raise e ->
             e = JSONDecodeError \/ e = outside_model)
    by (apply (Haux (length s)); lia).
  clear s acc. induction n as [|n IHn]; intros s acc Hle;
    (destruct s as [|c t]; [intro H; inversion H; now left|]);
    [simpl in Hle; lia|].
  assert (Hrec : forall u a, length u < length (c :: t) ->
                   scanstring u a = Raise e ->
                   e = JSONDecodeError \/ e = outside_model).
  { intros u a Hu. apply IHn. simpl in *. lia. }
  cbn [scanstring].
  destruct (Ascii.eqb c dquote); [discriminate|].
  destruct (Ascii.eqb c backslash).
  - destruct t as [|e' t']; [intro H; inversion H; now left|].
    repeat match goal with
           | |- (if ?b then _ else _) = _ -> _ =>
               destruct b; [try (apply Hrec; simpl; lia)|]
           end; try (intro H; inversion H; now left).
    destruct t' as [|h1 [|h2 [|h3 [|h4 t'']]]];
      try (intro H; inversion H; now left).
    destruct (hex4 h1 h2 h3 h4); [|intro H; inversion H; now left].
    destruct (_ <? 256); [|intro H; inversion H; now right].
    apply Hrec. simpl. lia.
  - destruct (_ <? 32); [intro H; inversion H; now left|].
    apply Hrec. simpl. lia.
Qed.

Lemma parse_raises (fuel : nat) :
  (forall s, parse_value fuel s = Raise e ->
     e = JSONDecodeError \/ e = outside_model \/ e = out_of_fuel) /\
  (forall s acc, parse_members fuel s acc = Raise e ->
     e = JSONDecodeError \/ e = outside_model \/ e = out_of_fuel) /\
  (forall s acc, parse_items fuel s acc = Raise e ->
     e = JSONDecodeError \/ e = outside_model \/ e = out_of_fuel).
Proof.
  induction fuel as [|fuel [IHv [IHm IHi]]];
    [repeat split; intros; cbn in *;
     match goal with H : Raise _ = Raise _ |- _ => inversion H end; auto|].
  assert (Hdec : forall A (x : result A),
             x = Raise JSONDecodeError -> x = Raise e ->
             e = JSONDecodeError \/ e = outside_model \/ e = out_of_fuel).
  { intros A x -> H. inversion H. auto. }
  split; [|split].
  - intros s. cbn [parse_value].
    destruct s as [|c t]; [now apply Hdec|].
    destruct (Ascii.eqb c dquote).
    { destruct (scanstring t []) as [[x r]|e'] eqn:E; cbn [bind];
        [discriminate|].
      intro H. inversion H; subst e'. apply scanstring_raises in E.
      tauto. }
    destruct (Ascii.eqb c "{").
    { destruct (skip_ws t) as [|c' t']; [now apply Hdec|].
      destruct (Ascii.eqb c' "}"); [discriminate|].
      destruct (Ascii.eqb c' dquote); [|now apply Hdec].
      destruct (parse_members fuel t' []) as [[m r]|e'] eqn:E; cbn [bind];
        [discriminate|].
      intro H. inversion H; subst e'. now apply IHm in E. }
    destruct (Ascii.eqb c "[").
    { destruct (skip_ws t) as [|c' t'] eqn:Et; [now apply Hdec|].
      destruct (Ascii.eqb c' "]"); [discriminate|].
      destruct (parse_items fuel (c' :: t') []) as [[l r]|e'] eqn:E;
        cbn [bind]; [discriminate|].
      intro H. inversion H; subst e'. now apply IHi in E. }
    unfold parse_atom. destruct (first_of _ _); [discriminate|].
    now apply Hdec.
  - intros s acc. cbn [parse_members].
    destruct (scanstring s []) as [[k r]|e'] eqn:Ek; cbn [bind fst snd].
    2:{ intro H. inversion H; subst e'. apply scanstring_raises in Ek.
        tauto. }
    destruct (skip_ws r) as [|c t]; [now apply Hdec|].
    destruct (Ascii.eqb c ":"); [|now apply Hdec].
    destruct (parse_value fuel (skip_ws t)) as [[v r']|e'] eqn:Ev;
      cbn [bind fst snd].
    2:{ intro H. inversion H; subst e'. now apply IHv in Ev. }
    destruct (skip_ws r') as [|c' t']; [now apply Hdec|].
    destruct (Ascii.eqb c' "}"); [discriminate|].
    destruct (Ascii.eqb c' ","); [|now apply Hdec].
    destruct (skip_ws t') as [|q t'']; [now apply Hdec|].
    destruct (Ascii.eqb q dquote); [|now apply Hdec].
    apply IHm.
  - intros s acc. cbn [parse_items].
    destruct (parse_value fuel s) as [[v r]|e'] eqn:Ev;
      cbn [bind fst snd].
    2:{ intro H. inversion H; subst e'. now apply IHv in Ev. }
    destruct (skip_ws r) as [|c t]; [now apply Hdec|].
    destruct (Ascii.eqb c "]"); [discriminate|].
    destruct (Ascii.eqb c ","); [|now apply Hdec].
    apply IHi.
Qed.

(** The decoder raises its own error only, unless the text leaves
    the modelled range. *)
Lemma json_loads_raises (s : str) :
  json_loads s = Raise e -> e = JSONDecodeError \/ e = outside_model.
Proof.
  intro H. pose proof (json_loads_fuel s) as Hfuel.
  assert (Hd : e = JSONDecodeError \/ e = outside_model \/ e = out_of_fuel).
  { unfold json_loads in H.
    destruct (parse_value (S (2 * length s)) (skip_ws s)) as [[v r]|e']
      eqn:Ev; cbn [bind fst snd] in H.
    - destruct (skip_ws r); [discriminate|]. inversion H. auto.
    - inversion H; subst e'.
      now apply (proj1 (parse_raises _)) in Ev. }
  destruct Hd as [Hd|[Hd|Hd]]; auto.
  subst e. now contradiction Hfuel.
Qed.

End DecoderErrors.

(** ** Loading and analysing a notebook *)

Section NotebookFacts.

Import NotebookParser.

Lemma falsy_json_fails (content file_path : str) (v : json) :
  json_loads content = Ret v -> truthy v = false ->
  analyze_notebook_structure content file_path
  = Ret (Failed (lit "Failed to load notebook")).
Proof.
  intros Hv Ht.
  unfold analyze_notebook_structure, load_notebook, from_dict.
  rewrite Hv. cbn [bind]. now rewrite Ht.
Qed.

(** The parts an analysis is assembled from. *)
Lemma analysed_inv (content file_path : str) (a : nb_analysis) :
  analyze_notebook_structure content file_path = Ret (Analysed a) ->
  exists nb metadata cells blocks prog outputs all_cells total,
    json_loads content = Ret nb /\ truthy nb = true /\
    extract_metadata nb = Ret metadata /\
    extract_cells_by_type nb = Ret cells /\
    extract_code_blocks nb = Ret blocks /\
    analyze_learning_progression nb = Ret prog /\
    extract_outputs nb = Ret outputs /\
    getattr nb "cells" = Ret all_cells /\
    len all_cells = Ret total /\
    a = NbAnalysis file_path metadata
          (NbStatistics total (length (code_cells cells))
             (length (markdown_cells cells)) (length (raw_cells cells))
             (list_sum (map cb_lines blocks))
             (length (unique (concat (map cb_imports blocks))))
             (length outputs))
          cells blocks prog outputs
          (unique (concat (map cb_imports blocks)))
          (_determine_notebook_type prog blocks).
Proof.
  unfold analyze_notebook_structure, load_notebook, from_dict.
  destruct (json_loads content) as [nb|e] eqn:E0; cbn [bind].
  2:{ destruct e; cbn; discriminate. }
  destruct (truthy nb) eqn:Et; cbn [negb]; [|discriminate].
  destruct (extract_metadata nb) as [metadata|] eqn:E1; cbn [bind];
    [|discriminate].
  destruct (extract_cells_by_type nb) as [cells|] eqn:E2; cbn [bind];
    [|discriminate].
  destruct (extract_code_blocks nb) as [blocks|] eqn:E3; cbn [bind];
    [|discriminate].
  destruct (analyze_learning_progression nb) as [prog|] eqn:E4;
    cbn [bind]; [|discriminate].
  destruct (extract_outputs nb) as [outputs|] eqn:E5; cbn [bind];
    [|discriminate].
  destruct (getattr nb "cells") as [all_cells|] eqn:E6; cbn [bind];
    [|discriminate].
  destruct (len all_cells) as [total|] eqn:E7; cbn [bind];
    [|discriminate].
  intro H. inversion H.
  exists nb, metadata, cells, blocks, prog, outputs, all_cells, total.
  repeat split; auto.
Qed.

Lemma failed_inv (content file_path error : str) :
  analyze_notebook_structure content file_path = Ret (Failed error) ->
  error = lit "Failed to load notebook" /\
  (json_loads content = Raise JSONDecodeError \/
   exists v, json_loads content = Ret v /\ truthy v = false).
Proof.
  unfold analyze_notebook_structure, load_notebook, from_dict.
  destruct (json_loads content) as [nb|e] eqn:E; cbn [bind].
  - destruct (truthy nb) eqn:Et; cbn [negb].
    + destruct (extract_metadata nb); cbn [bind]; [|discriminate].
      destruct (extract_cells_by_type nb); cbn [bind]; [|discriminate].
      destruct (extract_code_blocks nb); cbn [bind]; [|discriminate].
      destruct (analyze_learning_progression nb); cbn [bind];
        [|discriminate].
      destruct (extract_outputs nb); cbn [bind]; [|discriminate].
      destruct (getattr nb "cells") as [all_cells|]; cbn [bind];
        [|discriminate].
      destruct (len all_cells); cbn [bind]; discriminate.
    + intro H. inversion H. split; [reflexivity|]. right. now exists nb.
  - destruct (json_loads_raises e content E) as [->| ->].
    + cbn. intro H. inversion H. split; [reflexivity|]. now left.
    + cbn. discriminate.
Qed.

End NotebookFacts.


Section NotebookCells.

Import NotebookParser.

Lemma for_each_ok {A St} (f : St -> A -> result St) (l : list A) (st st' : St) :
  for_each f l st = Ret st' ->
  forall x, In x l -> exists s s', f s x = Ret s'.
Proof.
  revert st. induction l as [|a l IH]; intros st H x Hx; [easy|].
  cbn [for_each] in H. destruct (f st a) as [s1|] eqn:E; cbn [bind] in H;
    [|discriminate].
  destruct Hx as [->|Hx]; eauto.
Qed.

Lemma for_each_inv {A St} (f : St -> A -> result St) (I : St -> Prop) :
  (forall s x s', I s -> f s x = Ret s' -> I s') ->
  forall l st st', I st -> for_each f l st = Ret st' -> I st'.
Proof.
  intros Hstep l. induction l as [|a l IH]; intros st st' Hst H.
  - cbn in H. now inversion H; subst.
  - cbn [for_each] in H. destruct (f st a) as [s1|] eqn:E;
      cbn [bind] in H; [|discriminate].
    eapply IH; [|exact H]. eapply Hstep; eauto.
Qed.

Lemma for_each_le {A St} (f : St -> A -> result St) (m : St -> nat)
      (wt : A -> nat) :
  (forall s x s', f s x = Ret s' -> m s' <= m s + wt x) ->
  forall l st st',
    for_each f l st = Ret st' -> m st' <= m st + list_sum (map wt l).
Proof.
  intros Hstep l. induction l as [|a l IH]; intros st st' H.
  - cbn in H. inversion H; subst. cbn. lia.
  - cbn [for_each] in H. destruct (f st a) as [s1|] eqn:E;
      cbn [bind] in H; [|discriminate].
    apply IH in H. apply Hstep in E. simpl list_sum. lia.
Qed.

Lemma for_each_eq {A St} (f : St -> A -> result St) (m : St -> nat)
      (wt : A -> nat) :
  (forall s x s', f s x = Ret s' -> m s' = m s + wt x) ->
  forall l st st',
    for_each f l st = Ret st' -> m st' = m st + list_sum (map wt l).
Proof.
  intros Hstep l. induction l as [|a l IH]; intros st st' H.
  - cbn in H. inversion H; subst. cbn. lia.
  - cbn [for_each] in H. destruct (f st a) as [s1|] eqn:E;
      cbn [bind] in H; [|discriminate].
    apply IH in H. apply Hstep in E. simpl list_sum. lia.
Qed.

Lemma list_sum_ones {A} (l : list A) :
  list_sum (map (fun _ => 1) l) = length l.
Proof. induction l; simpl in *; lia. Qed.

Lemma enumerate_in {A} (l : list A) (x : A) :
  In x l -> exists i, In (i, x) (enumerate l).
Proof.
  intro H. apply In_nth_error in H as [j Hj]. exists (0 + j).
  unfold enumerate. now apply enumerate_from_nth.
Qed.

Lemma len_iterate (v : json) (items : list json) :
  iterate v = Ret items -> len v = Ret (length items).
Proof.
  destruct v; cbn; try discriminate; intro H; inversion H;
    now rewrite ?length_map.
Qed.

Lemma getattr_ok (v : json) (name : string) (x : json) :
  getattr v name = Ret x ->
  exists d, v = JObj d /\ dict_get d (lit name) = Some x.
Proof.
  destruct v; cbn; try discriminate.
  destruct (dict_get members (lit name)) eqn:E; [|discriminate].
  intro H. inversion H; subst. eauto.
Qed.

Lemma cells_step_ok (c c' : cells_by_type) (i : nat) (cell : json) :
  cells_step c (i, cell) = Ret c' ->
  exists d t, cell = JObj d /\ dict_get d (lit "cell_type") = Some t.
Proof.
  unfold cells_step. destruct cell; try (cbn; discriminate).
  cbn [get bind].
  destruct (getattr (JObj members) "cell_type") as [t|] eqn:E;
    [|cbn; discriminate].
  apply getattr_ok in E as (d & Hd & Ht). inversion Hd; subst. eauto.
Qed.

Lemma code_blocks_step_ok (acc acc' : list nb_code_block) (i : nat)
      (d : list (str * json)) (t : json) :
  code_blocks_step acc (i, JObj d) = Ret acc' ->
  dict_get d (lit "cell_type") = Some t -> is_str t "code" = true ->
  dict_get d (lit "source") = None \/
  exists s, dict_get d (lit "source") = Some (JStr s).
Proof.
  unfold code_blocks_step, getattr, get. intros H Ht Hc.
  rewrite Ht in H. cbn [bind] in H. rewrite Hc in H. cbn [bind] in H.
  destruct (dict_get d (lit "source")) as [x|]; [|now left].
  destruct x; cbn in H; try discriminate. right. eauto.
Qed.

Lemma markdown_step_ok (acc acc' : list str) (d : list (str * json))
      (t : json) :
  markdown_step acc (JObj d) = Ret acc' ->
  dict_get d (lit "cell_type") = Some t -> is_str t "markdown" = true ->
  dict_get d (lit "source") = None \/
  exists s, dict_get d (lit "source") = Some (JStr s).
Proof.
  unfold markdown_step, getattr, get. intros H Ht Hc.
  rewrite Ht in H. cbn [bind] in H. rewrite Hc in H. cbn [bind] in H.
  destruct (dict_get d (lit "source")) as [x|]; [|now left].
  destruct x; cbn in H; try discriminate. right. eauto.
Qed.

(** The loops of a successful analysis. *)
Lemma analysed_loops (nb : json) (cells : cells_by_type)
      (blocks : list nb_code_block) (prog : progression) :
  extract_cells_by_type nb = Ret cells ->
  extract_code_blocks nb = Ret blocks ->
  analyze_learning_progression nb = Ret prog ->
  exists d all_cells items parts,
    nb = JObj d /\ dict_get d (lit "cells") = Some all_cells /\
    iterate all_cells = Ret items /\
    for_each cells_step (enumerate items) (Cells [] [] []) = Ret cells /\
    for_each code_blocks_step (enumerate items) [] = Ret blocks /\
    for_each markdown_step items [] = Ret parts /\
    total_cells prog = length items.
Proof.
  unfold extract_cells_by_type, extract_code_blocks,
    analyze_learning_progression, extract_markdown_content.
  destruct (getattr nb "cells") as [all_cells|] eqn:Eg; cbn [bind];
    [|discriminate].
  apply getattr_ok in Eg as (d & -> & Hd).
  destruct (iterate all_cells) as [items|] eqn:Ei; cbn [bind];
    [|discriminate].
  rewrite (len_iterate _ _ Ei). cbn [bind].
  intros Hc Hb Hp.
  destruct (for_each (count_type "code") items 0); cbn [bind] in Hp;
    [|discriminate].
  destruct (for_each (count_type "markdown") items 0); cbn [bind] in Hp;
    [|discriminate].
  destruct (for_each markdown_step items []) as [parts|] eqn:Em;
    cbn [bind] in Hp; [|discriminate].
  destruct (for_each complexity_step (enumerate items) []);
    cbn [bind] in Hp; [|discriminate].
  inversion Hp. exists d, all_cells, items, parts.
  repeat split; auto.
Qed.

Lemma cells_readable (items : list json) (cells : cells_by_type)
      (blocks : list nb_code_block) (parts : list str) :
  for_each cells_step (enumerate items) (Cells [] [] []) = Ret cells ->
  for_each code_blocks_step (enumerate items) [] = Ret blocks ->
  for_each markdown_step items [] = Ret parts ->
  Forall readable_cell items.
Proof.
  intros Hc Hb Hm. apply Forall_forall. intros cell Hin.
  destruct (enumerate_in items cell Hin) as [i Hi].
  destruct (for_each_ok _ _ _ _ Hc _ Hi) as (c & c' & Hstep).
  apply cells_step_ok in Hstep as (d & t & -> & Ht).
  exists d, t. repeat split; auto. intros [Hcode|Hmd].
  - destruct (for_each_ok _ _ _ _ Hb _ Hi) as (acc & acc' & Hstep).
    now apply (code_blocks_step_ok acc acc' i d t).
  - destruct (for_each_ok _ _ _ _ Hm _ Hin) as (acc & acc' & Hstep).
    now apply (markdown_step_ok acc acc' d t).
Qed.

Lemma length_enumerate_from {A} (l : list A) (i : nat) :
  length (enumerate_from i l) = length l.
Proof.
  revert i. induction l as [|x l IH]; intro i; [reflexivity|].
  cbn [enumerate_from length]. now rewrite IH.
Qed.

Lemma cells_step_count (c c' : cells_by_type) (ic : nat * json) :
  cells_step c ic = Ret c' ->
  length (code_cells c') + length (markdown_cells c')
  + length (raw_cells c')
  <= length (code_cells c) + length (markdown_cells c)
     + length (raw_cells c) + 1 /\
  length (code_cells c')
  = length (code_cells c) + if is_code_cell (snd ic) then 1 else 0.
Proof.
  destruct ic as [i cell]. unfold cells_step, is_code_cell. cbn [snd].
  destruct cell; try (cbn; discriminate). cbn [get bind].
  destruct (getattr (JObj members) "cell_type") as [t|]; cbn [bind];
    [|discriminate].
  destruct (is_str t "code"); [|destruct (is_str t "markdown");
                                 [|destruct (is_str t "raw")]];
    intro H; inversion H; subst;
    cbn [code_cells markdown_cells raw_cells]; rewrite ?length_app;
    cbn [length]; lia.
Qed.

Lemma code_blocks_step_count (acc acc' : list nb_code_block)
      (ic : nat * json) :
  code_blocks_step acc ic = Ret acc' ->
  length acc' <= length acc + (if is_code_cell (snd ic) then 1 else 0) /\
  (Forall (fun b => 1 <= cb_lines b) acc ->
   Forall (fun b => 1 <= cb_lines b) acc').
Proof.
  destruct ic as [i cell]. unfold code_blocks_step, is_code_cell.
  cbn [snd].
  destruct (getattr cell "cell_type") as [t|]; cbn [bind]; [|discriminate].
  destruct (is_str t "code"); [|intro H; inversion H; subst; split; auto; lia].
  destruct (get cell "source" (JStr [])) as [x|]; cbn [bind];
    [|discriminate].
  destruct (as_str x) as [source|]; cbn [bind]; [|discriminate].
  destruct (is_nonempty (strip source));
    [|intro H; inversion H; subst; split; auto; lia].
  destruct (get cell "execution_count" JNull); cbn [bind]; [|discriminate].
  destruct (get cell "outputs" (JArr [])); cbn [bind]; [|discriminate].
  intro H. inversion H; subst. split.
  - rewrite length_app. cbn [length]. lia.
  - intro Hall. apply Forall_app. split; [exact Hall|].
    constructor; [|constructor]. cbn [cb_lines].
    destruct (split_cons nl source) as (l & ls & ->). cbn [length]. lia.
Qed.

Lemma length_le_sum {A} (f : A -> nat) (l : list A) :
  Forall (fun x => 1 <= f x) l -> length l <= list_sum (map f l).
Proof.
  induction 1 as [|x l Hx _ IH]; simpl in *; lia.
Qed.

End NotebookCells.

(** X21. What an analysed notebook looks like.  When
    [analyze_notebook_structure] returns an analysis, the content is
    the JSON text of an object with a member [cells]; every cell the
    loops go through is an object with a [cell_type]; the source of
    every code cell and of every Markdown cell is absent or one
    string; and the total number of cells in the statistics, like the
    one in the learning progression, is the number of those cells. *)
Theorem X21_analysis_needs_readable_cells
        (content file_path : str) (a : NotebookParser.nb_analysis) :
  NotebookParser.analyze_notebook_structure content file_path
  = Ret (NotebookParser.Analysed a) ->
  exists members cells items,
    json_loads content = Ret (JObj members) /\
    dict_get members (lit "cells") = Some cells /\
    NotebookParser.iterate cells = Ret items /\
    Forall NotebookParser.readable_cell items /\
    NotebookParser.ns_total_cells (NotebookParser.na_statistics a)
    = length items /\
    NotebookParser.total_cells (NotebookParser.na_learning_progression a)
    = length items.
Proof.
  intro H. apply analysed_inv in H
    as (nb & metadata & cells & blocks & prog & outputs & all_cells & total
        & Hnb & _ & _ & Hc & Hb & Hp & _ & Hg & Hlen & ->).
  destruct (analysed_loops nb cells blocks prog Hc Hb Hp)
    as (d & all_cells' & items & parts & -> & Hd & Hi & Hfc & Hfb & Hfm & Ht).
  cbn [NotebookParser.getattr] in Hg. rewrite Hd in Hg. inversion Hg; subst.
  rewrite (len_iterate _ _ Hi) in Hlen. inversion Hlen; subst.
  exists d, all_cells, items. repeat split; auto.
  now apply (cells_readable items cells blocks parts).
Qed.

Lemma X21_small_notebook_witness :
  exists members cells items,
    json_loads nb_small = Ret (JObj members) /\
    dict_get members (lit "cells") = Some cells /\
    NotebookParser.iterate cells = Ret items /\
    Forall NotebookParser.readable_cell items /\
    length items = 2.
Proof.
  assert (H : exists a,
             NotebookParser.analyze_notebook_structure nb_small []
             = Ret (NotebookParser.Analysed a) /\
             NotebookParser.ns_total_cells (NotebookParser.na_statistics a)
             = 2)
    by (eexists; vm_compute; split; reflexivity).
  destruct H as (a & H & Htotal).
  destruct (X21_analysis_needs_readable_cells nb_small [] a H)
    as (members & cells & items & H1 & H2 & H3 & H4 & H5 & _).
  exists members, cells, items. repeat split; auto. congruence.
Defined.



(** X23. The statistics of a notebook agree with each other.  In
    every analysis [analyze_notebook_structure] returns, the code,
    Markdown and raw cells together are at most the total number of
    cells (cells of another type are counted in the total only);
    there are at most as many code blocks as code cells (blank code
    cells are no blocks); every code block has at least one line, so
    the total of code lines is at least the number of blocks; the
    libraries are listed without repetition and counted as listed;
    and the figure named [cells_with_output] is the number of
    outputs. *)
Theorem X23_notebook_statistics_consistent
        (content file_path : str) (a : NotebookParser.nb_analysis) :
  NotebookParser.analyze_notebook_structure content file_path
  = Ret (NotebookParser.Analysed a) ->
  let st := NotebookParser.na_statistics a in
  NotebookParser.ns_code_cells st + NotebookParser.ns_markdown_cells st
  + NotebookParser.ns_raw_cells st
  <= NotebookParser.ns_total_cells st /\
  length (NotebookParser.na_code_blocks a)
  <= NotebookParser.ns_code_cells st /\
  length (NotebookParser.na_code_blocks a)
  <= NotebookParser.ns_total_code_lines st /\
  NotebookParser.ns_unique_libraries st
  = length (NotebookParser.na_libraries a) /\
  NoDup (NotebookParser.na_libraries a) /\
  NotebookParser.ns_cells_with_output st
  = length (NotebookParser.na_outputs a).
Proof.
  intro H. apply analysed_inv in H
    as (nb & metadata & cells & blocks & prog & outputs & all_cells & total
        & Hnb & _ & _ & Hc & Hb & Hp & _ & Hg & Hlen & ->).
  destruct (analysed_loops nb cells blocks prog Hc Hb Hp)
    as (d & all_cells' & items & parts & -> & Hd & Hi & Hfc & Hfb & Hfm
        & Ht).
  cbn [NotebookParser.getattr] in Hg. rewrite Hd in Hg. inversion Hg; subst.
  rewrite (len_iterate _ _ Hi) in Hlen. inversion Hlen; subst.
  cbv zeta.
  cbn [NotebookParser.na_statistics NotebookParser.ns_code_cells NotebookParser.ns_markdown_cells NotebookParser.ns_raw_cells
       NotebookParser.ns_total_cells NotebookParser.na_code_blocks NotebookParser.ns_total_code_lines
       NotebookParser.ns_unique_libraries NotebookParser.na_libraries NotebookParser.ns_cells_with_output NotebookParser.na_outputs].
  pose proof (for_each_le NotebookParser.cells_step
                (fun c => length (NotebookParser.code_cells c) + length (NotebookParser.markdown_cells c)
                          + length (NotebookParser.raw_cells c))
                (fun _ => 1)
                (fun s x s' Hs => proj1 (cells_step_count s s' x Hs))
                _ _ _ Hfc) as Hsum.
  pose proof (for_each_eq NotebookParser.cells_step
                (fun c => length (NotebookParser.code_cells c))
                (fun ic => if NotebookParser.is_code_cell (snd ic) then 1 else 0)
                (fun s x s' Hs => proj2 (cells_step_count s s' x Hs))
                _ _ _ Hfc) as Hcode.
  pose proof (for_each_le NotebookParser.code_blocks_step (@length _)
                (fun ic => if NotebookParser.is_code_cell (snd ic) then 1 else 0)
                (fun s x s' Hs => proj1 (code_blocks_step_count s s' x Hs))
                _ _ _ Hfb) as Hblocks.
  pose proof (for_each_inv NotebookParser.code_blocks_step
                (Forall (fun b => 1 <= NotebookParser.cb_lines b))
                (fun s x s' Hall Hs =>
                   proj2 (code_blocks_step_count s s' x Hs) Hall)
                _ _ _ (Forall_nil _) Hfb) as Hlines.
  rewrite list_sum_ones in Hsum. unfold enumerate in Hsum.
  rewrite length_enumerate_from in Hsum.
  cbn [NotebookParser.code_cells NotebookParser.markdown_cells NotebookParser.raw_cells length] in Hsum, Hcode, Hblocks.
  repeat split; try lia.
  - apply Nat.le_trans with (m := length blocks); [apply le_n|].
    now apply length_le_sum.
  - unfold NotebookParser.unique. apply NoDup_nodup.
Qed.

Lemma X23_small_notebook_witness :
  exists a,
    NotebookParser.analyze_notebook_structure nb_small []
    = Ret (NotebookParser.Analysed a) /\
    length (NotebookParser.na_code_blocks a)
    <= NotebookParser.ns_code_cells (NotebookParser.na_statistics a).
Proof.
  assert (H : exists a,
             NotebookParser.analyze_notebook_structure nb_small []
             = Ret (NotebookParser.Analysed a))
    by (eexists; vm_compute; reflexivity).
  destruct H as (a & H). exists a. split; [exact H|].
  exact (proj1 (proj2 (X23_notebook_statistics_consistent nb_small [] a H))).
Defined.

(** ** Blank code and the summary of a notebook *)

Section BlankCode.

Import NotebookParser.

Lemma strip_nil_iff (s : str) :
  strip s = [] <-> forallb is_space s = true.
Proof.
  split; [|apply strip_all_blank].
  unfold strip, strip_by. intro H.
  destruct (lstrip_by_suffix is_space s) as [a [Ha Hpa]].
  destruct (rstrip_by_prefix is_space (lstrip_by is_space s))
    as [b [Hb Hpb]].
  rewrite H in Hb. cbn [app] in Hb. rewrite Hb in Ha. rewrite Ha.
  rewrite forallb_app. now rewrite Hpa, Hpb.
Qed.

Lemma blank_by_lines (s : str) :
  forallb is_space s = true <->
  Forall (fun l => forallb is_space l = true) (split nl s).
Proof.
  induction s as [|c t IH]; cbn [split forallb].
  - split; [repeat constructor|reflexivity].
  - destruct (Ascii.eqb c nl) eqn:E.
    + apply Ascii.eqb_eq in E. subst c.
      change (is_space nl) with true. cbn [andb]. rewrite IH. split.
      * intro H. now constructor.
      * intro H. now inversion H.
    + destruct (split_cons nl t) as (l & ls & El). rewrite El in *.
      rewrite andb_true_iff, IH. split.
      * intros [Hc H]. inversion H; subst. constructor; [|assumption].
        cbn [forallb]. now rewrite Hc.
      * intro H. inversion H as [|x y Hx Hy]; subst.
        cbn [forallb] in Hx. apply andb_true_iff in Hx as [Hc Hl].
        split; [exact Hc|now constructor].
Qed.

Lemma no_lines_iff_blank (code : str) :
  filter (fun l => is_nonempty l) (map strip (split nl code)) = [] <->
  strip code = [].
Proof.
  rewrite strip_nil_iff, blank_by_lines.
  induction (split nl code) as [|l ls IH]; cbn [map filter].
  - split; [constructor|reflexivity].
  - destruct (strip l) as [|h t] eqn:E; cbn [is_nonempty].
    + rewrite IH. split.
      * intro H. constructor; [now apply strip_nil_iff|assumption].
      * intro H. now inversion H.
    + split; [discriminate|]. intro H. inversion H as [|x y Hx Hy]; subst.
      apply strip_nil_iff in Hx. congruence.
Qed.

Lemma strip_head (s : str) (h : ascii) (t : str) :
  strip s = h :: t -> is_space h = false.
Proof.
  intro E. pose proof (lstrip_strip s) as Hl. rewrite E in Hl.
  cbn [lstrip_by] in Hl. destruct (is_space h); [|reflexivity].
  exfalso. pose proof (lstrip_by_suffix is_space t) as [a [Ha _]].
  apply (f_equal (@length _)) in Ha, Hl. rewrite length_app in Ha.
  cbn [length] in Hl. lia.
Qed.

Lemma strip_kept (h : ascii) (t : str) (z : ascii) :
  is_space h = false -> is_space z = false ->
  strip (h :: t ++ [z]) = h :: t ++ [z].
Proof.
  intros Hh Hz. unfold strip, strip_by.
  rewrite lstrip_by_stop by exact Hh.
  unfold rstrip_by.
  change (h :: t ++ [z]) with ((h :: t) ++ [z]).
  rewrite rev_app_distr. cbn [rev app].
  rewrite lstrip_by_stop by exact Hz.
  change (z :: rev t ++ [h]) with ([z] ++ rev (h :: t)).
  now rewrite rev_app_distr, rev_involutive.
Qed.

End BlankCode.


(** X25. The summary of a notebook is never empty, has at most 203
    characters, and neither begins nor ends with a blank. *)
Theorem X25_notebook_summary_shape (notebook : json) (summary : str) :
  NotebookParser.get_notebook_summary notebook = Ret summary ->
  summary <> [] /\ length summary <= 203 /\ strip summary = summary.
Proof.
  unfold NotebookParser.get_notebook_summary.
  destruct (NotebookParser.extract_markdown_content notebook) as [md|];
    cbn [bind]; [|discriminate].
  cbv zeta. set (x := strip (join (lit ". ") (firstn 3 (split "." md)))).
  assert (Hx : strip x = x) by apply strip_idem.
  destruct (200 <? length x) eqn:El.
  - apply Nat.ltb_lt in El.
    destruct x as [|h t] eqn:Ex; [cbn [length] in El; lia|].
    assert (Hh : is_space h = false) by (apply (strip_head x h t); congruence).
    rewrite firstn_cons. remember (firstn 199 t) as y eqn:Ey.
    cbn [app is_nonempty]. intros [= <-].
    repeat split.
    + discriminate.
    + cbn [length]. rewrite length_app, Ey, length_firstn.
      pose proof (Nat.le_min_l 199 (length t)).
      cbn [length lit String.list_ascii_of_string]. lia.
    + replace (y ++ ["."%char; "."%char; "."%char])
        with ((y ++ ["."%char; "."%char]) ++ ["."%char])
        by (now rewrite <- app_assoc).
      now apply strip_kept.
  - apply Nat.ltb_ge in El.
    destruct x as [|h t] eqn:Ex; cbn [is_nonempty]; intro H;
      inversion H; subst summary.
    + split; [discriminate|]. split; [vm_compute; lia|reflexivity].
    + split; [discriminate|]. split; [lia|exact Hx].
Qed.

Lemma X25_summary_witness :
  NotebookParser.get_notebook_summary
    (JObj [(lit "cells",
            JArr [JObj [(lit "cell_type", JStr (lit "markdown"));
                        (lit "source", JStr (lit "# Intro"))]])])
  = Ret (lit "# Intro") /\
  strip (lit "# Intro") = lit "# Intro".
Proof.
  assert (H : NotebookParser.get_notebook_summary
                (JObj [(lit "cells",
                        JArr [JObj [(lit "cell_type", JStr (lit "markdown"));
                                    (lit "source", JStr (lit "# Intro"))]])])
              = Ret (lit "# Intro"))
    by (vm_compute; reflexivity).
  split; [exact H|].
  exact (proj2 (proj2 (X25_notebook_summary_shape _ _ H))).
Defined.

(* ================================================================= *)
(** * Further properties of the orchestration *)

Section Requests.

Context {backend : Type}.
Variable generate_content : backend -> str -> result (option str) * backend.
Variable get_primary_analysis_prompt : str -> json -> str -> str.

(** The requests one entry causes. *)
Lemma analyze_item_requests (file_path : str) (content_data : entry)
      (w : world backend) :
  exists title,
    w_calls (snd (analyze_item generate_content get_primary_analysis_prompt
                               file_path content_data w))
    = w_calls w
        ++ if needs_request content_data
           then [Call file_path
                      (get_primary_analysis_prompt (payload content_data)
                                                   title file_path)]
           else [].
Proof.
  destruct content_data as [e c|p]; cbn [analyze_item needs_request payload].
  - exists JNull. now rewrite app_nil_r.
  - destruct (length (strip (p_processed_content p)) <? 100);
      cbn [negb snd].
    + exists JNull. now rewrite app_nil_r.
    + eexists. rewrite analyze_content_world. cbv zeta. cbn [w_calls].
      reflexivity.
Qed.

Lemma analyze_items_requests (items : list (str * entry)) :
  forall (acc : dict json) (w : world backend),
    map call_file
        (w_calls (snd (analyze_items generate_content
                                     get_primary_analysis_prompt
                                     items acc w)))
    = map call_file (w_calls w)
        ++ map fst (filter (fun fe => needs_request (snd fe)) items).
Proof.
  induction items as [|[f e] rest IH]; intros acc w.
  - cbn [analyze_items snd filter map]. now rewrite app_nil_r.
  - cbn [analyze_items].
    destruct (analyze_item_requests f e w) as [title Hreq].
    destruct (analyze_item _ _ f e w) as [result w'].
    cbn [snd] in Hreq. rewrite IH, Hreq, map_app.
    cbn [filter snd]. destruct (needs_request e); cbn [map call_file fst].
    + now rewrite <- app_assoc.
    + now rewrite app_nil_r.
Qed.

Lemma suffix_nonempty (file_path : str) :
  lower (suffix file_path) = lit ".ipynb" -> file_path <> [].
Proof. intros H E. subst. discriminate H. Qed.

End Requests.

(** X26. Text files pass through unchanged.  For a path whose
    extension is not [.ipynb], whatever the case of its letters,
    [_process_single_content] never raises; the payload it returns is
    the content itself, with the Markdown analysis for [.md] and
    [.rst] and line and word counts otherwise; and the orchestrator
    then asks the backend exactly when the trimmed content has 100
    characters or more, with a prompt built from the unchanged
    content. *)
Theorem X26_text_files_pass_through
        {backend : Type}
        (generate_content : backend -> str -> result (option str) * backend)
        (get_primary_analysis_prompt : str -> json -> str -> str)
        (file_path content : str) (w : world backend) :
  lower (suffix file_path) <> lit ".ipynb" ->
  exists p title,
    _process_single_content file_path content = Ret p /\
    p_processed_content p = content /\
    (p_structure p
     = MarkdownStructure (analyze_content_structure content file_path) \/
     p_structure p
     = TextStructure file_path (length (split nl content))
                     (count_words content)) /\
    w_calls (snd (analyze_item generate_content get_primary_analysis_prompt
                               file_path (process_entry file_path content) w))
    = w_calls w
        ++ if length (strip content) <? 100 then []
           else [Call file_path
                      (get_primary_analysis_prompt content title file_path)].
Proof.
  intro Hext.
  assert (Hp : exists p,
             _process_single_content file_path content = Ret p /\
             p_processed_content p = content /\
             (p_structure p
              = MarkdownStructure
                  (analyze_content_structure content file_path) \/
              p_structure p
              = TextStructure file_path (length (split nl content))
                              (count_words content))).
  { unfold _process_single_content.
    rewrite (str_eqb_neq _ _ Hext).
    destruct (str_eqb (lower (suffix file_path)) (lit ".md")
              || str_eqb (lower (suffix file_path)) (lit ".rst"));
      cbn [bind]; eexists; (split; [reflexivity|]); cbn; auto. }
  destruct Hp as (p & Hp & Hc & Hs).
  destruct (analyze_item_requests generate_content
              get_primary_analysis_prompt file_path
              (process_entry file_path content) w) as [title Hreq].
  exists p, title. repeat split; auto.
  rewrite Hreq. unfold process_entry. rewrite Hp.
  cbn [needs_request payload]. rewrite Hc.
  now destruct (length (strip content) <? 100).
Qed.

Lemma X26_markdown_witness :
  exists p title,
    _process_single_content (lit "intro.md") long_text = Ret p /\
    p_processed_content p = long_text /\
    w_calls (snd (analyze_item backend_ok prompt_of (lit "intro.md")
                               (process_entry (lit "intro.md") long_text)
                               world0))
    = [Call (lit "intro.md") (prompt_of long_text title (lit "intro.md"))].
Proof.
  destruct (X26_text_files_pass_through backend_ok prompt_of
              (lit "intro.md") long_text world0)
    as (p & title & H1 & H2 & _ & H4).
  - vm_compute. discriminate.
  - exists p, title. repeat split; auto.
Defined.



(** X28. The backend is asked for the long entries, once each.  The
    requests [_analyze_with_ai] sends are, in the order of the map,
    one for every entry that is not the fallback of a processing
    error and whose payload, trimmed, has 100 characters or more, and
    no other. *)
Theorem X28_requests_for_long_entries
        {backend : Type}
        (generate_content : backend -> str -> result (option str) * backend)
        (get_primary_analysis_prompt : str -> json -> str -> str)
        (processed_content : dict entry) (w : world backend) :
  map call_file
      (w_calls (snd (_analyze_with_ai generate_content
                                      get_primary_analysis_prompt
                                      processed_content w)))
  = map call_file (w_calls w)
      ++ map fst (filter (fun fe => needs_request (snd fe))
                         processed_content).
Proof. apply analyze_items_requests. Qed.

(** X29. A single file is sent whatever its length.  When the
    hosting service returns a non-empty content for a path whose
    extension is not [.ipynb], [analyze_single_file] sends the
    backend exactly one request, built from the unchanged content,
    also when the content has fewer than 100 characters; it reports
    the status [completed] with the processed content, and with
    [None] as analysis when the backend fails. *)
Theorem X29_single_file_no_length_check
        {backend : Type}
        (generate_content : backend -> str -> result (option str) * backend)
        (get_primary_analysis_prompt : str -> json -> str -> str)
        {repository : Type}
        (get_repository : str -> result repository)
        (get_file_content : repository -> str -> result (option str))
        (repo_url file_path : str) (w : world backend)
        (repo : repository) (content : str) :
  get_repository repo_url = Ret repo ->
  get_file_content repo file_path = Ret (Some content) ->
  content <> [] ->
  lower (suffix file_path) <> lit ".ipynb" ->
  let r := analyze_single_file generate_content get_primary_analysis_prompt
                               get_repository get_file_content
                               repo_url file_path w in
  exists p ai title,
    fst r = Completed file_path p ai /\
    p_processed_content p = content /\
    (ai = JNull \/ truthy ai = true) /\
    w_calls (snd r)
    = w_calls w
        ++ [Call file_path
                 (get_primary_analysis_prompt content title file_path)].
Proof.
  intros Hrepo Hfile Hne Hext. cbv zeta. unfold analyze_single_file.
  rewrite Hrepo. cbn [bind]. rewrite Hfile.
  destruct content as [|c t]; [congruence|].
  assert (Hp : exists p,
             _process_single_content file_path (c :: t) = Ret p /\
             p_processed_content p = c :: t).
  { unfold _process_single_content.
    rewrite (str_eqb_neq _ _ Hext).
    destruct (str_eqb (lower (suffix file_path)) (lit ".md")
              || str_eqb (lower (suffix file_path)) (lit ".rst"));
      cbn [bind]; eexists; split; reflexivity. }
  destruct Hp as (p & Hp & Hc). rewrite Hp.
  set (title := match dict_get (p_metadata p) (lit "title") with
                | Some t0 => t0
                | None => JStr file_path
                end).
  pose proof (analyze_content_world generate_content
                get_primary_analysis_prompt (p_processed_content p)
                file_path title w) as Hw.
  pose proof (analyze_content_none_or_truthy generate_content
                get_primary_analysis_prompt (p_processed_content p)
                file_path title w) as Hr.
  cbv zeta in Hw, Hr.
  destruct (analyze_content generate_content get_primary_analysis_prompt
                            (p_processed_content p) file_path title w)
    as [ai w'].
  cbn [fst snd] in *. subst w'.
  exists p, ai. eexists. repeat split; auto.
  cbn [w_calls]. rewrite Hc. reflexivity.
Qed.

Lemma X29_short_file_witness :
  length (strip (lit "Hi.")) < 100 /\
  exists p ai title,
    fst (analyze_single_file backend_ok prompt_of one_repo one_file
                             (lit "https://github.com/o/r") (lit "a.md")
                             world0)
    = Completed (lit "a.md") p ai /\
    w_calls (snd (analyze_single_file backend_ok prompt_of one_repo one_file
                                      (lit "https://github.com/o/r")
                                      (lit "a.md") world0))
    = [Call (lit "a.md") (prompt_of (lit "Hi.") title (lit "a.md"))].
Proof.
  split; [vm_compute; lia|].
  destruct (X29_single_file_no_length_check
              backend_ok prompt_of one_repo one_file
              (lit "https://github.com/o/r") (lit "a.md") world0
              tt (lit "Hi."))
    as (p & ai & title & H1 & _ & _ & H4).
  - reflexivity.
  - reflexivity.
  - discriminate.
  - vm_compute. discriminate.
  - exists p, ai, title. split; [exact H1|exact H4].
Defined.

(** ** The summary of a run *)

Section SummaryCounts.

Variable same_key : json -> json -> bool.

Lemma hist_increment (h : histogram) (k : json) :
  counts (hist_set same_key h k (hist_get same_key h k + 1))
  = counts h + 1.
Proof.
  unfold counts. induction h as [|[k' n'] t IH]; [reflexivity|].
  cbn [hist_set hist_get].
  destruct (same_key k' k); simpl in *; lia.
Qed.

Lemma tally_counts (field default : string) (h h' : histogram)
      (suggestion : json) :
  tally same_key field default h suggestion = Ret h' ->
  counts h' = counts h + 1.
Proof.
  unfold tally.
  destruct (NotebookParser.get suggestion field (JStr (lit default)))
    as [k|]; cbn [bind]; [|discriminate].
  destruct (hashable k); [|discriminate].
  intros [= <-]. apply hist_increment.
Qed.

Lemma tally_all (field default : string) (l : list json)
      (h h' : histogram) :
  NotebookParser.for_each (tally same_key field default) l h = Ret h' ->
  counts h' = counts h + length l.
Proof.
  intro H.
  rewrite (for_each_eq (tally same_key field default) counts (fun _ => 1)
             (fun a x a' => tally_counts field default a a' x) l h h' H).
  now rewrite list_sum_ones.
Qed.

Lemma summary_step_counts (acc acc' : histogram * list json)
      (item : str * json) :
  counts (fst acc) = length (snd acc) ->
  summary_step same_key acc item = Ret acc' ->
  counts (fst acc') = length (snd acc').
Proof.
  destruct acc as [types all], item as [file_path analysis].
  cbn [fst snd]. intro Hacc. unfold summary_step.
  destruct (if truthy analysis
            then NotebookParser.has_key "suggestions" analysis
            else Ret false) as [present|]; cbn [bind]; [|discriminate].
  destruct present; [|intros [= <-]; exact Hacc].
  destruct (NotebookParser.getitem analysis "suggestions") as [x|];
    cbn [bind]; [|discriminate].
  destruct (NotebookParser.iterate x) as [suggestions|]; cbn [bind];
    [|discriminate].
  destruct (NotebookParser.for_each (tally same_key "type" "unknown")
                                    suggestions types)
    as [types'|] eqn:Et; cbn [bind]; [|discriminate].
  intros [= <-]. cbn [fst snd]. apply tally_all in Et.
  rewrite length_app. lia.
Qed.

End SummaryCounts.

(** X30. The counts of a summary add up.  Whenever
    [get_analysis_summary] returns a summary, the numbers in its
    table by suggestion type add up to the total number of
    suggestions, and so do the numbers in its table by priority:
    every suggestion is counted once in each table, under its own
    value or under the default.  This holds however the interpreter
    compares the keys of the tables. *)
Theorem X30_summary_counts_add_up
        (same_key : json -> json -> bool) (analysis_results : json)
        (s : summary) :
  get_analysis_summary same_key analysis_results = Ret (Summarised s) ->
  counts (suggestion_types s) = total_suggestions s /\
  counts (priority_distribution s) = total_suggestions s.
Proof.
  unfold get_analysis_summary.
  destruct (NotebookParser.get analysis_results "status" JNull)
    as [status|]; cbn [bind]; [|discriminate].
  destruct (negb (NotebookParser.is_str status "completed"));
    [discriminate|].
  destruct (NotebookParser.get analysis_results "ai_analysis" (JObj []))
    as [ai_results|]; cbn [bind]; [|discriminate].
  destruct (items ai_results) as [entries|]; cbn [bind]; [|discriminate].
  destruct (NotebookParser.for_each (summary_step same_key) entries ([], []))
    as [[types all]|] eqn:Eacc; cbn [bind]; [|discriminate].
  destruct (NotebookParser.for_each (tally same_key "priority" "medium")
                                    all [])
    as [priorities|] eqn:Ep; cbn [bind]; [|discriminate].
  destruct (NotebookParser.get analysis_results "files_analyzed" (JInt 0));
    cbn [bind]; [|discriminate].
  destruct (values ai_results); cbn [bind]; [|discriminate].
  destruct (NotebookParser.for_each count_with_suggestions _ 0);
    cbn [bind]; [|discriminate].
  destruct (NotebookParser.get analysis_results "github_issues" (JObj []))
    as [issues|]; cbn [bind]; [|discriminate].
  destruct (NotebookParser.len issues); cbn [bind]; [|discriminate].
  destruct (NotebookParser.get analysis_results "analysis_date" JNull);
    cbn [bind]; [|discriminate].
  intros [= <-]. cbn [suggestion_types priority_distribution
                      total_suggestions].
  split.
  - apply (for_each_inv (summary_step same_key)
             (fun acc => counts (fst acc) = length (snd acc))
             (fun a x a' Ha => summary_step_counts same_key a a' x Ha)
             entries ([], []) (types, all)
             eq_refl Eacc).
  - apply tally_all in Ep. exact Ep.
Qed.

Lemma X30_summary_witness :
  exists s,
    get_analysis_summary string_keys results_sample = Ret (Summarised s) /\
    total_suggestions s = 2 /\
    counts (suggestion_types s) = 2 /\
    counts (priority_distribution s) = 2.
Proof.
  assert (H : exists s,
             get_analysis_summary string_keys results_sample
             = Ret (Summarised s) /\ total_suggestions s = 2)
    by (eexists; vm_compute; split; reflexivity).
  destruct H as (s & H & Ht). exists s.
  destruct (X30_summary_counts_add_up string_keys results_sample s H)
    as [H1 H2].
  repeat split; congruence.
Defined.
